(** * HLS manifest resolution and segment retrieval ([src/src/download.py])

    A shallow embedding of the playlist parser, the variant selection, the
    encryption probe, the retrying segment fetch, the worker pool, the
    assembler and the post-run escalation test of [download.py], followed by
    the properties of the specification that concern them.  The request
    headers, the page resolver with its playlist-address pattern, and the
    atomic write are embedded as well, with properties of their own.

    Conventions of the embedding.
    - Python [str] values are [string]s; a character is a code point in
      U+0000..U+00FF.  Line separators and white space above U+00FF are
      outside the model.
    - Python exceptions are values of [exn]; a computation that may raise
      returns an [outcome].
    - The network is an oracle [urlopen] answering the k-th request ever
      made; the requests made and the delays slept are logged in a [world].
    - [urllib.parse.urljoin] and [bytes.decode] are library functions and
      are taken as parameters ([Externals]); [urljoin] raises on some
      references, so it returns a value or an exception.
    - A [float] is the rational number it denotes; NaN and the infinities
      are outside the model.  The delays that the clock of [time.sleep]
      cannot hold are a parameter as well ([too_long]). *)

From Stdlib Require Import ZArith QArith Ascii String List Sorting.Sorted Permutation Lia.
From Stdlib Require Import Structures.OrderedTypeEx.
From stdpp Require Import base option list gmap strings pretty sorting.

Local Open Scope string_scope.
Local Open Scope list_scope.
Local Open Scope Z_scope.

(* ===================================================================== *)
(** * Part I: the embedding                                               *)
(* ===================================================================== *)

(** ** Python string primitives *)
Module PyStr.

(** [str.isspace] on U+0000..U+00FF: TAB..CR, FS..US, SPACE, NEL, NBSP. *)
Definition is_space (c : ascii) : bool :=
  let n := N_of_ascii c in
  (((9 <=? n) && (n <=? 13)) || ((28 <=? n) && (n <=? 32))
   || (n =? 133) || (n =? 160))%N.

(** Line boundaries of [str.splitlines] on U+0000..U+00FF:
    LF, VT, FF, CR, FS, GS, RS, NEL (CR LF is handled by [splitlines]). *)
Definition is_linebreak (c : ascii) : bool :=
  let n := N_of_ascii c in
  (((10 <=? n) && (n <=? 13)) || ((28 <=? n) && (n <=? 30)) || (n =? 133))%N.

Definition is_cr (c : ascii) : bool := (N_of_ascii c =? 13)%N.
Definition is_lf (c : ascii) : bool := (N_of_ascii c =? 10)%N.

(** [re]'s [\d] on U+0000..U+00FF: the ASCII digits. *)
Definition is_digit (c : ascii) : bool :=
  let n := N_of_ascii c in ((48 <=? n) && (n <=? 57))%N.

Definition is_empty (s : string) : bool :=
  match s with EmptyString => true | String _ _ => false end.

Fixpoint rev_onto (s acc : string) : string :=
  match s with
  | EmptyString => acc
  | String c t => rev_onto t (String c acc)
  end.

Definition rev (s : string) : string := rev_onto s EmptyString.

(** [s.lstrip()] *)
Fixpoint lstrip (s : string) : string :=
  match s with
  | EmptyString => EmptyString
  | String c t => if is_space c then lstrip t else s
  end.

(** [s.rstrip()] *)
Definition rstrip (s : string) : string := rev (lstrip (rev s)).

(** [s.strip()] *)
Definition strip (s : string) : string := rstrip (lstrip s).

(** [s.startswith(p)] *)
Definition startswith (p s : string) : bool := String.prefix p s.

(** [needle in hay] *)
Fixpoint contains (needle hay : string) : bool :=
  startswith needle hay
  || match hay with
     | EmptyString => false
     | String _ t => contains needle t
     end.

(** [s.splitlines()]: [cur] is the current line, reversed.  A line break
    closes the current line; CR LF counts as one break; text after the last
    break is a line of its own when it is not empty. *)
Fixpoint splitlines_from (cur : string) (s : string) : list string :=
  match s with
  | EmptyString => if is_empty cur then [] else [rev cur]
  | String c t =>
      if is_linebreak c then
        match t with
        | String c2 t2 =>
            if is_cr c && is_lf c2 then rev cur :: splitlines_from EmptyString t2
            else rev cur :: splitlines_from EmptyString t
        | EmptyString => rev cur :: splitlines_from EmptyString t
        end
      else splitlines_from (String c cur) t
  end.

Definition splitlines (s : string) : list string := splitlines_from EmptyString s.

(** The value of a string of ASCII digits, most significant first. *)
Fixpoint digits_value (acc : Z) (s : string) : Z :=
  match s with
  | EmptyString => acc
  | String c t => digits_value (10 * acc + (Z.of_N (N_of_ascii c) - 48)) t
  end.

Fixpoint all_chars (p : ascii -> bool) (s : string) : bool :=
  match s with
  | EmptyString => true
  | String c t => p c && all_chars p t
  end.

(** The longest prefix of [s] whose characters satisfy [p] (a greedy [p+]
    or [p*] of a regular expression). *)
Fixpoint take_while (p : ascii -> bool) (s : string) : string :=
  match s with
  | EmptyString => EmptyString
  | String c t => if p c then String c (take_while p t) else EmptyString
  end.

Fixpoint drop_while (p : ascii -> bool) (s : string) : string :=
  match s with
  | EmptyString => EmptyString
  | String c t => if p c then drop_while p t else s
  end.

(** [s] without the prefix [p], when it starts with [p]. *)
Fixpoint strip_prefix (p s : string) : option string :=
  match p with
  | EmptyString => Some s
  | String a p' =>
      match s with
      | EmptyString => None
      | String b s' => if Ascii.eqb a b then strip_prefix p' s' else None
      end
  end.

End PyStr.

(** ** Exceptions, outcomes and the world *)
Module Py.

Definition bytes := list Byte.byte.

(** A [Dict[str, str]] of request headers, in insertion order. *)
Definition headers := list (string * string).

(** The exceptions that [download.py] raises or catches.  [HTTPError] is
    the subclass of [URLError] that carries a status code; [OtherError]
    stands for any other subclass of [Exception]. *)
Inductive exn :=
| ValueError (msg : string)
| RuntimeError (msg : string)
| HTTPError (code : Z)
| URLError
| OtherError.

(** [Diverge] marks a loop of the model that ran out of fuel; the
    properties below show that it is never returned. *)
Inductive outcome (A : Type) :=
| Ok (a : A)
| Raise (e : exn)
| Diverge.
Arguments Ok {A} a.
Arguments Raise {A} e.
Arguments Diverge {A}.

Record request := Request {
  req_url : string;
  req_headers : headers;
  req_timeout : Z
}.

Inductive response :=
| Body (data : bytes)
| Fails (e : exn).

(** What the program has done to the outside so far: the requests it has
    sent and the delays it has slept, oldest first. *)
Record world := World {
  requests : list request;
  slept : list Q
}.

Definition world0 : world := World [] [].

(** What a library function does with its arguments: it returns a value
    or raises. *)
Inductive returns (A : Type) :=
| Value (a : A)
| Throws (e : exn).
Arguments Value {A} a.
Arguments Throws {A} e.

(** Library and environment functions used by [download.py]:
    [urllib.parse.urljoin], which raises [ValueError] on some references
    (an unbalanced bracket in the host part, for one);
    [bytes.decode("utf-8", errors="ignore")]; the answer of the network to
    the k-th request of a run; and the delays that [time.sleep] refuses
    with [OverflowError] because its clock type cannot hold them. *)
Class Externals := {
  urljoin : string -> string -> returns string;
  decode : bytes -> string;
  urlopen : nat -> request -> response;
  too_long : Q -> bool
}.

(** Computations over the world. *)
Definition M (A : Type) : Type := world -> outcome A * world.

Definition ret {A} (a : A) : M A := fun w => (Ok a, w).
Definition raise {A} (e : exn) : M A := fun w => (Raise e, w).
Definition lift {A} (o : outcome A) : M A := fun w => (o, w).

Definition bind {A B} (m : M A) (k : A -> M B) : M B :=
  fun w =>
    match m w with
    | (Ok a, w') => k a w'
    | (Raise e, w') => (Raise e, w')
    | (Diverge, w') => (Diverge, w')
    end.

(** [try: m  except Exception as e: h e] *)
Definition try_except {A} (m : M A) (h : exn -> M A) : M A :=
  fun w =>
    match m w with
    | (Raise e, w') => h e w'
    | r => r
    end.

Declare Scope py_scope.
Delimit Scope py_scope with py.
Notation "'let*' x ':=' m 'in' k" := (bind m (fun x => k))
  (at level 10, x name, m at level 100, k at level 200, only parsing) : py_scope.

Section WithExternals.
Context `{Externals}.

(** [time.sleep(d)]: the delay is converted to the clock type first
    ([OverflowError] when it does not fit), then refused when negative. *)
Definition sleep (d : Q) : M unit :=
  fun w =>
    if too_long d then (Raise OtherError, w)
    else if Qle_bool 0 d then (Ok tt, World (requests w) (slept w ++ [d]))
    else (Raise (ValueError "sleep length must be non-negative"), w).

(** [http_get(url, headers, timeout)] *)
Definition http_get (url : string) (hdrs : headers) (timeout : Z) : M bytes :=
  fun w =>
    let r := Request url hdrs timeout in
    let w' := World (requests w ++ [r]) (slept w) in
    match urlopen (length (requests w)) r with
    | Body data => (Ok data, w')
    | Fails e => (Raise e, w')
    end.

End WithExternals.

End Py.

(** ** Playlists: parsing, variant selection, encryption probe *)
Module Playlist.
Import PyStr Py.
Local Open Scope py_scope.

(** [max(xs, key=key)]: the first element whose key no later one exceeds;
    the running maximum is replaced only by a strictly greater key. *)
Definition py_max {A K : Type} (gtb : K -> K -> bool) (key : A -> K)
    (xs : list A) : outcome A :=
  match xs with
  | [] => Raise (ValueError "max() arg is an empty sequence")
  | x :: rest =>
      Ok (fold_left (fun best y => if gtb (key y) (key best) then y else best)
                    rest x)
  end.

(** [>] on pairs of integers (Python tuple comparison). *)
Definition pair_gtb (a b : Z * Z) : bool :=
  (fst a >? fst b) || ((fst a =? fst b) && (snd a >? snd b)).

(** The message of [int] on a digit string of more than 4300 characters
    (the default of [sys.set_int_max_str_digits]). *)
Definition int_limit_message (digits : nat) : string :=
  "Exceeds the limit (4300 digits) for integer string conversion: value has "
  +:+ pretty (N.of_nat digits)
  +:+ " digits; use sys.set_int_max_str_digits() to increase the limit".

(** [int(s)] for the text of a regular-expression group.  [int] also takes
    signs, surrounding blanks and underscores; a group matched below is
    either all digits or starts with a backslash, so neither arises.  A
    digit string of more than 4300 characters is refused, leading zeros
    included. *)
Definition py_int (s : string) : outcome Z :=
  if negb (is_empty s) && all_chars is_digit s then
    if (4300 <? String.length s)%nat then
      Raise (ValueError (int_limit_message (String.length s)))
    else Ok (digits_value 0 s)
  else Raise (ValueError "invalid literal for int() with base 10").

(** [re.search(lit + "(" + pre + cls + "+)", s)] for a literal [lit], a
    literal [pre] and a character class [cls]: group 1 of the leftmost
    match. *)
Definition match_here (lit pre : string) (cls : ascii -> bool) (s : string)
    : option string :=
  match strip_prefix lit s with
  | None => None
  | Some s1 =>
      match strip_prefix pre s1 with
      | None => None
      | Some s2 =>
          let grp := take_while cls s2 in
          if is_empty grp then None else Some (pre +:+ grp)
      end
  end.

Fixpoint re_search_group (lit pre : string) (cls : ascii -> bool) (s : string)
    : option string :=
  match match_here lit pre cls s with
  | Some g => Some g
  | None =>
      match s with
      | EmptyString => None
      | String _ t => re_search_group lit pre cls t
      end
  end.

Definition is_d (c : ascii) : bool := Ascii.eqb c "d".
Definition backslash : string := String (ascii_of_nat 92) EmptyString.

(** [re.search(r"BANDWIDTH=(\d+)", line)], group 1. *)
Definition search_bandwidth_digits (line : string) : option string :=
  re_search_group "BANDWIDTH=" "" is_digit line.

(** [re.search(r"BANDWIDTH=(\\d+)", line)], group 1: in a raw string the
    doubled backslash is the pattern of one literal backslash, followed by
    one or more letters [d]. *)
Definition search_bandwidth_backslash_d (line : string) : option string :=
  re_search_group "BANDWIDTH=" backslash is_d line.

(** [re.search(r"RESOLUTION=(\\d+)x(\\d+)", line)], group 2. *)
Definition match_resolution_here (s : string) : option string :=
  match strip_prefix ("RESOLUTION=" +:+ backslash) s with
  | None => None
  | Some s1 =>
      if is_empty (take_while is_d s1) then None
      else
        match strip_prefix ("x" +:+ backslash) (drop_while is_d s1) with
        | None => None
        | Some s2 =>
            let grp := take_while is_d s2 in
            if is_empty grp then None else Some (backslash +:+ grp)
        end
  end.

Fixpoint search_resolution_backslash_d (s : string) : option string :=
  match match_resolution_here s with
  | Some g => Some g
  | None =>
      match s with
      | EmptyString => None
      | String _ t => search_resolution_backslash_d t
      end
  end.

(** [[line.strip() for line in content.splitlines() if line.strip()]] *)
Definition stripped_lines (content : string) : list string :=
  List.filter (fun l => negb (is_empty l)) (map strip (splitlines content)).

(** [any(line.startswith("#EXT-X-STREAM-INF") for line in lines)] *)
Definition has_stream_inf (lines : list string) : bool :=
  existsb (startswith "#EXT-X-STREAM-INF") lines.

(** [while j < len(lines) and lines[j].startswith("#"): j += 1], on the
    suffix [lines[j:]]. *)
Fixpoint skip_directives (from_j : list string) : list string :=
  match from_j with
  | [] => []
  | l :: rest => if startswith "#" l then skip_directives rest else from_j
  end.

Section WithExternals.
Context `{Externals}.

(** The variant loop shared by [parse_master_variants_only],
    [resolve_segments_from_m3u8] and [detect_encryption_in_playlist_chain]:
    [from_i] is [lines[i:]], [info] computes the attributes read from a
    stream-info line.  The loop body moves [i] to [j], so the recursion is
    on fuel. *)
Fixpoint variants_loop {A : Type} (info : string -> outcome A)
    (base_url : string) (fuel : nat) (from_i : list string)
    (variants : list (A * string)) : outcome (list (A * string)) :=
  match fuel with
  | O => Diverge
  | S fuel' =>
      match from_i with
      | [] => Ok variants
      | line :: from_i1 =>
          if startswith "#EXT-X-STREAM-INF" line then
            match info line with
            | Ok a =>
                let from_j := skip_directives from_i1 in
                match from_j with
                | uri_line :: _ =>
                    match urljoin base_url uri_line with
                    | Value uri =>
                        variants_loop info base_url fuel' from_j
                                      (variants ++ [(a, uri)])
                    | Throws e => Raise e
                    end
                | [] => variants_loop info base_url fuel' from_j variants
                end
            | Raise e => Raise e
            | Diverge => Diverge
            end
          else variants_loop info base_url fuel' from_i1 variants
      end
  end.

Definition collect_variants {A : Type} (info : string -> outcome A)
    (base_url : string) (lines : list string) : outcome (list (A * string)) :=
  variants_loop info base_url (S (length lines)) lines [].

(** [bandwidth] of [resolve_segments_from_m3u8]. *)
Definition bandwidth_resolve (line : string) : outcome Z :=
  match search_bandwidth_digits line with
  | Some g => py_int g
  | None => Ok 0
  end.

(** [bandwidth] of [detect_encryption_in_playlist_chain] and of
    [parse_master_variants_only]. *)
Definition bandwidth_detect (line : string) : outcome Z :=
  match search_bandwidth_backslash_d line with
  | Some g => py_int g
  | None => Ok 0
  end.

(** [(bandwidth, height)] of [parse_master_variants_only]. *)
Definition bandwidth_height (line : string) : outcome (Z * option Z) :=
  let bandwidth_match := search_bandwidth_backslash_d line in
  let resolution_match := search_resolution_backslash_d line in
  match (match bandwidth_match with Some g => py_int g | None => Ok 0 end) with
  | Ok bandwidth =>
      match resolution_match with
      | Some g =>
          match py_int g with
          | Ok h => Ok (bandwidth, Some h)
          | Raise e => Raise e
          | Diverge => Diverge
          end
      | None => Ok (bandwidth, None)
      end
  | Raise e => Raise e
  | Diverge => Diverge
  end.

(** [parse_master_variants_only(content, base_url)]; a variant is
    [((bandwidth, height), uri)]. *)
Definition parse_master_variants_only (content base_url : string)
    : outcome (list ((Z * option Z) * string)) :=
  collect_variants bandwidth_height base_url (stripped_lines content).

(** [v[1] or 0] *)
Definition height_or_zero (h : option Z) : Z :=
  match h with
  | Some x => if x =? 0 then 0 else x
  | None => 0
  end.

(** [lambda v: (v[0], v[1] or 0)] *)
Definition selection_key (v : (Z * option Z) * string) : Z * Z :=
  (fst (fst v), height_or_zero (snd (fst v))).

(** [choose_variant_best(variants)] *)
Definition choose_variant_best (variants : list ((Z * option Z) * string))
    : outcome string :=
  match py_max pair_gtb selection_key variants with
  | Ok v => Ok (snd v)
  | Raise e => Raise e
  | Diverge => Diverge
  end.

(** [for idx, line in enumerate(lines): ...] of [parse_m3u8]: the segments
    collected, or the exception of the first [urljoin] that raises. *)
Fixpoint segments_loop (base_url : string) (lines : list string)
    (segments : list string) : outcome (list string) :=
  match lines with
  | [] => Ok segments
  | line :: later =>
      if startswith "#" line then segments_loop base_url later segments
      else
        match urljoin base_url line with
        | Value uri => segments_loop base_url later (segments ++ [uri])
        | Throws e => Raise e
        end
  end.

(** [parse_m3u8(content, base_url)] *)
Definition parse_m3u8 (content base_url : string) : outcome (list string) :=
  let lines := stripped_lines content in
  if has_stream_inf lines then
    Raise (ValueError "Master playlist provided; use resolve_segments_from_m3u8() that preserves headers")
  else
    match segments_loop base_url lines [] with
    | Ok [] => Raise (ValueError "No segments found in playlist")
    | r => r
    end.

(** [max(variants, key=lambda x: x[0])[1]] of the two chain functions. *)
Definition best_by_bandwidth (variants : list (Z * string)) : outcome string :=
  match py_max Z.gtb fst variants with
  | Ok v => Ok (snd v)
  | Raise e => Raise e
  | Diverge => Diverge
  end.

(** [resolve_segments_from_m3u8(m3u8_url, headers, timeout)] *)
Definition resolve_segments_from_m3u8 (m3u8_url : string) (hdrs : headers)
    (timeout : Z) : M (list string) :=
  let* top_bytes := http_get m3u8_url hdrs timeout in
  let top := decode top_bytes in
  let lines := stripped_lines top in
  if has_stream_inf lines then
    let* variants := lift (collect_variants bandwidth_resolve m3u8_url lines) in
    match variants with
    | [] => raise (ValueError "No HLS variants found in master playlist")
    | _ :: _ =>
        let* best_uri := lift (best_by_bandwidth variants) in
        let* media := http_get best_uri hdrs timeout in
        lift (parse_m3u8 (decode media) best_uri)
    end
  else lift (parse_m3u8 top m3u8_url).

(** [playlist_has_encryption(m3u8_text)] *)
Definition playlist_has_encryption (m3u8_text : string) : bool :=
  existsb (fun line =>
             startswith "#EXT-X-KEY" (strip line)
             && negb (contains "METHOD=NONE" line))
          (splitlines m3u8_text).

(** [detect_encryption_in_playlist_chain(m3u8_url, headers, timeout)] *)
Definition detect_encryption_in_playlist_chain (m3u8_url : string)
    (hdrs : headers) (timeout : Z) : M bool :=
  let* top_bytes := http_get m3u8_url hdrs timeout in
  let top := decode top_bytes in
  let lines := stripped_lines top in
  if has_stream_inf lines then
    let* variants := lift (collect_variants bandwidth_detect m3u8_url lines) in
    match variants with
    | [] => ret false
    | _ :: _ =>
        let* best_uri := lift (best_by_bandwidth variants) in
        let* media := http_get best_uri hdrs timeout in
        ret (playlist_has_encryption (decode media))
    end
  else ret (playlist_has_encryption top).

End WithExternals.

End Playlist.

(** ** The retrying segment fetch *)
Module Fetch.
Import PyStr Py.
Local Open Scope py_scope.

(** What [try_download] returns: [(ok, data, code)]. *)
Definition fetch_result : Type := bool * option bytes * option Z.

(** [backoff * (2 ** attempt)], as a number *)
Definition backoff_delay (backoff : Q) (attempt : Z) : Q :=
  (backoff * inject_Z (2 ^ attempt))%Q.

(** [range(n)] *)
Definition range (n : Z) : list Z := seqZ 0 n.

Section WithExternals.
Context `{Externals}.

(** One pass through the [try] statement of the loop body: [Some r] when
    the body returns [r], [None] when control falls through to the
    [time.sleep] below it. *)
Definition attempt_once (url : string) (hdrs : headers) (timeout retries : Z)
    (attempt : Z) : M (option fetch_result) :=
  try_except
    (let* data := http_get url hdrs timeout in
     ret (Some (true, Some data, None)))
    (fun e =>
       match e with
       | HTTPError code =>
           if (code =? 403) || (code =? 404) then ret (Some (false, None, Some code))
           else if attempt >=? retries then ret (Some (false, None, Some code))
           else ret None
       | _ =>
           if attempt >=? retries then ret (Some (false, None, None))
           else ret None
       end).

(** [time.sleep(backoff * (2 ** attempt))] for a [float] [backoff]: the
    integer [2 ** attempt] is converted to [float] for the product, which
    raises [OverflowError] from [2 ** 1024] on.  (Every call in
    [download.py] passes the float 0.5, or an integer 0 with no retry, in
    which case no delay is computed.) *)
Definition sleep_backoff (backoff : Q) (attempt : Z) : M unit :=
  if attempt >=? 1024 then raise OtherError
  else sleep (backoff_delay backoff attempt).

(** [for attempt in attempts: ...] followed by the final [return]. *)
Fixpoint for_attempts (url : string) (hdrs : headers) (timeout retries : Z)
    (backoff : Q) (attempts : list Z) : M fetch_result :=
  match attempts with
  | [] => ret (false, None, None)
  | attempt :: later =>
      let* r := attempt_once url hdrs timeout retries attempt in
      match r with
      | Some result => ret result
      | None =>
          let* u := sleep_backoff backoff attempt in
          for_attempts url hdrs timeout retries backoff later
      end
  end.

(** [try_download(url, headers, timeout, retries, backoff)] *)
Definition try_download (url : string) (hdrs : headers) (timeout retries : Z)
    (backoff : Q) : M fetch_result :=
  for_attempts url hdrs timeout retries backoff (range (retries + 1)).

End WithExternals.

End Fetch.

(** ** Segment file names *)
Module Names.
Import PyStr.

Definition digit_char (d : N) : ascii := ascii_of_N (48 + d).

(** The decimal digits of [n], most significant first, in front of [acc]. *)
Fixpoint decimal_onto (fuel : nat) (n : N) (acc : string) : string :=
  match fuel with
  | O => acc
  | S fuel' =>
      let acc' := String (digit_char (n mod 10)) acc in
      if (n / 10 =? 0)%N then acc' else decimal_onto fuel' (n / 10) acc'
  end.

(** [str(n)] for [n >= 0]; a number has at most [log2 n + 1] digits. *)
Definition str_of_N (n : N) : string :=
  decimal_onto (S (N.to_nat (N.log2 n))) n EmptyString.

Fixpoint zeros (k : nat) : string :=
  match k with
  | O => EmptyString
  | S k' => String "0" (zeros k')
  end.

(** [s.zfill(width)] for a string of digits. *)
Definition zfill (width : nat) (s : string) : string :=
  zeros (width - String.length s) +:+ s.

(** [f"{index:06d}.ts"] *)
Definition segment_name (index : nat) : string :=
  zfill 6 (str_of_N (N.of_nat index)) +:+ ".ts".

(** [path.with_suffix(path.suffix + ".part")] of a segment file. *)
Definition part_name (index : nat) : string :=
  segment_name index +:+ ".part".

(** [s.endswith(suffix)] *)
Definition endswith (suffix s : string) : bool :=
  startswith (rev suffix) (rev s).

End Names.

(** ** The worker pool of [download_segments_concurrent] *)
Module Pool.
Import PyStr Py Fetch Names.

(** Where the task of one segment stands.  [Submitted]: in the executor's
    queue.  [Fetched]: [try_download] returned [ok] with data.
    [PartWritten]: [tmp.write_bytes(data)] done.  [Replaced]:
    [tmp.replace(path)] done.  [Returned]: the task returned
    [(index, ok, code)].  [Collected]: the main thread has taken that
    result from [as_completed]. *)
Inductive task :=
| Submitted
| Fetched (data : bytes) (code : option Z)
| PartWritten (data : bytes) (code : option Z)
| Replaced (data : bytes) (code : option Z)
| Returned (ok : bool) (code : option Z)
| Collected (ok : bool) (code : option Z).

(** The shared state: the tasks by index, the output directory (file name
    to content), the [progress] counters, the world, and the failures
    printed by the main thread. *)
Record pool := MkPool {
  tasks : list task;
  files : gmap string bytes;
  progress_done : Z;
  progress_bytes : Z;
  net : world;
  failures : list (nat * option Z)
}.

Definition is_running (t : task) : bool :=
  match t with
  | Fetched _ _ | PartWritten _ _ | Replaced _ _ => true
  | _ => false
  end.

Definition is_submitted (t : task) : bool :=
  match t with Submitted => true | _ => false end.

Definition running (p : pool) : nat :=
  length (List.filter is_running (tasks p)).

Section WithExternals.
Context `{Externals}.
Variables (urls : list string) (hdrs : headers) (timeout retries : Z)
          (concurrency : Z).

(** The state after [executor.submit] of every [(i, u)], in a fresh
    output directory. *)
Definition initial : pool :=
  MkPool (map (fun _ => Submitted) urls) ∅ 0 0 world0 [].

(** One move of the task of segment [i]; [None] when it cannot move.  A
    queued task starts only when a worker is idle and every task
    submitted before it has started.  Its [try_download] writes to no
    file and to no counter and is one move here: the requests of a task
    are logged when it starts, so the order of the log is that of the
    starts, not that in which concurrent requests reach the network.
    [tmp.write_bytes] is one move as well: a temporary file that is only
    partly written is not a state of the model.  A [try_download] that
    raises (a delay that cannot be slept) leaves the task without move. *)
Definition advance (i : nat) (p : pool) : option pool :=
  match tasks p !! i with
  | Some Submitted =>
      if (Z.of_nat (running p) <? concurrency)
         && forallb (fun t => negb (is_submitted t)) (take i (tasks p)) then
        match urls !! i with
        | Some url =>
            match try_download url hdrs timeout retries (1 # 2) (net p) with
            | (Ok (ok, data, code), w') =>
                let t := match ok, data with
                         | true, Some d => Fetched d code
                         | _, _ => Returned ok code
                         end in
                Some (MkPool (<[i := t]> (tasks p)) (files p) (progress_done p)
                             (progress_bytes p) w' (failures p))
            | _ => None
            end
        | None => None
        end
      else None
  | Some (Fetched data code) =>
      Some (MkPool (<[i := PartWritten data code]> (tasks p))
                   (<[part_name i := data]> (files p))
                   (progress_done p) (progress_bytes p) (net p) (failures p))
  | Some (PartWritten data code) =>
      Some (MkPool (<[i := Replaced data code]> (tasks p))
                   (<[segment_name i := data]> (delete (part_name i) (files p)))
                   (progress_done p) (progress_bytes p) (net p) (failures p))
  | Some (Replaced data code) =>
      Some (MkPool (<[i := Returned true code]> (tasks p)) (files p)
                   (progress_done p + 1)
                   (progress_bytes p + Z.of_nat (length data))
                   (net p) (failures p))
  | Some (Returned ok code) =>
      Some (MkPool (<[i := Collected ok code]> (tasks p)) (files p)
                   (progress_done p) (progress_bytes p) (net p)
                   (if ok then failures p else failures p ++ [(i, code)]))
  | Some (Collected _ _) => None
  | None => None
  end.

(** One step of the pool: some task moves. *)
Definition step (p p' : pool) : Prop := ∃ i, advance i p = Some p'.

(** The pool has shut down: every result has been collected. *)
Definition finished (p : pool) : bool :=
  forallb (fun t => match t with Collected _ _ => true | _ => false end)
          (tasks p).

(** A run under a schedule: the list of the tasks that move, in order. *)
Fixpoint run_schedule (schedule : list nat) (p : pool) : option pool :=
  match schedule with
  | [] => Some p
  | i :: later =>
      match advance i p with
      | Some p' => run_schedule later p'
      | None => None
      end
  end.

End WithExternals.

End Pool.

(** ** The assembler *)
Module Assembler.
Import PyStr Py Names.

(** A directory listing: names and contents in the order the file system
    returns them. *)
Definition listing := list (string * bytes).

(** [segments_dir.glob("*.ts")] *)
Definition glob_ts (dir : listing) : listing :=
  List.filter (fun e => endswith ".ts" (fst e)) dir.

(** [sorted(paths)]: paths of one directory compare by name, code point
    by code point; the sort is stable. *)
Fixpoint insert_sorted (e : string * bytes) (sorted : listing) : listing :=
  match sorted with
  | [] => [e]
  | e' :: rest =>
      if String.ltb (fst e) (fst e') then e :: sorted
      else e' :: insert_sorted e rest
  end.

Definition py_sorted (l : listing) : listing :=
  fold_left (fun sorted e => insert_sorted e sorted) l [].

(** [concat_segments_to_ts(segments_dir, output_ts)]: the bytes written to
    [output_ts]. *)
Definition concat_segments_to_ts (segments_dir : listing) : outcome bytes :=
  let parts := py_sorted (glob_ts segments_dir) in
  match parts with
  | [] => Raise (RuntimeError "No segment files to merge")
  | _ :: _ => Ok (concat (map snd parts))
  end.

End Assembler.

(** ** The escalation test after the manual run ([main]) *)
Module Strategy.
Import Py.

(** [int(0.8 * n)] for a list length [n]: the double nearest to 0.8 is
    0.8 * (1 + 2^-54), so for [n < 2^50] the rounded product has the same
    integer part as [4 n / 5]. *)
Definition int_0_8_times (n : Z) : Z := (4 * n) / 5.

(** [len(downloaded) < max(1, int(0.8 * len(segments)))] *)
Definition too_many_failures (downloaded segments : Z) : bool :=
  downloaded <? Z.max 1 (int_0_8_times segments).

Inductive action :=
| FfmpegFallback     (* ffmpeg_download_m3u8(base, test_headers, output_ts) *)
| Assemble.          (* concat_segments_to_ts(segments_dir, output_ts) *)

(** What [main] does between the end of [download_segments_concurrent]
    and the end of the merge: the actions taken, in order.  [ffmpeg_ok] is
    the result [ffmpeg_download_m3u8] would give. *)
Definition after_manual_run (downloaded segments : Z) (ffmpeg_ok : bool)
    : list action :=
  if too_many_failures downloaded segments then
    if ffmpeg_ok then [FfmpegFallback]
    else [FfmpegFallback; Assemble]
  else [Assemble].

End Strategy.

(** ** The vocabulary of the specification *)
Module SpecWords.
Import PyStr Py Playlist.

(** [v], listed at position [i] of [xs], is the first maximum of [xs] for
    the strict order [lt] on keys: no key exceeds its key, and every
    element listed before it has a smaller key. *)
Definition first_max {A K : Type} (lt : K -> K -> Prop) (key : A -> K)
    (xs : list A) (i : nat) (v : A) : Prop :=
  xs !! i = Some v
  /\ (forall j w, xs !! j = Some w -> ~ lt (key v) (key w))
  /\ (forall j w, (j < i)%nat -> xs !! j = Some w -> lt (key w) (key v)).

(** The lexicographic order on [(bandwidth, height-or-zero)]. *)
Definition key_lt (a b : Z * Z) : Prop :=
  fst a < fst b \/ (fst a = fst b /\ snd a < snd b).

(** What [resolve_segments_from_m3u8] keeps of a variant. *)
Definition bandwidth_and_uri (v : (Z * option Z) * string) : Z * string :=
  (fst (fst v), snd v).

(** The non-comment, non-empty lines of a playlist text, stripped. *)
Definition non_comment_lines (content : string) : list string :=
  List.filter (fun l => negb (is_empty l) && negb (startswith "#" l))
              (map strip (splitlines content)).

(** [s.split(sep)] for a one-character separator; [cur] is the current
    piece, reversed. *)
Fixpoint split_on (sep : ascii) (cur : string) (s : string) : list string :=
  match s with
  | EmptyString => [rev cur]
  | String c t =>
      if Ascii.eqb c sep then rev cur :: split_on sep EmptyString t
      else split_on sep (String c cur) t
  end.

(** A key directive: a line that starts, blanks aside, with [#EXT-X-KEY]. *)
Definition is_key_directive (line : string) : bool :=
  startswith "#EXT-X-KEY" (strip line).

(** The attributes of a directive: the comma-separated [NAME=VALUE] items
    after its first colon. *)
Definition directive_attributes (line : string) : list string :=
  match split_on ":" EmptyString (strip line) with
  | _ :: after_colon :: more =>
      map strip (split_on "," EmptyString
                   (String.concat ":" (after_colon :: more)))
  | _ => []
  end.

(** The method field of a key directive: the value of its [METHOD]
    attribute, when it has one. *)
Definition method_field (line : string) : option string :=
  head (omap (strip_prefix "METHOD=") (directive_attributes line)).

(** Modelled from the spec's words for [isEncrypted]: some key directive
    has a method field that is present and is not [NONE]. *)
Definition is_encrypted_spec (m3u8_text : string) : bool :=
  existsb (fun line =>
             is_key_directive line
             && match method_field line with
                | Some m => negb (String.eqb m "NONE")
                | None => false
                end)
          (splitlines m3u8_text).

(** An answer after which [try_download] tries again (retries permitting):
    any failure but HTTP 403 and 404. *)
Definition retriable (r : response) : bool :=
  match r with
  | Body _ => false
  | Fails (HTTPError code) => negb ((code =? 403) || (code =? 404))
  | Fails _ => true
  end.

(** The status [try_download] reports for a failed answer. *)
Definition status_of (r : response) : option Z :=
  match r with
  | Fails (HTTPError code) => Some code
  | _ => None
  end.

(** The world after one more request, for [url]. *)
Definition after_top (url : string) (hdrs : headers) (timeout : Z) (w : world)
    : world :=
  World (requests w ++ [Request url hdrs timeout]) (slept w).

(** The world after two more requests: for the top playlist at [url], then
    for a variant at [uri]. *)
Definition after_variant (url uri : string) (hdrs : headers) (timeout : Z)
    (w : world) : world :=
  World (requests w ++ [Request url hdrs timeout; Request uri hdrs timeout])
        (slept w).

(** What [try_download] returns when the answer [r] ends its loop. *)
Definition final_result (r : response) : Fetch.fetch_result :=
  match r with
  | Body data => (true, Some data, None)
  | Fails _ => (false, None, status_of r)
  end.

(** The world after [n] more requests [req] and, between them, the delays
    of the attempts [first], [first + 1], ..., [delays] of them. *)
Definition after_attempts (req : request) (backoff : Q) (w : world) (n : nat)
    (first : Z) (delays : nat) : world :=
  World (requests w ++ replicate n req)
        (slept w
         ++ map (Fetch.backoff_delay backoff) (seqZ first (Z.of_nat delays))).

(** The delay after attempt [a] can be slept: [2 ** a] converts to
    [float], the product fits the clock, and it is not negative. *)
Definition can_sleep `{Externals} (backoff : Q) (a : Z) : bool :=
  (a <? 1024)
  && negb (too_long (backoff * inject_Z (2 ^ a))%Q)
  && Qle_bool 0 (backoff * inject_Z (2 ^ a))%Q.

(** What [time.sleep(backoff * (2 ** a))] raises when the delay cannot be
    slept: [OverflowError], or [ValueError] for a negative delay. *)
Definition sleep_error `{Externals} (backoff : Q) (a : Z) : exn :=
  if (a >=? 1024) || too_long (backoff * inject_Z (2 ^ a))%Q then OtherError
  else ValueError "sleep length must be non-negative".

(** The [k] low-order decimal digits of [n], most significant first, in
    front of [acc]. *)
Fixpoint fixed_width (k : nat) (n : N) (acc : string) : string :=
  match k with
  | O => acc
  | S k' => fixed_width k' (n / 10) (String (Names.digit_char (n mod 10)) acc)
  end.

(** The order of [sorted] on the files of one directory: by name, code
    point by code point. *)
Definition name_le (a b : string * bytes) : Prop :=
  String.leb (fst a) (fst b) = true.

(** The files of the segments [indices] with the contents [data]. *)
Definition segment_files (data : nat -> bytes) (indices : list nat)
    : list (string * bytes) :=
  map (fun i => (Names.segment_name i, data i)) indices.

(** The literal text that [r"BANDWIDTH=(\\d+)"] matches at its shortest. *)
Definition bandwidth_backslash_d : string := "BANDWIDTH=" +:+ backslash +:+ "d".

(** The text [line] holds the digits [digits] right after an occurrence of
    [BANDWIDTH=] that follows [before]; the digits are a whole run: at
    least one, and no digit comes after them. *)
Definition bandwidth_at (line before digits : string) : Prop :=
  exists rest,
    line = before +:+ "BANDWIDTH=" +:+ digits +:+ rest
    /\ is_empty digits = false
    /\ all_chars is_digit digits = true
    /\ is_empty (take_while is_digit rest) = true.

(** The digits that a reader of the leftmost [BANDWIDTH=] followed by a
    digit finds in [line]: the run at the leftmost such place, or none
    when there is no such place.  The name of the attribute is not looked
    at: in [AVERAGE-BANDWIDTH=900,BANDWIDTH=1000] the digits are [900]. *)
Definition reads_digits (line : string) (digits : option string) : Prop :=
  match digits with
  | Some ds =>
      exists before,
        bandwidth_at line before ds
        /\ forall before' ds', bandwidth_at line before' ds' ->
             (String.length before <= String.length before')%nat
  | None => forall before ds, ~ bandwidth_at line before ds
  end.

(** The number that the digits read stand for: 0 without digits, their
    decimal value up to 4300 digits, the refusal of [int] beyond. *)
Definition bandwidth_value (digits : option string) : outcome Z :=
  match digits with
  | None => Ok 0
  | Some ds =>
      if (4300 <? String.length ds)%nat then
        Raise (ValueError (int_limit_message (String.length ds)))
      else Ok (digits_value 0 ds)
  end.

End SpecWords.

(** ** The vocabulary of the worker pool *)
Module PoolSpec.
Import PyStr Py Fetch Names Pool.

(** The moves a task still has to make. *)
Definition moves_left (t : task) : nat :=
  match t with
  | Submitted => 5
  | Fetched _ _ => 4
  | PartWritten _ _ => 3
  | Replaced _ _ => 2
  | Returned _ _ => 1
  | Collected _ _ => 0
  end.

Definition remaining (p : pool) : nat := sum_list_with moves_left (tasks p).

(** The task has passed the update of [progress["done"]]. *)
Definition counted (t : task) : Z :=
  match t with
  | Returned true _ | Collected true _ => 1
  | _ => 0
  end.

Fixpoint done_count (ts : list task) : Z :=
  match ts with
  | [] => 0
  | t :: rest => counted t + done_count rest
  end.

(** The failure that the main thread has printed for task [i]. *)
Definition printed (i : nat) (t : task) : list (nat * option Z) :=
  match t with
  | Collected false code => [(i, code)]
  | _ => []
  end.

Fixpoint printed_from (i : nat) (ts : list task) : list (nat * option Z) :=
  match ts with
  | [] => []
  | t :: rest => printed i t ++ printed_from (S i) rest
  end.

Section Scenario.
(** [outcome_of i] is the data that every request for segment [i] is
    answered with, or [None] when every such request gets HTTP 404. *)
Variable outcome_of : nat -> option bytes.

Definition answer_of (i : nat) : response :=
  match outcome_of i with
  | Some data => Body data
  | None => Fails (HTTPError 404)
  end.

(** The network answers each URL of the list always the same way. *)
Definition steady `{Externals} (urls : list string) : Prop :=
  forall i url, urls !! i = Some url ->
    forall k hdrs timeout, urlopen k (Request url hdrs timeout) = answer_of i.

(** What the output directory holds of segment [i]: its file, its
    temporary file. *)
Definition on_disk (i : nat) (fs : gmap string bytes)
    (segment part : option bytes) : Prop :=
  fs !! segment_name i = segment /\ fs !! part_name i = part.

(** The state of task [i] agrees with the network and the directory. *)
Definition task_consistent (i : nat) (t : task) (fs : gmap string bytes)
    : Prop :=
  match t with
  | Submitted => on_disk i fs None None
  | Fetched data code =>
      outcome_of i = Some data /\ code = None /\ on_disk i fs None None
  | PartWritten data code =>
      outcome_of i = Some data /\ code = None /\ on_disk i fs None (Some data)
  | Replaced data code =>
      outcome_of i = Some data /\ code = None /\ on_disk i fs (Some data) None
  | Returned ok code | Collected ok code =>
      match outcome_of i with
      | Some data => ok = true /\ code = None /\ on_disk i fs (Some data) None
      | None => ok = false /\ code = Some 404 /\ on_disk i fs None None
      end
  end.

(** The invariant of the pool over [n] segments. *)
Record pool_invariant (n : nat) (p : pool) : Prop := {
  inv_length : length (tasks p) = n;
  inv_tasks : forall i t, tasks p !! i = Some t -> task_consistent i t (files p);
  inv_files : forall name, is_Some (files p !! name) ->
                exists i, (i < n)%nat /\ (name = segment_name i \/ name = part_name i);
  inv_done : progress_done p = done_count (tasks p);
  inv_failures : failures p ≡ₚ printed_from 0 (tasks p)
}.

(** The tasks, once all collected. *)
Definition collected_tasks (n : nat) : list task :=
  map (fun i => match outcome_of i with
                | Some _ => Collected true None
                | None => Collected false (Some 404)
                end) (seq 0 n).

(** The files of the segments that were delivered. *)
Definition delivered (n : nat) : list (string * bytes) :=
  omap (fun i => match outcome_of i with
                 | Some data => Some (segment_name i, data)
                 | None => None
                 end) (seq 0 n).

End Scenario.

(** The first five segments are delivered, the rest is missing. *)
Definition first_five (data : nat -> bytes) (i : nat) : option bytes :=
  if (i <? 5)%nat then Some (data i) else None.

End PoolSpec.

(** ** Concrete playlists and networks, for the examples *)
Module Demo.
Import PyStr Py Playlist.

Definition newline : string := String (ascii_of_nat 10) EmptyString.

(** A text made of the given lines. *)
Definition text_of (lines : list string) : string := String.concat newline lines.

Definition body_of (text : string) : response := Body (list_byte_of_string text).

(** A network that serves fixed answers by URL and HTTP 404 elsewhere. *)
Definition site (pages : list (string * response)) (r : request) : response :=
  match List.find (fun p => String.eqb (fst p) (req_url r)) pages with
  | Some p => snd p
  | None => Fails (HTTPError 404)
  end.

(** A stand-in for [urljoin] on the references used below: a relative
    name is put under the host; a reference that opens a host part with a
    bracket and does not close it is refused, as [urllib] does. *)
Definition join_cdn (base rel : string) : returns string :=
  if startswith "//[" rel && negb (contains "]" rel) then
    Throws (ValueError "Invalid IPv6 URL")
  else Value ("http://cdn/" +:+ rel).

(** The delays that a clock of signed 64-bit nanoseconds cannot hold. *)
Definition clock_too_long (d : Q) : bool :=
  Qle_bool (9223372036854775808 # 1000000000) d
  || Qle_bool d (- (9223372036854775808 # 1000000000)).

Definition externals_of (answer : nat -> request -> response) : Externals :=
  {| urljoin := join_cdn; decode := string_of_list_byte; urlopen := answer;
     too_long := clock_too_long |}.

(** The three variants of the specification's example, as a playlist. *)
Definition master_text : string :=
  text_of [ "#EXTM3U";
            "#EXT-X-STREAM-INF:BANDWIDTH=500,RESOLUTION=854x480"; "low.m3u8";
            "#EXT-X-STREAM-INF:BANDWIDTH=1200,RESOLUTION=1280x720"; "mid.m3u8";
            "#EXT-X-STREAM-INF:BANDWIDTH=1200,RESOLUTION=1920x1080"; "high.m3u8" ].

Definition master_variants : list ((Z * option Z) * string) :=
  [ ((500, Some 480), "http://cdn/low.m3u8");
    ((1200, Some 720), "http://cdn/mid.m3u8");
    ((1200, Some 1080), "http://cdn/high.m3u8") ].

Definition media_text : string :=
  text_of [ "#EXTM3U"; "#EXTINF:4.0,"; "seg0.ts"; "#EXTINF:4.0,"; "seg1.ts" ].

Definition encrypted_media_text : string :=
  text_of [ "#EXTM3U"; "#EXT-X-KEY:METHOD=AES-128,URI=k.bin"; "#EXTINF:4.0,"; "seg0.ts" ].

Definition unencrypted_key_media_text : string :=
  text_of [ "#EXTM3U"; "#EXT-X-KEY:METHOD=NONE"; "#EXTINF:4.0,"; "seg0.ts" ].

(** A media playlist whose one segment reference opens a host part with a
    bracket that it does not close. *)
Definition bracket_media_text : string :=
  text_of [ "#EXTM3U"; "#EXTINF:4.0,"; "//[x/seg.ts" ].

(** A key directive without a method field. *)
Definition no_method_key_media_text : string :=
  text_of [ "#EXTM3U"; "#EXT-X-KEY:URI=k.bin"; "#EXTINF:4.0,"; "seg0.ts" ].

Definition cdn : Externals :=
  externals_of (fun _ =>
    site [ ("http://cdn/master.m3u8", body_of master_text);
           ("http://cdn/low.m3u8", body_of encrypted_media_text);
           ("http://cdn/mid.m3u8", body_of media_text);
           ("http://cdn/high.m3u8", body_of media_text) ]).

(** Two variants that declare their average bandwidth before their peak
    bandwidth, and what they declare as [(bandwidth, height)]. *)
Definition average_master_text : string :=
  text_of [ "#EXTM3U";
            "#EXT-X-STREAM-INF:AVERAGE-BANDWIDTH=900,BANDWIDTH=1000"; "peak.m3u8";
            "#EXT-X-STREAM-INF:AVERAGE-BANDWIDTH=950,BANDWIDTH=960"; "steady.m3u8" ].

Definition average_variants : list ((Z * option Z) * string) :=
  [ ((1000, None), "http://cdn/peak.m3u8");
    ((960, None), "http://cdn/steady.m3u8") ].

Definition average_cdn : Externals :=
  externals_of (fun _ =>
    site [ ("http://cdn/master.m3u8", body_of average_master_text);
           ("http://cdn/peak.m3u8", body_of media_text);
           ("http://cdn/steady.m3u8", body_of media_text) ]).

(** A network whose variant playlists are master playlists again. *)
Definition nested_cdn : Externals :=
  externals_of (fun _ =>
    site [ ("http://cdn/master.m3u8", body_of master_text);
           ("http://cdn/low.m3u8", body_of master_text);
           ("http://cdn/mid.m3u8", body_of master_text);
           ("http://cdn/high.m3u8", body_of master_text) ]).



(** A segment that always answers 500. *)
Definition failing : Externals :=
  externals_of (fun _ _ => Fails (HTTPError 500)).

(** A segment that answers 500, 500, then 200. *)
Definition flaky_payload : bytes := list_byte_of_string "payload".

Definition flaky : Externals :=
  externals_of (fun k _ =>
    match k with
    | O | S O => Fails (HTTPError 500)
    | _ => Body flaky_payload
    end).

(** Ten segments: the first five always answer, the last five always
    give HTTP 404. *)
Definition ten_urls : list string :=
  map (fun i => "http://cdn/seg" +:+ Names.str_of_N (N.of_nat i) +:+ ".ts") (seq 0 10).

Definition segment_payload (i : nat) : bytes :=
  list_byte_of_string ("data" +:+ Names.str_of_N (N.of_nat i)).

Definition half_missing : Externals :=
  externals_of (fun _ =>
    site (map (fun i => ("http://cdn/seg" +:+ Names.str_of_N (N.of_nat i) +:+ ".ts",
                         Body (segment_payload i))) (seq 0 5))).

(** A schedule of the ten tasks with the segments written out of order:
    all start in turn, the failures are collected last to first, and the
    five downloads advance from the highest index down. *)
Definition schedule : list nat :=
  seq 0 10 ++ [9; 8; 7; 6; 5]%nat
  ++ concat (replicate 4 [4; 3; 2; 1; 0]%nat).

(** A master playlist without any URI line. *)
Definition bare_master_text : string :=
  text_of [ "#EXTM3U"; "#EXT-X-STREAM-INF:BANDWIDTH=500,RESOLUTION=854x480" ].

Definition bare_cdn : Externals :=
  externals_of (fun _ =>
    site [ ("http://cdn/master.m3u8", body_of bare_master_text) ]).

End Demo.

(** ** Request headers: [build_headers], [augment_browser_headers] *)
Module Headers.
Import PyStr Py.

(** [DEFAULT_UA] *)
Definition DEFAULT_UA : string :=
  "Mozilla/5.0 (Windows NT 10.0; Win64; x64) AppleWebKit/537.36 "
  +:+ "(KHTML, like Gecko) Chrome/141.0.0.0 Safari/537.36".

(** [d[k]], when the key is present. *)
Fixpoint dict_get (k : string) (d : headers) : option string :=
  match d with
  | [] => None
  | (k', v') :: rest => if String.eqb k' k then Some v' else dict_get k rest
  end.

(** [d[k] = v]: the value of a key that is present is replaced where it
    stands, a new key goes to the end. *)
Fixpoint dict_set (k v : string) (d : headers) : headers :=
  match d with
  | [] => [(k, v)]
  | (k', v') :: rest =>
      if String.eqb k' k then (k', v) :: rest
      else (k', v') :: dict_set k v rest
  end.

(** [d.setdefault(k, v)] *)
Definition setdefault (k v : string) (d : headers) : headers :=
  match dict_get k d with
  | Some _ => d
  | None => dict_set k v d
  end.

(** [header.split(":", 1)] when [":" in header]: the text before the first
    colon and the text after it; [before] is the text read so far,
    reversed. *)
Fixpoint split_colon (before : string) (header : string)
    : option (string * string) :=
  match header with
  | EmptyString => None
  | String c rest =>
      if Ascii.eqb c ":" then Some (rev before, rest)
      else split_colon (String c before) rest
  end.

(** [s or default] for a string. *)
Definition or_else (s default : string) : string :=
  if is_empty s then default else s.

(** [referer or ""] and the truth value of [referer], an [Optional[str]]. *)
Definition referer_or_empty (referer : option string) : string :=
  match referer with
  | Some r => r
  | None => EmptyString
  end.

Definition truthy (referer : option string) : bool :=
  match referer with
  | Some r => negb (is_empty r)
  | None => false
  end.

(** The body of the loop over [extra_headers]. *)
Definition add_extra (hs : headers) (header : string) : headers :=
  match split_colon EmptyString header with
  | None => hs
  | Some (key, value) => dict_set (strip key) (strip value) hs
  end.

(** [build_headers(user_agent, referer, extra_headers)] *)
Definition build_headers (user_agent : string) (referer : option string)
    (extra_headers : list string) : headers :=
  let hs :=
    [ ("User-Agent", or_else user_agent DEFAULT_UA);
      ("Accept", "*/*");
      ("Accept-Encoding", "identity");
      ("Connection", "keep-alive");
      ("DNT", "1");
      ("Origin", referer_or_empty referer) ] in
  let hs :=
    if truthy referer then dict_set "Referer" (referer_or_empty referer) hs
    else hs in
  fold_left add_extra extra_headers hs.

(** [augment_browser_headers(headers)] *)
Definition augment_browser_headers (hs : headers) : headers :=
  let out := hs in
  let out := setdefault "Sec-Fetch-Mode" "cors" out in
  let out := setdefault "Sec-Fetch-Site" "cross-site" out in
  let out := setdefault "Sec-Fetch-Dest" "empty" out in
  setdefault "Accept" "*/*" out.

(** The key and the value that an extra header sets, if it sets one. *)
Definition extra_entry (header : string) : option (string * string) :=
  match split_colon EmptyString header with
  | None => None
  | Some (key, value) => Some (strip key, strip value)
  end.

(** The value that the last of the entries gives to [k]. *)
Fixpoint last_value (k : string) (entries : list (string * string))
    : option string :=
  match entries with
  | [] => None
  | (k', v') :: rest =>
      match last_value k rest with
      | Some v => Some v
      | None => if String.eqb k' k then Some v' else None
      end
  end.

End Headers.

(** ** The playlist address in a page: [extract_first_m3u8_from_html] *)
Module Extract.
Import PyStr.

(** The character class of the pattern: any character but the single
    quote, the double quote, white space and [>]. *)
Definition is_url_char (c : ascii) : bool :=
  negb (Ascii.eqb c "'" || Ascii.eqb c (ascii_of_nat 34) || is_space c
        || Ascii.eqb c ">").

(** The longest prefix of [s] that ends with [suffix]: what a greedy
    repetition followed by the literal [suffix] matches, after
    backtracking. *)
Fixpoint longest_ending (suffix s : string) : option string :=
  match s with
  | EmptyString => None
  | String c t =>
      match longest_ending suffix t with
      | Some p => Some (String c p)
      | None => if startswith suffix s then Some suffix else None
      end
  end.

(** One or more characters of the class, then [.m3u8], at the start of
    [s]: the repetition can take the characters of the class that [s]
    starts with, and at least one. *)
Definition match_run (s : string) : option string :=
  match take_while is_url_char s with
  | EmptyString => None
  | String c t =>
      match longest_ending ".m3u8" t with
      | Some p => Some (String c p)
      | None => None
      end
  end.

(** The whole pattern at the start of [s]: [http], an optional [s],
    [://], then the run that ends with [.m3u8]. *)
Definition match_url_here (s : string) : option string :=
  match strip_prefix "http" s with
  | None => None
  | Some s1 =>
      let scheme_rest :=
        match strip_prefix "s" s1 with
        | Some s2 => ("https", s2)
        | None => ("http", s1)
        end in
      match strip_prefix "://" (snd scheme_rest) with
      | None => None
      | Some s3 =>
          match match_run s3 with
          | Some m => Some (fst scheme_rest +:+ "://" +:+ m)
          | None => None
          end
      end
  end.

(** [extract_first_m3u8_from_html(html)]: group 0 of the leftmost match. *)
Fixpoint extract_first_m3u8_from_html (html : string) : option string :=
  match match_url_here html with
  | Some m => Some m
  | None =>
      match html with
      | EmptyString => None
      | String _ t => extract_first_m3u8_from_html t
      end
  end.

End Extract.

(** ** More of the fetch, the playlist chain and the pool *)
Module More.
Import PyStr Py Playlist Fetch Names Pool.

(** The line endings LF and CR LF, and a line without line break. *)
Definition lf : string := String (ascii_of_nat 10) EmptyString.
Definition crlf : string :=
  String (ascii_of_nat 13) (String (ascii_of_nat 10) EmptyString).

Definition no_linebreak (line : string) : bool :=
  all_chars (fun c => negb (is_linebreak c)) line.

(** The sum of the delays slept. *)
Definition total_delay (delays : list Q) : Q := fold_right Qplus 0%Q delays.

(** [not ok_probe and code in (401, 403)] of [main]. *)
Definition probe_blocked (r : fetch_result) : bool :=
  match r with
  | (ok, _, code) =>
      negb ok
      && match code with
         | Some c => (c =? 401) || (c =? 403)
         | None => false
         end
  end.

(** [write_atomic(path, data)] on a directory, [path] being a file name of
    it: the data goes to the sibling [path + ".part"], which is then
    renamed to [path]. *)
Definition write_atomic (path : string) (data : bytes)
    (fs : gmap string bytes) : gmap string bytes :=
  let tmp := path +:+ ".part" in
  let fs := <[tmp := data]> fs in
  <[path := data]> (delete tmp fs).

Section WithExternals.
Context `{Externals}.

(** The variant loop read as one pass over the lines.  [pending] holds the
    attributes of a stream-info line whose URI line has not come yet. *)
Fixpoint variants_scan {A : Type} (info : string -> outcome A)
    (base_url : string) (pending : option A) (lines : list string)
    : outcome (list (A * string)) :=
  match lines with
  | [] => Ok []
  | line :: rest =>
      if startswith "#" line then
        match pending with
        | Some _ => variants_scan info base_url pending rest
        | None =>
            if startswith "#EXT-X-STREAM-INF" line then
              match info line with
              | Ok a => variants_scan info base_url (Some a) rest
              | Raise e => Raise e
              | Diverge => Diverge
              end
            else variants_scan info base_url None rest
        end
      else
        match pending with
        | Some a =>
            match urljoin base_url line with
            | Value uri =>
                match variants_scan info base_url None rest with
                | Ok variants => Ok ((a, uri) :: variants)
                | Raise e => Raise e
                | Diverge => Diverge
                end
            | Throws e => Raise e
            end
        | None => variants_scan info base_url None rest
        end
  end.

End WithExternals.

Section Callers.
Context `{Externals}.
Local Open Scope py_scope.

(** [is_encrypted] of [main]: the probe, with every exception of it taken
    for "not encrypted". *)
Definition is_encrypted (base : string) (hdrs : headers) (timeout : Z)
    : M bool :=
  try_except (detect_encryption_in_playlist_chain base hdrs timeout)
             (fun _ => ret false).

(** [headers.get(key, default)] *)
Definition dict_get_or (key default : string) (hdrs : headers) : string :=
  match Headers.dict_get key hdrs with
  | Some v => v
  | None => default
  end.

(** The embed extraction of the page resolver (regular expressions, HTML
    entities, base64) is left open here, as a function of the text. *)
Variable
  extract_bunny_embed_urls_from_animixplay_page : string -> list string.

(** The truth value of an [Optional[str]]. *)
Definition found (m3u8 : option string) : bool :=
  match m3u8 with
  | Some m => negb (is_empty m)
  | None => false
  end.

(** [resolve_m3u8_from_page(page_url, headers, timeout)] *)
Definition resolve_m3u8_from_page (page_url : string) (hdrs : headers)
    (timeout : Z) : M (option string) :=
  let* page_bytes := http_get page_url hdrs timeout in
  let page_html := decode page_bytes in
  let embeds := extract_bunny_embed_urls_from_animixplay_page page_html in
  match embeds with
  | [] => ret None
  | embed_url :: _ =>
      let embed_headers :=
        Headers.build_headers (dict_get_or "User-Agent" Headers.DEFAULT_UA hdrs)
                              (Some "https://play.bunnycdn.to/") [] in
      let* embed_bytes := http_get embed_url embed_headers timeout in
      let embed_html := decode embed_bytes in
      let m3u8 := Extract.extract_first_m3u8_from_html embed_html in
      if found m3u8 then ret m3u8
      else
        let m3u8 := Extract.extract_first_m3u8_from_html page_html in
        if found m3u8 then ret m3u8 else ret None
  end.

End Callers.

(** The indices of the segments that were delivered. *)
Definition delivered_indices (outcome_of : nat -> option bytes) (n : nat)
    : list nat :=
  List.filter (fun i => match outcome_of i with Some _ => true | None => false end)
              (seq 0 n).

(** The data of a delivered segment. *)
Definition data_of (outcome_of : nat -> option bytes) (i : nat) : bytes :=
  match outcome_of i with
  | Some data => data
  | None => []
  end.

(** The data that a task holds between its fetch and its return. *)
Definition carried (t : task) : option bytes :=
  match t with
  | Fetched data _ | PartWritten data _ | Replaced data _ => Some data
  | _ => None
  end.

(** [data] is the body that the network gave in answer to a request for
    segment [i] of the list, the [k]-th request logged in [w]. *)
Definition served `{Externals} (urls : list string) (hdrs : headers)
    (timeout : Z) (w : world) (i : nat) (data : bytes) : Prop :=
  exists url k, urls !! i = Some url
    /\ requests w !! k = Some (Request url hdrs timeout)
    /\ urlopen k (Request url hdrs timeout) = Body data.

(** The indices of the segments that were not delivered. *)
Definition missing_indices (outcome_of : nat -> option bytes) (n : nat)
    : list nat :=
  List.filter (fun i => match outcome_of i with Some _ => false | None => true end)
              (seq 0 n).

(** What the task of segment [i] has added to [progress["bytes"]]. *)
Definition counted_bytes (outcome_of : nat -> option bytes) (i : nat)
    (t : task) : Z :=
  match t with
  | Returned true _ | Collected true _ =>
      Z.of_nat (length (data_of outcome_of i))
  | _ => 0
  end.

Fixpoint bytes_from (outcome_of : nat -> option bytes) (i : nat)
    (ts : list task) : Z :=
  match ts with
  | [] => 0
  | t :: rest => counted_bytes outcome_of i t + bytes_from outcome_of (S i) rest
  end.

End More.

(* ===================================================================== *)
(** * Part II: properties                                                 *)
(* ===================================================================== *)
(** ** [max] with a key: the first maximum *)
Module MaxFacts.
Import PyStr Py Playlist SpecWords.

Section FirstMax.
Context {A K : Type} (gtb : K -> K -> bool) (key : A -> K) (lt : K -> K -> Prop).
Hypothesis gtb_lt : forall a b, gtb a b = true <-> lt b a.
Hypothesis lt_irrefl : forall a, ~ lt a a.
Hypothesis lt_trans : forall a b c, lt a b -> lt b c -> lt a c.
Hypothesis lt_incomparable_trans :
  forall a b c, ~ lt a b -> ~ lt b c -> ~ lt a c.

Let keep (best y : A) : A := if gtb (key y) (key best) then y else best.

Lemma first_max_singleton x : first_max lt key [x] 0 x.
Proof.
  repeat split.
  - intros [|j] w Hw; simpl in Hw; [|destruct j; discriminate].
    injection Hw as <-. apply lt_irrefl.
  - intros j w Hj. lia.
Qed.

Lemma first_max_snoc seen i best y :
  first_max lt key seen i best ->
  exists i', first_max lt key (seen ++ [y]) i' (keep best y).
Proof.
  intros (Hi & Hmax & Hfirst). unfold keep.
  destruct (gtb (key y) (key best)) eqn:Hgt.
  - apply gtb_lt in Hgt. exists (length seen). repeat split.
    + rewrite lookup_app_r by lia. now rewrite Nat.sub_diag.
    + intros j w Hw Hlt. apply lookup_snoc_Some in Hw as [[Hj Hw]|[Hj <-]].
      * apply (Hmax j w Hw). eauto.
      * now apply lt_irrefl in Hlt.
    + intros j w Hj Hw. rewrite lookup_app_l in Hw by exact Hj.
      destruct (gtb (key y) (key w)) eqn:Hyw; [now apply gtb_lt|].
      exfalso.
      apply (lt_incomparable_trans (key best) (key w) (key y) (Hmax j w Hw)).
      * intros Hlt. apply gtb_lt in Hlt. congruence.
      * exact Hgt.
  - exists i. repeat split.
    + rewrite lookup_app_l; [exact Hi|]. now apply lookup_lt_Some in Hi.
    + intros j w Hw. apply lookup_snoc_Some in Hw as [[Hj Hw]|[Hj <-]].
      * now apply Hmax with j.
      * intros Hlt. apply gtb_lt in Hlt. congruence.
    + intros j w Hj Hw. apply Hfirst with j; [exact Hj|].
      apply lookup_lt_Some in Hi.
      rewrite lookup_app_l in Hw by lia. exact Hw.
Qed.

Lemma fold_keep_first_max rest : forall seen i best,
  first_max lt key seen i best ->
  exists i', first_max lt key (seen ++ rest) i' (fold_left keep rest best).
Proof.
  induction rest as [|y rest IH]; intros seen i best Hbest; simpl.
  - rewrite app_nil_r. now exists i.
  - destruct (first_max_snoc seen i best y Hbest) as [i1 H1].
    destruct (IH _ _ _ H1) as [i2 H2].
    exists i2. now rewrite <- app_assoc in H2.
Qed.

Lemma py_max_first_max x rest :
  exists i v, py_max gtb key (x :: rest) = Ok v
              /\ first_max lt key (x :: rest) i v.
Proof.
  destruct (fold_keep_first_max rest [x] 0%nat x (first_max_singleton x))
    as [i Hi].
  exists i, (fold_left keep rest x). split; [reflexivity|exact Hi].
Qed.

Lemma first_max_unique xs i v i' v' :
  first_max lt key xs i v -> first_max lt key xs i' v' -> i = i' /\ v = v'.
Proof.
  intros (Hi & Hmax & Hfirst) (Hi' & Hmax' & Hfirst').
  assert (i = i') as ->.
  { destruct (Nat.lt_trichotomy i i') as [Hlt|[Heq|Hlt]]; [|exact Heq|].
    - exfalso. exact (Hmax _ _ Hi' (Hfirst' _ _ Hlt Hi)).
    - exfalso. exact (Hmax' _ _ Hi (Hfirst _ _ Hlt Hi')). }
  split; [reflexivity|congruence].
Qed.

End FirstMax.

Lemma key_lt_pair_gtb a b : pair_gtb a b = true <-> key_lt b a.
Proof. unfold pair_gtb, key_lt. destruct a, b; simpl. lia. Qed.

Lemma key_lt_irrefl a : ~ key_lt a a.
Proof. unfold key_lt. lia. Qed.

Lemma key_lt_trans a b c : key_lt a b -> key_lt b c -> key_lt a c.
Proof. unfold key_lt. lia. Qed.

Lemma key_lt_incomparable_trans a b c :
  ~ key_lt a b -> ~ key_lt b c -> ~ key_lt a c.
Proof. unfold key_lt. lia. Qed.

Lemma Z_gtb_lt a b : (a >? b) = true <-> b < a.
Proof. lia. Qed.

Lemma Z_lt_incomparable_trans (a b c : Z) : ~ a < b -> ~ b < c -> ~ a < c.
Proof. lia. Qed.

(** [choose_variant_best] returns the URI of the first maximum for
    [(bandwidth, height-or-zero)]. *)
Lemma choose_variant_best_spec v0 rest :
  exists i v, first_max key_lt selection_key (v0 :: rest) i v
              /\ choose_variant_best (v0 :: rest) = Ok (snd v).
Proof.
  destruct (py_max_first_max pair_gtb selection_key key_lt key_lt_pair_gtb
              key_lt_irrefl key_lt_trans key_lt_incomparable_trans v0 rest)
    as (i & v & Hmax & Hfirst).
  exists i, v. split; [exact Hfirst|].
  unfold choose_variant_best. now rewrite Hmax.
Qed.

(** [best_by_bandwidth] returns the URI of the first maximum for the
    bandwidth alone. *)
Lemma best_by_bandwidth_spec v0 rest :
  exists i v, first_max Z.lt fst (v0 :: rest) i v
              /\ best_by_bandwidth (v0 :: rest) = Ok (snd v).
Proof.
  destruct (py_max_first_max Z.gtb (@fst Z string) Z.lt Z_gtb_lt Z.lt_irrefl
              Z.lt_trans Z_lt_incomparable_trans v0 rest)
    as (i & v & Hmax & Hfirst).
  exists i, v. split; [exact Hfirst|].
  unfold best_by_bandwidth. now rewrite Hmax.
Qed.

(** Where no later variant of the same bandwidth is taller, the first
    maximum for the bandwidth is the first maximum for the pair. *)
Lemma first_max_bandwidth_is_best vs i v :
  first_max Z.lt fst (map bandwidth_and_uri vs) i (bandwidth_and_uri v) ->
  vs !! i = Some v ->
  (forall j w, (i < j)%nat -> vs !! j = Some w ->
               fst (fst w) = fst (fst v) ->
               height_or_zero (snd (fst w)) <= height_or_zero (snd (fst v))) ->
  first_max key_lt selection_key vs i v.
Proof.
  intros (_ & Hmax & Hfirst) Hi Hlater. repeat split; [exact Hi| |].
  - intros j w Hw.
    assert (Hbw : ~ fst (fst v) < fst (fst w)).
    { apply (Hmax j (bandwidth_and_uri w)).
      now rewrite list_lookup_fmap, Hw. }
    unfold key_lt, selection_key; simpl. intros [Hlt|[Heq Hlt]]; [lia|].
    destruct (Nat.lt_trichotomy j i) as [Hji|[->|Hij]].
    + assert (fst (fst w) < fst (fst v)); [|lia].
      apply (Hfirst j (bandwidth_and_uri w) Hji).
      now rewrite list_lookup_fmap, Hw.
    + assert (w = v) by congruence. subst w. lia.
    + specialize (Hlater j w Hij Hw (eq_sym Heq)). lia.
  - intros j w Hji Hw. left.
    apply (Hfirst j (bandwidth_and_uri w) Hji).
    now rewrite list_lookup_fmap, Hw.
Qed.

End MaxFacts.

(** ** Strings: prefixes and containment *)
Module StrFacts.
Import PyStr.

Lemma append_nil_l s : EmptyString +:+ s = s.
Proof. reflexivity. Qed.

Lemma append_cons c s t : String c s +:+ t = String c (s +:+ t).
Proof. reflexivity. Qed.

Lemma append_nil_r s : s +:+ EmptyString = s.
Proof.
  induction s as [|c s IH]; [reflexivity|].
  now rewrite append_cons, IH.
Qed.

Lemma append_assoc (a b c : string) : (a +:+ b) +:+ c = a +:+ (b +:+ c).
Proof.
  induction a as [|x a IH]; [reflexivity|].
  now rewrite !append_cons, IH.
Qed.

Lemma strip_prefix_app p s r : strip_prefix p s = Some r -> s = p +:+ r.
Proof.
  revert s. induction p as [|a p IH]; intros s Hs; simpl in Hs.
  - now injection Hs as ->.
  - destruct s as [|b s]; [discriminate|].
    destruct (Ascii.eqb a b) eqn:Hab; [|discriminate].
    apply Ascii.eqb_eq in Hab as ->. now rewrite (IH _ Hs), append_cons.
Qed.

Lemma startswith_app p r : startswith p (p +:+ r) = true.
Proof.
  induction p as [|a p IH].
  - now destruct r.
  - rewrite append_cons. unfold startswith in *. simpl.
    destruct (ascii_dec a a); [exact IH|contradiction].
Qed.

Lemma contains_here needle hay : startswith needle hay = true -> contains needle hay = true.
Proof. intros Hs. destruct hay; cbn [contains]; now rewrite Hs. Qed.

Lemma contains_later needle c hay :
  contains needle hay = true -> contains needle (String c hay) = true.
Proof. intros Hc. cbn [contains]. rewrite Hc. apply orb_true_r. Qed.

Lemma take_while_all p s : all_chars p (take_while p s) = true.
Proof.
  induction s as [|c s IH]; simpl; [reflexivity|].
  destruct (p c) eqn:Hc; simpl; [now rewrite Hc|reflexivity].
Qed.

Lemma take_while_head p s :
  is_empty (take_while p s) = false ->
  exists c rest, take_while p s = String c rest /\ p c = true.
Proof.
  destruct s as [|c s]; simpl; [discriminate|].
  destruct (p c) eqn:Hc; simpl; [|discriminate].
  intros _. now exists c, (take_while p s).
Qed.

Lemma take_while_prefix p s : exists rest, s = take_while p s +:+ rest.
Proof.
  induction s as [|c s [rest IH]]; simpl.
  - now exists EmptyString.
  - destruct (p c).
    + exists rest. now rewrite append_cons, <- IH.
    + now exists (String c s).
Qed.

End StrFacts.

(** ** The variant loop *)
Module LoopFacts.
Import PyStr Py Playlist SpecWords StrFacts.

Lemma skip_directives_length l : (length (skip_directives l) <= length l)%nat.
Proof.
  induction l as [|x l IH]; simpl; [lia|].
  destruct (startswith "#" x); simpl; lia.
Qed.

Lemma skip_directives_In l x : In x (skip_directives l) -> In x l.
Proof.
  induction l as [|y l IH]; simpl; [tauto|].
  destruct (startswith "#" y); simpl; tauto.
Qed.

Lemma skip_directives_head l u rest :
  skip_directives l = u :: rest -> startswith "#" u = false.
Proof.
  induction l as [|y l IH]; simpl; [discriminate|].
  destruct (startswith "#" y) eqn:Hy; [exact IH|].
  now intros [= <- _].
Qed.

Section Loop.
Context `{Externals} {A : Type} (info : string -> outcome A) (base_url : string).
Hypothesis info_returns : forall line, info line <> Diverge.

(** With more fuel than lines the loop ends at the end of the list: it
    returns the variants so far followed by new ones, each with the
    attributes of a stream-info line and the URI of a later line that is
    no directive, or it raises what [info] raised on a stream-info line or
    what [urljoin] raised on a line that is no directive. *)
Lemma variants_loop_outcome fuel : forall from_i variants,
  (length from_i < fuel)%nat ->
  match variants_loop info base_url fuel from_i variants with
  | Ok vs =>
      exists new, vs = variants ++ new
        /\ Forall (fun v => exists line uri_line,
                     In line from_i /\ In uri_line from_i
                     /\ startswith "#EXT-X-STREAM-INF" line = true
                     /\ startswith "#" uri_line = false
                     /\ info line = Ok (fst v)
                     /\ urljoin base_url uri_line = Value (snd v)) new
  | Raise e =>
      (exists line, In line from_i
         /\ startswith "#EXT-X-STREAM-INF" line = true /\ info line = Raise e)
      \/ (exists uri_line, In uri_line from_i
            /\ startswith "#" uri_line = false
            /\ urljoin base_url uri_line = Throws e)
  | Diverge => False
  end.
Proof.
  induction fuel as [|fuel IH]; intros from_i variants Hfuel; [lia|].
  destruct from_i as [|line from_i1]; cbn [variants_loop].
  - exists []. split; [now rewrite app_nil_r|constructor].
  - simpl in Hfuel.
    destruct (startswith "#EXT-X-STREAM-INF" line) eqn:Hinf.
    + destruct (info line) as [a|e|] eqn:Hinfo.
      * pose proof (skip_directives_length from_i1) as Hlen.
        assert (Hsub : forall x, In x (skip_directives from_i1)
                                 -> In x (line :: from_i1)).
        { intros x Hx. right. now apply skip_directives_In. }
        destruct (skip_directives from_i1) as [|uri_line rest] eqn:Hj.
        -- specialize (IH [] variants ltac:(simpl; lia)).
           destruct (variants_loop info base_url fuel [] variants) as [vs|e|].
           ++ destruct IH as (new & -> & Hall). exists new.
              split; [reflexivity|].
              eapply Forall_impl; [exact Hall|].
              intros v (l & u & [] & _).
           ++ destruct IH as [(l & [] & _)|(u & [] & _)].
           ++ exact IH.
        -- pose proof (skip_directives_head _ _ _ Hj) as Hhash.
           destruct (urljoin base_url uri_line) as [uri|e] eqn:Hjoin.
           ++ specialize (IH (uri_line :: rest) (variants ++ [(a, uri)])
                             ltac:(simpl in *; lia)).
              destruct (variants_loop info base_url fuel (uri_line :: rest)
                          (variants ++ [(a, uri)])) as [vs|e|].
              ** destruct IH as (new & -> & Hall).
                 exists ((a, uri) :: new).
                 split; [now rewrite <- app_assoc|].
                 constructor.
                 { exists line, uri_line. simpl.
                   repeat split; try assumption.
                   - now left.
                   - apply Hsub. now left. }
                 eapply Forall_impl; [exact Hall|].
                 intros v (l & u & Hl & Hu & Hrest). exists l, u.
                 repeat split; try apply Hsub; tauto.
              ** destruct IH as [(l & Hl & Hrest)|(u & Hu & Hrest)].
                 { left. exists l. split; [now apply Hsub|exact Hrest]. }
                 { right. exists u. split; [now apply Hsub|exact Hrest]. }
              ** exact IH.
           ++ right. exists uri_line. split; [apply Hsub; now left|].
              split; assumption.
      * left. exists line. split; [now left|]. split; assumption.
      * now apply info_returns in Hinfo.
    + specialize (IH from_i1 variants ltac:(lia)).
      destruct (variants_loop info base_url fuel from_i1 variants) as [vs|e|].
      * destruct IH as (new & -> & Hall). exists new. split; [reflexivity|].
        eapply Forall_impl; [exact Hall|].
        intros v (l & u & Hl & Hu & Hrest). exists l, u.
        repeat split; try (now right); tauto.
      * destruct IH as [(l & Hl & Hrest)|(u & Hu & Hrest)].
        -- left. exists l. split; [now right|exact Hrest].
        -- right. exists u. split; [now right|exact Hrest].
      * exact IH.
Qed.

End Loop.
End LoopFacts.
(** ** The bandwidth patterns *)
Module PatternFacts.
Import PyStr Py Playlist SpecWords StrFacts.

(** A match of [lit(pre cls+)]: the group is [pre] followed by a non-empty
    run of [cls], and the text contains [lit], [pre] and the first
    character of the run in a row. *)
Lemma match_here_Some lit pre cls s g :
  match_here lit pre cls s = Some g ->
  exists c grp, g = pre +:+ String c grp
    /\ cls c = true /\ all_chars cls grp = true
    /\ startswith (lit +:+ pre +:+ String c EmptyString) s = true.
Proof.
  unfold match_here.
  destruct (strip_prefix lit s) as [s1|] eqn:H1; [|discriminate].
  destruct (strip_prefix pre s1) as [s2|] eqn:H2; [|discriminate].
  destruct (is_empty (take_while cls s2)) eqn:He; [discriminate|].
  intros [= <-].
  destruct (take_while_head _ _ He) as (c & grp & Hrun & Hc).
  pose proof (take_while_all cls s2) as Hall. rewrite Hrun in Hall.
  simpl in Hall. rewrite Hc in Hall. simpl in Hall.
  destruct (take_while_prefix cls s2) as [rest Hrest]. rewrite Hrun in Hrest.
  exists c, grp. rewrite Hrun. repeat split; try assumption.
  apply strip_prefix_app in H1. apply strip_prefix_app in H2.
  subst s s1 s2. rewrite append_cons.
  replace (lit +:+ pre +:+ String c (grp +:+ rest))
    with ((lit +:+ pre +:+ String c EmptyString) +:+ (grp +:+ rest)).
  - apply startswith_app.
  - now rewrite !append_assoc, append_cons, append_nil_l.
Qed.

Lemma re_search_group_Some lit pre cls s g :
  re_search_group lit pre cls s = Some g ->
  exists c grp, g = pre +:+ String c grp
    /\ cls c = true /\ all_chars cls grp = true
    /\ contains (lit +:+ pre +:+ String c EmptyString) s = true.
Proof.
  induction s as [|a s IH]; cbn [re_search_group].
  - destruct (match_here lit pre cls EmptyString) eqn:Hm; [|discriminate].
    intros [= ->].
    destruct (match_here_Some _ _ _ _ _ Hm) as (c & grp & Hg & Hc & Hall & Hst).
    exists c, grp. repeat split; try assumption. now apply contains_here.
  - destruct (match_here lit pre cls (String a s)) eqn:Hm.
    + intros [= ->].
      destruct (match_here_Some _ _ _ _ _ Hm) as (c & grp & Hg & Hc & Hall & Hst).
      exists c, grp. repeat split; try assumption. now apply contains_here.
    + intros Hs. destruct (IH Hs) as (c & grp & Hg & Hc & Hall & Hcont).
      exists c, grp. repeat split; try assumption. now apply contains_later.
Qed.

(** *** Where the pattern matches *)

Lemma strip_prefix_here p r : strip_prefix p (p +:+ r) = Some r.
Proof.
  induction p as [|a p IH]; [reflexivity|].
  rewrite append_cons. cbn [strip_prefix]. now rewrite Ascii.eqb_refl.
Qed.

Lemma take_while_drop p s : s = take_while p s +:+ drop_while p s.
Proof.
  induction s as [|c s IH]; [reflexivity|]. cbn [take_while drop_while].
  destruct (p c); [|reflexivity]. now rewrite append_cons, <- IH.
Qed.

Lemma take_while_of_drop p s : take_while p (drop_while p s) = EmptyString.
Proof.
  induction s as [|c s IH]; [reflexivity|]. cbn [drop_while].
  destruct (p c) eqn:Hc; [exact IH|]. cbn [take_while]. now rewrite Hc.
Qed.

Lemma is_empty_eq s : is_empty s = true -> s = EmptyString.
Proof. now destruct s. Qed.

Lemma take_while_run p grp rest :
  all_chars p grp = true -> is_empty (take_while p rest) = true ->
  take_while p (grp +:+ rest) = grp.
Proof.
  intros Hall Hrest. induction grp as [|c grp IH].
  - rewrite append_nil_l. now apply is_empty_eq.
  - cbn [all_chars] in Hall. apply andb_prop in Hall as [Hc Hall].
    rewrite append_cons. cbn [take_while]. now rewrite Hc, IH.
Qed.

(** The pattern without prefix matches at the start of [s] exactly when
    [s] starts with [lit] and a whole non-empty run of [cls]. *)
Lemma match_here_run lit cls s g :
  match_here lit EmptyString cls s = Some g
  <-> exists rest, s = lit +:+ g +:+ rest
        /\ is_empty g = false /\ all_chars cls g = true
        /\ is_empty (take_while cls rest) = true.
Proof.
  unfold match_here. split.
  - destruct (strip_prefix lit s) as [s1|] eqn:H1; [|discriminate].
    cbn [strip_prefix].
    destruct (is_empty (take_while cls s1)) eqn:He; [discriminate|].
    rewrite append_nil_l. intros [= <-].
    exists (drop_while cls s1). apply strip_prefix_app in H1.
    rewrite <- take_while_drop. repeat split; try assumption.
    + apply take_while_all.
    + now rewrite take_while_of_drop.
  - intros (rest & -> & Hne & Hall & Hrest).
    rewrite strip_prefix_here. cbn [strip_prefix].
    rewrite (take_while_run _ _ _ Hall Hrest), Hne.
    now rewrite append_nil_l.
Qed.

(** A search that finds nothing has no match at any place. *)
Lemma re_search_group_None lit pre cls s :
  re_search_group lit pre cls s = None ->
  forall before after, s = before +:+ after -> match_here lit pre cls after = None.
Proof.
  induction s as [|a s IH]; cbn [re_search_group]; intros Hs before after Hsplit.
  - destruct before; [|discriminate]. rewrite append_nil_l in Hsplit.
    subst after. now destruct (match_here lit pre cls EmptyString).
  - destruct (match_here lit pre cls (String a s)) eqn:Hm; [discriminate|].
    destruct before as [|b before].
    + rewrite append_nil_l in Hsplit. now subst after.
    + rewrite append_cons in Hsplit. injection Hsplit as _ Hsplit.
      now apply (IH Hs before after).
Qed.

(** A search that finds a group finds it at the leftmost place with a
    match. *)
Lemma re_search_group_leftmost lit pre cls s g :
  re_search_group lit pre cls s = Some g ->
  exists before after, s = before +:+ after
    /\ match_here lit pre cls after = Some g
    /\ forall before' after', s = before' +:+ after' ->
         match_here lit pre cls after' <> None ->
         (String.length before <= String.length before')%nat.
Proof.
  induction s as [|a s IH]; cbn [re_search_group].
  - destruct (match_here lit pre cls EmptyString) eqn:Hm; [|discriminate].
    intros [= ->]. exists EmptyString, EmptyString.
    repeat split; [exact Hm|]. intros; simpl; lia.
  - destruct (match_here lit pre cls (String a s)) eqn:Hm.
    + intros [= ->]. exists EmptyString, (String a s).
      repeat split; [exact Hm|]. intros; simpl; lia.
    + intros Hs. destruct (IH Hs) as (before & after & -> & Hafter & Hleft).
      exists (String a before), after. rewrite append_cons.
      repeat split; [exact Hafter|].
      intros before' after' Hsplit Hmatch.
      destruct before' as [|b before'].
      * rewrite append_nil_l in Hsplit. subst after'. congruence.
      * rewrite append_cons in Hsplit. injection Hsplit as _ Hsplit.
        simpl. apply le_n_S. exact (Hleft before' after' Hsplit Hmatch).
Qed.

Lemma bandwidth_at_match line before digits :
  bandwidth_at line before digits
  <-> exists after, line = before +:+ after
        /\ match_here "BANDWIDTH=" EmptyString is_digit after = Some digits.
Proof.
  unfold bandwidth_at. split.
  - intros (rest & -> & Hne & Hall & Hrest).
    exists ("BANDWIDTH=" +:+ digits +:+ rest). split; [reflexivity|].
    apply match_here_run. now exists rest.
  - intros (after & -> & Hm). apply match_here_run in Hm.
    destruct Hm as (rest & -> & Hrest). now exists rest.
Qed.

(** What the pattern of the resolver finds in a line, in words. *)
Lemma search_bandwidth_digits_reads line :
  reads_digits line (search_bandwidth_digits line).
Proof.
  unfold search_bandwidth_digits.
  destruct (re_search_group "BANDWIDTH=" "" is_digit line) as [g|] eqn:Hs;
    cbn [reads_digits].
  - destruct (re_search_group_leftmost _ _ _ _ _ Hs)
      as (before & after & Hline & Hm & Hleft).
    exists before. split.
    + apply bandwidth_at_match. now exists after.
    + intros before' ds' Hat. apply bandwidth_at_match in Hat.
      destruct Hat as (after' & Hline' & Hm').
      apply (Hleft before' after' Hline'). congruence.
  - intros before ds Hat. apply bandwidth_at_match in Hat.
    destruct Hat as (after & Hline & Hm).
    rewrite (re_search_group_None _ _ _ _ Hs before after Hline) in Hm.
    discriminate.
Qed.

Lemma py_int_digits s :
  is_empty s = false -> all_chars is_digit s = true ->
  py_int s = bandwidth_value (Some s).
Proof. intros Hne Hall. unfold py_int. now rewrite Hne, Hall. Qed.

Lemma py_int_backslash s :
  py_int (backslash +:+ s)
  = Raise (ValueError "invalid literal for int() with base 10").
Proof. reflexivity. Qed.

(** [bandwidth] of [resolve_segments_from_m3u8] is the number of the
    digits read. *)
Lemma bandwidth_resolve_value line :
  bandwidth_resolve line = bandwidth_value (search_bandwidth_digits line).
Proof.
  unfold bandwidth_resolve.
  pose proof (search_bandwidth_digits_reads line) as Hreads.
  destruct (search_bandwidth_digits line) as [g|]; [|reflexivity].
  destruct Hreads as (before & (rest & _ & Hne & Hall & _) & _).
  now apply py_int_digits.
Qed.

Lemma bandwidth_resolve_no_diverge line : bandwidth_resolve line <> Diverge.
Proof.
  rewrite bandwidth_resolve_value.
  destruct (search_bandwidth_digits line) as [g|]; cbn [bandwidth_value];
    [|discriminate].
  destruct (4300 <? String.length g)%nat; discriminate.
Qed.

Lemma append_length s t :
  String.length (s +:+ t) = (String.length s + String.length t)%nat.
Proof.
  induction s as [|c s IH]; [reflexivity|].
  rewrite append_cons. simpl. now rewrite IH.
Qed.

(** A line of at most 4300 characters holds no number that [int] refuses. *)
Lemma bandwidth_resolve_short line :
  (String.length line <= 4300)%nat -> exists bw, bandwidth_resolve line = Ok bw.
Proof.
  intros Hlen. rewrite bandwidth_resolve_value.
  pose proof (search_bandwidth_digits_reads line) as Hreads.
  destruct (search_bandwidth_digits line) as [g|]; cbn [bandwidth_value];
    [|eauto].
  destruct Hreads as (before & (rest & Hline & _) & _).
  assert (Hg : (String.length g <= String.length line)%nat).
  { rewrite Hline, !append_length. lia. }
  destruct (4300 <? String.length g)%nat eqn:E; [|eauto].
  apply Nat.ltb_lt in E. lia.
Qed.

Lemma is_d_eq c : is_d c = true -> c = "d"%char.
Proof. unfold is_d. apply Ascii.eqb_eq. Qed.

(** [bandwidth] of [detect_encryption_in_playlist_chain] never reads a
    number: it is 0, or the line contains the literal [BANDWIDTH=\d] and
    [int] raises. *)
Lemma bandwidth_detect_outcome line :
  bandwidth_detect line = Ok 0
  \/ (contains bandwidth_backslash_d line = true
      /\ bandwidth_detect line
         = Raise (ValueError "invalid literal for int() with base 10")).
Proof.
  unfold bandwidth_detect, search_bandwidth_backslash_d.
  destruct (re_search_group "BANDWIDTH=" backslash is_d line) as [g|] eqn:Hs.
  - destruct (re_search_group_Some _ _ _ _ _ Hs) as (c & grp & -> & Hc & _ & Hcont).
    apply is_d_eq in Hc. subst c. right. split; [exact Hcont|].
    apply py_int_backslash.
  - now left.
Qed.

Lemma bandwidth_detect_returns line : bandwidth_detect line <> Diverge.
Proof. destruct (bandwidth_detect_outcome line) as [->|[_ ->]]; discriminate. Qed.

Lemma match_resolution_here_backslash s g :
  match_resolution_here s = Some g -> exists grp, g = backslash +:+ grp.
Proof.
  unfold match_resolution_here.
  destruct (strip_prefix _ s) as [s1|]; [|discriminate].
  destruct (is_empty (take_while is_d s1)); [discriminate|].
  destruct (strip_prefix _ (drop_while is_d s1)) as [s2|]; [|discriminate].
  destruct (is_empty (take_while is_d s2)); [discriminate|].
  intros [= <-]. eauto.
Qed.

Lemma search_resolution_backslash s g :
  search_resolution_backslash_d s = Some g -> exists grp, g = backslash +:+ grp.
Proof.
  induction s as [|a s IH]; cbn [search_resolution_backslash_d].
  - destruct (match_resolution_here EmptyString) eqn:Hm; [|discriminate].
    intros [= ->]. eapply match_resolution_here_backslash, Hm.
  - destruct (match_resolution_here (String a s)) eqn:Hm; [|exact IH].
    intros [= ->]. eapply match_resolution_here_backslash, Hm.
Qed.

(** [parse_master_variants_only] never reads a number either: a line gives
    bandwidth 0 and no height, or [int] raises. *)
Lemma bandwidth_height_outcome line :
  bandwidth_height line = Ok (0, None)
  \/ bandwidth_height line
     = Raise (ValueError "invalid literal for int() with base 10").
Proof.
  unfold bandwidth_height.
  pose proof (bandwidth_detect_outcome line) as Hbw.
  unfold bandwidth_detect in Hbw.
  destruct Hbw as [->|[_ ->]]; [|now right].
  destruct (search_resolution_backslash_d line) as [g|] eqn:Hr; [|now left].
  destruct (search_resolution_backslash _ _ Hr) as [grp ->].
  rewrite py_int_backslash. now right.
Qed.

Lemma bandwidth_height_returns line : bandwidth_height line <> Diverge.
Proof. destruct (bandwidth_height_outcome line) as [-> | ->]; discriminate. Qed.

End PatternFacts.

(** ** The playlist chain *)
Module ChainFacts.
Import PyStr Py Playlist SpecWords StrFacts LoopFacts PatternFacts MaxFacts.

Section Chain.
Context `{Externals}.

(** The variant loop on a whole playlist: the variants come from
    stream-info lines and lines that are no directives; an exception is
    that of [info] on a stream-info line or of [urljoin] on a line that is
    no directive. *)
Lemma collect_variants_outcome {A : Type} (info : string -> outcome A) url lines :
  (forall line, info line <> Diverge) ->
  match collect_variants info url lines with
  | Ok vs =>
      Forall (fun v => exists line uri_line,
                In line lines /\ In uri_line lines
                /\ startswith "#EXT-X-STREAM-INF" line = true
                /\ startswith "#" uri_line = false
                /\ info line = Ok (fst v)
                /\ urljoin url uri_line = Value (snd v)) vs
  | Raise e =>
      (exists line, In line lines
         /\ startswith "#EXT-X-STREAM-INF" line = true /\ info line = Raise e)
      \/ (exists uri_line, In uri_line lines
            /\ startswith "#" uri_line = false
            /\ urljoin url uri_line = Throws e)
  | Diverge => False
  end.
Proof.
  intros Hinfo. unfold collect_variants.
  pose proof (variants_loop_outcome info url Hinfo (S (length lines)) lines []
                ltac:(lia)) as Hout.
  destruct (variants_loop info url (S (length lines)) lines []) as [vs|e|];
    [|exact Hout|exact Hout].
  destruct Hout as (new & -> & Hall). exact Hall.
Qed.

Lemma http_get_answer url hdrs timeout w :
  http_get url hdrs timeout w
  = (match urlopen (length (requests w)) (Request url hdrs timeout) with
     | Body data => Ok data
     | Fails e => Raise e
     end, after_top url hdrs timeout w).
Proof.
  unfold http_get, after_top.
  now destruct (urlopen (length (requests w)) (Request url hdrs timeout)).
Qed.

Lemma after_top_twice url uri hdrs timeout w :
  after_top uri hdrs timeout (after_top url hdrs timeout w)
  = after_variant url uri hdrs timeout w.
Proof. unfold after_top, after_variant. simpl. now rewrite <- app_assoc. Qed.

Lemma after_top_length url hdrs timeout w :
  length (requests (after_top url hdrs timeout w)) = S (length (requests w)).
Proof. unfold after_top. simpl. rewrite length_app. simpl. lia. Qed.

(** [resolve_segments_from_m3u8] on a master playlist, step by step. *)
Lemma resolve_master url hdrs timeout w top variants :
  urlopen (length (requests w)) (Request url hdrs timeout) = Body top ->
  has_stream_inf (stripped_lines (decode top)) = true ->
  collect_variants bandwidth_resolve url (stripped_lines (decode top))
  = Ok variants ->
  resolve_segments_from_m3u8 url hdrs timeout w
  = match variants with
    | [] => (Raise (ValueError "No HLS variants found in master playlist"),
             after_top url hdrs timeout w)
    | _ :: _ =>
        match best_by_bandwidth variants with
        | Ok best_uri =>
            (match urlopen (S (length (requests w)))
                           (Request best_uri hdrs timeout) with
             | Body media => parse_m3u8 (decode media) best_uri
             | Fails e => Raise e
             end, after_variant url best_uri hdrs timeout w)
        | Raise e => (Raise e, after_top url hdrs timeout w)
        | Diverge => (Diverge, after_top url hdrs timeout w)
        end
    end.
Proof.
  intros Htop Hmaster Hvs.
  unfold resolve_segments_from_m3u8, bind. rewrite http_get_answer, Htop.
  rewrite Hmaster. unfold lift at 1. rewrite Hvs.
  destruct variants as [|v0 rest]; [reflexivity|].
  unfold lift at 1.
  destruct (best_by_bandwidth (v0 :: rest)) as [best|e|]; try reflexivity.
  rewrite http_get_answer, after_top_length, after_top_twice.
  destruct (urlopen (S (length (requests w))) (Request best hdrs timeout));
    reflexivity.
Qed.

(** The same for [detect_encryption_in_playlist_chain]. *)
Lemma detect_master url hdrs timeout w top variants :
  urlopen (length (requests w)) (Request url hdrs timeout) = Body top ->
  has_stream_inf (stripped_lines (decode top)) = true ->
  collect_variants bandwidth_detect url (stripped_lines (decode top))
  = Ok variants ->
  detect_encryption_in_playlist_chain url hdrs timeout w
  = match variants with
    | [] => (Ok false, after_top url hdrs timeout w)
    | _ :: _ =>
        match best_by_bandwidth variants with
        | Ok best_uri =>
            (match urlopen (S (length (requests w)))
                           (Request best_uri hdrs timeout) with
             | Body media => Ok (playlist_has_encryption (decode media))
             | Fails e => Raise e
             end, after_variant url best_uri hdrs timeout w)
        | Raise e => (Raise e, after_top url hdrs timeout w)
        | Diverge => (Diverge, after_top url hdrs timeout w)
        end
    end.
Proof.
  intros Htop Hmaster Hvs.
  unfold detect_encryption_in_playlist_chain, bind. rewrite http_get_answer, Htop.
  rewrite Hmaster. unfold lift at 1. rewrite Hvs.
  destruct variants as [|v0 rest]; [reflexivity|].
  unfold lift at 1.
  destruct (best_by_bandwidth (v0 :: rest)) as [best|e|]; try reflexivity.
  rewrite http_get_answer, after_top_length, after_top_twice.
  destruct (urlopen (S (length (requests w))) (Request best hdrs timeout));
    reflexivity.
Qed.

(** When the variant loop raises, so does the caller, after its one
    request. *)
Lemma resolve_master_raises url hdrs timeout w top e :
  urlopen (length (requests w)) (Request url hdrs timeout) = Body top ->
  has_stream_inf (stripped_lines (decode top)) = true ->
  collect_variants bandwidth_resolve url (stripped_lines (decode top))
  = Raise e ->
  resolve_segments_from_m3u8 url hdrs timeout w
  = (Raise e, after_top url hdrs timeout w).
Proof.
  intros Htop Hmaster Hvs.
  unfold resolve_segments_from_m3u8, bind. rewrite http_get_answer, Htop.
  rewrite Hmaster. unfold lift at 1. now rewrite Hvs.
Qed.

Lemma detect_master_raises url hdrs timeout w top e :
  urlopen (length (requests w)) (Request url hdrs timeout) = Body top ->
  has_stream_inf (stripped_lines (decode top)) = true ->
  collect_variants bandwidth_detect url (stripped_lines (decode top))
  = Raise e ->
  detect_encryption_in_playlist_chain url hdrs timeout w
  = (Raise e, after_top url hdrs timeout w).
Proof.
  intros Htop Hmaster Hvs.
  unfold detect_encryption_in_playlist_chain, bind.
  rewrite http_get_answer, Htop.
  rewrite Hmaster. unfold lift at 1. now rewrite Hvs.
Qed.

End Chain.
End ChainFacts.

(** ** The variant loop as one pass *)
Module ScanFacts.
Import PyStr Py Playlist SpecWords More StrFacts LoopFacts.

Lemma stream_inf_is_directive line :
  startswith "#EXT-X-STREAM-INF" line = true -> startswith "#" line = true.
Proof.
  unfold startswith. destruct line as [|c line]; cbn [String.prefix];
    [discriminate|].
  destruct (ascii_dec "#" c); [|discriminate]. intros _. now destruct line.
Qed.

Section Scan.
Context `{Externals} {A : Type} (info : string -> outcome A) (base_url : string).

(** After a stream-info line the pass skips the directives that follow and
    takes the next line for the URI. *)
Lemma variants_scan_pending a lines :
  variants_scan info base_url (Some a) lines
  = match skip_directives lines with
    | [] => Ok []
    | uri_line :: rest =>
        match urljoin base_url uri_line with
        | Value uri =>
            match variants_scan info base_url None rest with
            | Ok variants => Ok ((a, uri) :: variants)
            | Raise e => Raise e
            | Diverge => Diverge
            end
        | Throws e => Raise e
        end
    end.
Proof.
  induction lines as [|line lines IH]; simpl; [reflexivity|].
  destruct (startswith "#" line); [exact IH|reflexivity].
Qed.

Lemma variants_loop_scan fuel : forall from_i variants,
  (length from_i < fuel)%nat ->
  variants_loop info base_url fuel from_i variants
  = match variants_scan info base_url None from_i with
    | Ok new => Ok (variants ++ new)
    | Raise e => Raise e
    | Diverge => Diverge
    end.
Proof.
  induction fuel as [|fuel IH]; intros from_i variants Hfuel; [lia|].
  destruct from_i as [|line from_i1]; cbn [variants_loop variants_scan].
  - now rewrite app_nil_r.
  - simpl in Hfuel.
    destruct (startswith "#EXT-X-STREAM-INF" line) eqn:Hinf.
    + rewrite (stream_inf_is_directive _ Hinf).
      destruct (info line) as [a|e|]; [|reflexivity|reflexivity].
      rewrite variants_scan_pending.
      pose proof (skip_directives_length from_i1) as Hlen.
      destruct (skip_directives from_i1) as [|uri_line rest] eqn:Hj.
      * rewrite IH by (simpl; lia). reflexivity.
      * destruct (urljoin base_url uri_line) as [uri|e]; [|reflexivity].
        rewrite IH by (simpl in *; lia). cbn [variants_scan].
        rewrite (skip_directives_head _ _ _ Hj).
        destruct (variants_scan info base_url None rest); try reflexivity.
        now rewrite <- app_assoc.
    + rewrite IH by lia.
      now destruct (startswith "#" line).
Qed.

Lemma collect_variants_scan lines :
  collect_variants info base_url lines = variants_scan info base_url None lines.
Proof.
  unfold collect_variants. rewrite variants_loop_scan by lia.
  now destruct (variants_scan info base_url None lines).
Qed.

End Scan.
End ScanFacts.

(** ** Variant selection: C6, C1 *)
Module SelectionProps.
Import PyStr Py Playlist SpecWords More MaxFacts LoopFacts PatternFacts ChainFacts
  ScanFacts.


(** C1, as stated, fails: for the three variants of the specification's
    example [resolve_segments_from_m3u8] requests the [(1200,720)] variant,
    the first of maximal bandwidth, while [choose_variant_best] picks the
    [(1200,1080)] one.  It also fails on two variants that declare
    AVERAGE-BANDWIDTH before BANDWIDTH, with peak bandwidths 1000 and 960:
    the resolver reads the averages 900 and 950 and requests the second
    variant, while [choose_variant_best] picks the first. *)
Lemma resolve_ignores_height_counterexample :
  snd (@resolve_segments_from_m3u8 Demo.cdn "http://cdn/master.m3u8" [] 30 world0)
  = after_variant "http://cdn/master.m3u8" "http://cdn/mid.m3u8" [] 30 world0
  /\ best_by_bandwidth (map bandwidth_and_uri Demo.master_variants)
     = Ok "http://cdn/mid.m3u8"
  /\ choose_variant_best Demo.master_variants = Ok "http://cdn/high.m3u8"
  /\ snd (@resolve_segments_from_m3u8 Demo.average_cdn "http://cdn/master.m3u8"
            [] 30 world0)
     = after_variant "http://cdn/master.m3u8" "http://cdn/steady.m3u8" [] 30 world0
  /\ choose_variant_best Demo.average_variants = Ok "http://cdn/peak.m3u8".
Proof. repeat split; vm_compute; reflexivity. Qed.

Section Resolve.
Context `{Externals}.

(** What the variant loop of the resolver raises: the refusal of [int] on
    more than 4300 digits, or what [urljoin] raised. *)
Lemma collect_variants_resolve_raises url lines e :
  collect_variants bandwidth_resolve url lines = Raise e ->
  (exists line ds, In line lines
     /\ startswith "#EXT-X-STREAM-INF" line = true
     /\ reads_digits line (Some ds)
     /\ (4300 < String.length ds)%nat
     /\ e = ValueError (int_limit_message (String.length ds)))
  \/ (exists uri_line, In uri_line lines
        /\ startswith "#" uri_line = false
        /\ urljoin url uri_line = Throws e).
Proof.
  intros Hvs.
  pose proof (collect_variants_outcome bandwidth_resolve url lines
                bandwidth_resolve_no_diverge) as Hout.
  rewrite Hvs in Hout. destruct Hout as [(line & Hin & Hinf & Hraise)|Hjoin];
    [left|now right].
  rewrite bandwidth_resolve_value in Hraise.
  pose proof (search_bandwidth_digits_reads line) as Hreads.
  destruct (search_bandwidth_digits line) as [ds|]; [|discriminate].
  cbn [bandwidth_value] in Hraise.
  destruct (4300 <? String.length ds)%nat eqn:E; [|discriminate].
  injection Hraise as <-. apply Nat.ltb_lt in E.
  exists line, ds. repeat split; assumption.
Qed.

(** C1, amended.  When the top playlist is a master playlist,
    [resolve_segments_from_m3u8] reads, as the bandwidth of a stream-info
    line, the digits after the leftmost [BANDWIDTH=] that a digit follows
    (so the number of AVERAGE-BANDWIDTH when that attribute comes first),
    0 when there are none; it collects the variants in listing order, one
    pass over the lines, each with the number read from its stream-info
    line and the joined URI of a later line.  With no variant it raises;
    otherwise it requests the first-listed variant whose number is
    maximal, the height being ignored, and parses the answer.  That
    variant is the one [choose_variant_best] picks whenever, among
    variants of equal bandwidth, none listed later has a greater
    height-or-zero.  When [int] refuses a number of more than 4300 digits
    or [urljoin] refuses a line, that exception is raised after the one
    request. *)
Theorem resolve_fetches_first_max_bandwidth url hdrs timeout w top :
  urlopen (length (requests w)) (Request url hdrs timeout) = Body top ->
  has_stream_inf (stripped_lines (decode top)) = true ->
  (forall line, exists digits,
     reads_digits line digits /\ bandwidth_resolve line = bandwidth_value digits)
  /\ collect_variants bandwidth_resolve url (stripped_lines (decode top))
     = variants_scan bandwidth_resolve url None (stripped_lines (decode top))
  /\ match collect_variants bandwidth_resolve url (stripped_lines (decode top)) with
     | Ok [] =>
         resolve_segments_from_m3u8 url hdrs timeout w
         = (Raise (ValueError "No HLS variants found in master playlist"),
            after_top url hdrs timeout w)
     | Ok (v0 :: rest) =>
         Forall (fun v => exists line uri_line digits,
                   In line (stripped_lines (decode top))
                   /\ In uri_line (stripped_lines (decode top))
                   /\ startswith "#EXT-X-STREAM-INF" line = true
                   /\ startswith "#" uri_line = false
                   /\ reads_digits line digits
                   /\ bandwidth_value digits = Ok (fst v)
                   /\ urljoin url uri_line = Value (snd v)) (v0 :: rest)
         /\ exists i v,
             first_max Z.lt fst (v0 :: rest) i v
             /\ resolve_segments_from_m3u8 url hdrs timeout w
                = (match urlopen (S (length (requests w)))
                                 (Request (snd v) hdrs timeout) with
                   | Body media => parse_m3u8 (decode media) (snd v)
                   | Fails e => Raise e
                   end, after_variant url (snd v) hdrs timeout w)
             /\ forall described,
                  map bandwidth_and_uri described = v0 :: rest ->
                  (forall j k a b, (j < k)%nat ->
                     described !! j = Some a -> described !! k = Some b ->
                     fst (fst a) = fst (fst b) ->
                     height_or_zero (snd (fst b)) <= height_or_zero (snd (fst a))) ->
                  choose_variant_best described = Ok (snd v)
     | Raise e =>
         resolve_segments_from_m3u8 url hdrs timeout w
         = (Raise e, after_top url hdrs timeout w)
         /\ ((exists line ds, In line (stripped_lines (decode top))
                /\ startswith "#EXT-X-STREAM-INF" line = true
                /\ reads_digits line (Some ds)
                /\ (4300 < String.length ds)%nat
                /\ e = ValueError (int_limit_message (String.length ds)))
             \/ (exists uri_line, In uri_line (stripped_lines (decode top))
                   /\ startswith "#" uri_line = false
                   /\ urljoin url uri_line = Throws e))
     | Diverge => False
     end.
Proof.
  intros Htop Hmaster. split; [|split].
  - intros line. exists (search_bandwidth_digits line).
    split; [apply search_bandwidth_digits_reads|apply bandwidth_resolve_value].
  - apply collect_variants_scan.
  - pose proof (collect_variants_outcome bandwidth_resolve url
                  (stripped_lines (decode top)) bandwidth_resolve_no_diverge)
      as Hout.
    destruct (collect_variants bandwidth_resolve url (stripped_lines (decode top)))
      as [variants|e|] eqn:Hvs; [| |exact Hout].
    + rewrite (resolve_master _ _ _ _ _ _ Htop Hmaster Hvs).
      destruct variants as [|v0 rest]; [reflexivity|]. split.
      * eapply Forall_impl; [exact Hout|].
        intros v (line & uri_line & Hl & Hu & Hinf & Hhash & Hbw & Hjoin).
        exists line, uri_line, (search_bandwidth_digits line).
        rewrite <- bandwidth_resolve_value.
        repeat split; try assumption. apply search_bandwidth_digits_reads.
      * destruct (best_by_bandwidth_spec v0 rest) as (i & v & Hmax & Hbest).
        exists i, v. split; [exact Hmax|]. rewrite Hbest.
        split; [reflexivity|].
        intros described Hmap Hheights.
        pose proof Hmax as (Hi & _).
        rewrite <- Hmap, list_lookup_fmap in Hi.
        destruct (described !! i) as [d|] eqn:Hd; [|discriminate].
        injection Hi as Hdv.
        assert (Hbestd : first_max key_lt selection_key described i d).
        { apply first_max_bandwidth_is_best.
          - rewrite Hmap, Hdv. exact Hmax.
          - exact Hd.
          - intros j b Hij Hb Hbw. apply (Hheights i j d b Hij Hd Hb).
            now symmetry. }
        destruct described as [|d0 more]; [discriminate|].
        destruct (choose_variant_best_spec d0 more) as (i' & d' & Hmax' & ->).
        destruct (first_max_unique _ _ _ _ _ _ _ Hbestd Hmax') as [_ <-].
        now rewrite <- Hdv.
    + split; [exact (resolve_master_raises _ _ _ _ _ _ Htop Hmaster Hvs)|].
      now apply collect_variants_resolve_raises.
Qed.

End Resolve.

(** The amended C1 at the example playlist served by [Demo.cdn]: the
    variants read are (500, low), (1200, mid), (1200, high), the first
    maximum is the second of them, and the second request goes to
    [mid.m3u8], whose two segments are returned. *)
Lemma resolve_fetches_first_max_bandwidth_witness :
  @collect_variants Demo.cdn Z bandwidth_resolve "http://cdn/master.m3u8"
    (stripped_lines (@decode Demo.cdn (list_byte_of_string Demo.master_text)))
  = Ok [ (500, "http://cdn/low.m3u8"); (1200, "http://cdn/mid.m3u8");
         (1200, "http://cdn/high.m3u8") ]
  /\ first_max Z.lt fst
       [ (500, "http://cdn/low.m3u8"); (1200, "http://cdn/mid.m3u8");
         (1200, "http://cdn/high.m3u8") ] 1 (1200, "http://cdn/mid.m3u8")
  /\ @resolve_segments_from_m3u8 Demo.cdn "http://cdn/master.m3u8" [] 30 world0
     = (Ok ["http://cdn/seg0.ts"; "http://cdn/seg1.ts"],
        after_variant "http://cdn/master.m3u8" "http://cdn/mid.m3u8" [] 30 world0).
Proof.
  pose proof (@resolve_fetches_first_max_bandwidth Demo.cdn
                "http://cdn/master.m3u8" [] 30 world0
                (list_byte_of_string Demo.master_text)
                ltac:(vm_compute; reflexivity) ltac:(vm_compute; reflexivity))
    as (_ & _ & Hrun).
  assert (Hvs : @collect_variants Demo.cdn Z bandwidth_resolve
                  "http://cdn/master.m3u8"
                  (stripped_lines
                     (@decode Demo.cdn (list_byte_of_string Demo.master_text)))
                = Ok [ (500, "http://cdn/low.m3u8"); (1200, "http://cdn/mid.m3u8");
                       (1200, "http://cdn/high.m3u8") ])
    by (vm_compute; reflexivity).
  rewrite Hvs in Hrun. destruct Hrun as (_ & i & v & Hmax & Hrun & _).
  assert (Hmid : first_max Z.lt fst
            [ (500, "http://cdn/low.m3u8"); (1200, "http://cdn/mid.m3u8");
              (1200, "http://cdn/high.m3u8") ] 1 (1200, "http://cdn/mid.m3u8")).
  { split; [reflexivity|]. split.
    - intros j x Hx.
      destruct j as [|[|[|j]]]; simpl in Hx; try discriminate;
        injection Hx as <-; simpl; lia.
    - intros j x Hj Hx. destruct j as [|j]; [|lia].
      injection Hx as <-. simpl. lia. }
  destruct (first_max_unique _ _ _ _ _ _ _ Hmax Hmid) as [-> ->].
  split; [exact Hvs|]. split; [exact Hmid|]. exact Hrun.
Defined.

End SelectionProps.

(** ** The playlist chain: C7, C10 *)
Module ChainProps.
Import PyStr Py Playlist SpecWords More MaxFacts LoopFacts PatternFacts ChainFacts
  ScanFacts.

Section Chain.
Context `{Externals}.

(** [resolve_segments_from_m3u8] sends one request, or two. *)
Lemma resolve_requests_bound url hdrs timeout w :
  (length (requests (snd (resolve_segments_from_m3u8 url hdrs timeout w)))
   <= length (requests w) + 2)%nat.
Proof.
  destruct (urlopen (length (requests w)) (Request url hdrs timeout))
    as [top|e] eqn:Htop.
  - destruct (has_stream_inf (stripped_lines (decode top))) eqn:Hmaster.
    + destruct (collect_variants bandwidth_resolve url
                  (stripped_lines (decode top))) as [variants|e|] eqn:Hvs.
      * rewrite (resolve_master _ _ _ _ _ _ Htop Hmaster Hvs).
        destruct variants as [|v0 rest]; simpl.
        -- rewrite length_app. simpl. lia.
        -- destruct (best_by_bandwidth (v0 :: rest)); simpl;
             rewrite length_app; simpl; lia.
      * rewrite (resolve_master_raises _ _ _ _ _ _ Htop Hmaster Hvs). simpl.
        rewrite length_app. simpl. lia.
      * unfold resolve_segments_from_m3u8, bind.
        rewrite http_get_answer, Htop, Hmaster. unfold lift at 1.
        rewrite Hvs. simpl. rewrite length_app. simpl. lia.
    + unfold resolve_segments_from_m3u8, bind.
      rewrite http_get_answer, Htop, Hmaster. unfold lift. simpl.
      rewrite length_app. simpl. lia.
  - unfold resolve_segments_from_m3u8, bind.
    rewrite http_get_answer, Htop. simpl. rewrite length_app. simpl. lia.
Qed.

(** C7. When the top playlist is a master playlist and the playlist
    fetched from the selected variant is a master playlist again,
    [resolve_segments_from_m3u8] raises the [ValueError] of [parse_m3u8]
    after exactly two requests, the top playlist and that variant; and on
    no input does it send more than two requests, so no deeper level is
    ever fetched. *)
Theorem resolve_nested_master_raises url hdrs timeout w top variants best_uri
    media :
  urlopen (length (requests w)) (Request url hdrs timeout) = Body top ->
  has_stream_inf (stripped_lines (decode top)) = true ->
  collect_variants bandwidth_resolve url (stripped_lines (decode top))
  = Ok variants ->
  best_by_bandwidth variants = Ok best_uri ->
  urlopen (S (length (requests w))) (Request best_uri hdrs timeout) = Body media ->
  has_stream_inf (stripped_lines (decode media)) = true ->
  resolve_segments_from_m3u8 url hdrs timeout w
  = (Raise (ValueError "Master playlist provided; use resolve_segments_from_m3u8() that preserves headers"),
     after_variant url best_uri hdrs timeout w)
  /\ forall url' hdrs' timeout' w',
       (length (requests (snd (resolve_segments_from_m3u8 url' hdrs' timeout' w')))
        <= length (requests w') + 2)%nat.
Proof.
  intros Htop Hmaster Hvs Hbest Hmedia Hnested.
  split; [|intros; apply resolve_requests_bound].
  rewrite (resolve_master _ _ _ _ _ _ Htop Hmaster Hvs).
  destruct variants as [|v0 rest]; [discriminate|].
  rewrite Hbest, Hmedia. unfold parse_m3u8. now rewrite Hnested.
Qed.





End Chain.

(** C7 at a network whose variant playlists are master playlists. *)
Lemma resolve_nested_master_raises_witness :
  @resolve_segments_from_m3u8 Demo.nested_cdn "http://cdn/master.m3u8" [] 30 world0
  = (Raise (ValueError "Master playlist provided; use resolve_segments_from_m3u8() that preserves headers"),
     after_variant "http://cdn/master.m3u8" "http://cdn/mid.m3u8" [] 30 world0)
  /\ forall url' hdrs' timeout' w',
       (length (requests (snd (@resolve_segments_from_m3u8 Demo.nested_cdn
                                 url' hdrs' timeout' w')))
        <= length (requests w') + 2)%nat.
Proof.
  apply (@resolve_nested_master_raises Demo.nested_cdn
           "http://cdn/master.m3u8" [] 30 world0
           (list_byte_of_string Demo.master_text)
           [(500, "http://cdn/low.m3u8"); (1200, "http://cdn/mid.m3u8");
            (1200, "http://cdn/high.m3u8")]
           "http://cdn/mid.m3u8"
           (list_byte_of_string Demo.master_text));
    vm_compute; reflexivity.
Defined.



End ChainProps.

(** ** Media playlists: C5, C4 *)
Module MediaProps.
Import PyStr Py Playlist SpecWords.

Lemma filter_filter_andb {A : Type} (p q : A -> bool) (l : list A) :
  List.filter q (List.filter p l) = List.filter (fun x => p x && q x) l.
Proof.
  induction l as [|x l IH]; simpl; [reflexivity|].
  destruct (p x); simpl; [destruct (q x)|]; now rewrite IH.
Qed.

Lemma non_comment_lines_stripped content :
  non_comment_lines content
  = List.filter (fun l => negb (startswith "#" l)) (stripped_lines content).
Proof. unfold non_comment_lines, stripped_lines. now rewrite filter_filter_andb. Qed.

Section Parse.
Context `{Externals}.

(** The loop of [parse_m3u8] appends the join of every line that is no
    directive, in order, when [urljoin] accepts them all. *)
Lemma segments_loop_joined base_url lines : forall joined segments,
  Forall2 (fun line uri => urljoin base_url line = Value uri)
          (List.filter (fun l => negb (startswith "#" l)) lines) joined ->
  segments_loop base_url lines segments = Ok (segments ++ joined).
Proof.
  induction lines as [|line lines IH]; intros joined segments Hjoined;
    cbn [segments_loop List.filter] in *.
  - inversion Hjoined. now rewrite app_nil_r.
  - destruct (startswith "#" line); cbn [negb] in Hjoined; [now apply IH|].
    inversion Hjoined as [|l uri ls uris Hjoin Hrest]; subst.
    rewrite Hjoin, (IH uris) by exact Hrest. now rewrite <- app_assoc.
Qed.

(** It raises what [urljoin] raises on the first line it refuses. *)
Lemma segments_loop_refused base_url lines e : forall before bad after segments,
  List.filter (fun l => negb (startswith "#" l)) lines = before ++ bad :: after ->
  Forall (fun line => exists uri, urljoin base_url line = Value uri) before ->
  urljoin base_url bad = Throws e ->
  segments_loop base_url lines segments = Raise e.
Proof.
  induction lines as [|line lines IH]; intros before bad after segments Hsplit
    Hbefore Hbad; cbn [segments_loop List.filter] in *.
  - now destruct before.
  - destruct (startswith "#" line); cbn [negb] in Hsplit;
      [now apply (IH before bad after)|].
    destruct before as [|b before]; simpl in Hsplit; injection Hsplit as -> Hsplit.
    + now rewrite Hbad.
    + inversion Hbefore as [|x xs [uri Hjoin] Hrest]; subst.
      rewrite Hjoin. now apply (IH before bad after).
Qed.

(** C5, as stated, fails: a media playlist whose one content line is a
    reference that [urljoin] refuses has N = 1, yet [parse_m3u8] returns no
    segment reference: it raises the [ValueError] of [urljoin]. *)
Lemma parse_m3u8_refused_line_counterexample :
  has_stream_inf (stripped_lines Demo.bracket_media_text) = false
  /\ non_comment_lines Demo.bracket_media_text = ["//[x/seg.ts"]
  /\ @parse_m3u8 Demo.cdn Demo.bracket_media_text "http://cdn/mid.m3u8"
     = Raise (ValueError "Invalid IPv6 URL").
Proof. repeat split; vm_compute; reflexivity. Qed.

(** C5, amended.  For a playlist text without a stream-info line and with
    N non-comment, non-empty lines that [urljoin] all accepts against the
    base URI, [parse_m3u8] returns exactly the N joins of those lines, in
    the order of the text (so the segment at index i, 0 <= i < N, comes
    from the i-th such line); and it raises, with "No segments found in
    playlist", exactly when N = 0.  When [urljoin] refuses one of the
    lines, [parse_m3u8] raises what [urljoin] raised on the first such
    line. *)
Theorem parse_m3u8_segments content base_url :
  has_stream_inf (stripped_lines content) = false ->
  (forall joined,
     Forall2 (fun line uri => urljoin base_url line = Value uri)
             (non_comment_lines content) joined ->
     parse_m3u8 content base_url
     = match joined with
       | [] => Raise (ValueError "No segments found in playlist")
       | _ :: _ => Ok joined
       end
     /\ ((exists e, parse_m3u8 content base_url = Raise e)
         <-> length (non_comment_lines content) = 0%nat)
     /\ (forall segments, parse_m3u8 content base_url = Ok segments ->
           length segments = length (non_comment_lines content)
           /\ forall i line, non_comment_lines content !! i = Some line ->
                exists uri, segments !! i = Some uri
                            /\ urljoin base_url line = Value uri))
  /\ (forall before bad after e,
        non_comment_lines content = before ++ bad :: after ->
        Forall (fun line => exists uri, urljoin base_url line = Value uri) before ->
        urljoin base_url bad = Throws e ->
        parse_m3u8 content base_url = Raise e).
Proof.
  intros Hmedia. split.
  - intros joined Hjoined.
    assert (Hparse : parse_m3u8 content base_url
      = match joined with
        | [] => Raise (ValueError "No segments found in playlist")
        | _ :: _ => Ok joined
        end).
    { unfold parse_m3u8. rewrite Hmedia.
      rewrite non_comment_lines_stripped in Hjoined.
      rewrite (segments_loop_joined _ _ _ [] Hjoined). simpl.
      now destruct joined. }
    split; [exact Hparse|]. rewrite Hparse.
    pose proof (Forall2_length _ _ _ Hjoined) as Hlen. split.
    + destruct joined; simpl in Hlen.
      * split; [intros _; exact Hlen|]. intros _. eauto.
      * split; [intros [e He]; discriminate|intros Hzero; lia].
    + intros segments Hok.
      destruct joined as [|u0 us]; [discriminate|].
      injection Hok as <-. split; [now symmetry|].
      intros i line Hi.
      destruct (Forall2_lookup_l _ _ _ _ _ Hjoined Hi) as (uri & Huri & Hjoin).
      eauto.
  - intros before bad after e Hsplit Hbefore Hbad.
    unfold parse_m3u8. rewrite Hmedia.
    rewrite non_comment_lines_stripped in Hsplit.
    now rewrite (segments_loop_refused _ _ _ _ _ _ [] Hsplit Hbefore Hbad).
Qed.

End Parse.

(** The amended C5 at the example media playlist: two segments, in
    order. *)
Lemma parse_m3u8_segments_witness :
  non_comment_lines Demo.media_text = ["seg0.ts"; "seg1.ts"]
  /\ @parse_m3u8 Demo.cdn Demo.media_text "http://cdn/mid.m3u8"
     = Ok ["http://cdn/seg0.ts"; "http://cdn/seg1.ts"].
Proof.
  split; [vm_compute; reflexivity|].
  refine (proj1 (proj1 (@parse_m3u8_segments Demo.cdn Demo.media_text
                          "http://cdn/mid.m3u8" _)
                   ["http://cdn/seg0.ts"; "http://cdn/seg1.ts"] _)).
  - vm_compute. reflexivity.
  - change (non_comment_lines Demo.media_text) with ["seg0.ts"; "seg1.ts"].
    repeat constructor.
Defined.

(** C4, as stated, fails: a key directive without a method field is
    reported encrypted, though no method field is present. *)
Lemma key_without_method_counterexample :
  playlist_has_encryption Demo.no_method_key_media_text = true
  /\ is_encrypted_spec Demo.no_method_key_media_text = false
  /\ (forall line, In line (splitlines Demo.no_method_key_media_text) ->
        contains "METHOD" line = false).
Proof.
  split; [vm_compute; reflexivity|]. split; [vm_compute; reflexivity|].
  intros line Hin. vm_compute in Hin.
  repeat (destruct Hin as [<-|Hin]; [vm_compute; reflexivity|]).
  contradiction.
Qed.

(** C4, amended.  [playlist_has_encryption] returns true if and only if
    some line starts, blanks aside, with [#EXT-X-KEY] and does not contain
    the text [METHOD=NONE].  A playlist whose key directive carries
    [METHOD=AES-128] is reported encrypted; one whose key directive
    carries [METHOD=NONE], and one without key directive, is not. *)
Theorem playlist_has_encryption_iff m3u8_text :
  (playlist_has_encryption m3u8_text = true
   <-> exists line, In line (splitlines m3u8_text)
         /\ is_key_directive line = true
         /\ contains "METHOD=NONE" line = false)
  /\ ((forall line, In line (splitlines m3u8_text) ->
         is_key_directive line = false) ->
      playlist_has_encryption m3u8_text = false)
  /\ playlist_has_encryption Demo.encrypted_media_text = true
  /\ playlist_has_encryption Demo.unencrypted_key_media_text = false
  /\ playlist_has_encryption Demo.media_text = false.
Proof.
  assert (Hiff : playlist_has_encryption m3u8_text = true
   <-> exists line, In line (splitlines m3u8_text)
         /\ is_key_directive line = true
         /\ contains "METHOD=NONE" line = false).
  { unfold playlist_has_encryption, is_key_directive.
    rewrite existsb_exists. split.
    - intros (line & Hin & Hline). apply andb_true_iff in Hline as [Hkey Hnone].
      apply negb_true_iff in Hnone. eauto.
    - intros (line & Hin & Hkey & Hnone). exists line. split; [exact Hin|].
      now rewrite Hkey, Hnone. }
  split; [exact Hiff|]. split; [|repeat split; vm_compute; reflexivity].
  intros Hnokey. apply not_true_is_false. intros Henc.
  apply Hiff in Henc as (line & Hin & Hkey & _).
  rewrite (Hnokey line Hin) in Hkey. discriminate.
Qed.

End MediaProps.
(** ** The escalation test: C2 *)
Module StrategyProps.
Import Strategy.

(** C2, as stated, fails: with 3 of 4 segments downloaded, 3 < 0.8 * 4,
    yet [main] assembles without calling the ffmpeg fallback; and with 1
    of 4 segments downloaded and a fallback that fails, [main] escalates
    and assembles the downloaded segment all the same. *)
Lemma escalation_truncates_counterexample :
  ~ (In FfmpegFallback (after_manual_run 3 4 true) <-> 5 * 3 < 4 * 4)
  /\ 5 * 1 < 4 * 4
  /\ after_manual_run 1 4 false = [FfmpegFallback; Assemble].
Proof.
  split; [|split; [lia|reflexivity]].
  intros [_ Hesc]. specialize (Hesc ltac:(lia)). vm_compute in Hesc.
  destruct Hesc as [Hesc|[]]. discriminate.
Qed.

(** C2, amended.  After a manual run over [segments >= 1] segments of
    which [downloaded] produced files, [main] calls the ffmpeg fallback if
    and only if [downloaded < max(1, floor(0.8 * segments))], that is, if
    and only if nothing was downloaded or [downloaded + 1 <= 0.8 *
    segments]; it never does so unless [downloaded < 0.8 * segments].
    When it does and the fallback succeeds, nothing is assembled; when
    the fallback fails, it assembles the downloaded segments all the
    same; and when it does not call the fallback, it goes on to
    assemble. *)
Theorem escalates_below_truncated_threshold downloaded segments ffmpeg_ok :
  0 <= downloaded -> 1 <= segments ->
  (In FfmpegFallback (after_manual_run downloaded segments ffmpeg_ok)
   <-> downloaded < Z.max 1 (int_0_8_times segments))
  /\ (In FfmpegFallback (after_manual_run downloaded segments ffmpeg_ok)
      <-> downloaded = 0 \/ 5 * (downloaded + 1) <= 4 * segments)
  /\ (In FfmpegFallback (after_manual_run downloaded segments ffmpeg_ok) ->
      5 * downloaded < 4 * segments)
  /\ (In FfmpegFallback (after_manual_run downloaded segments ffmpeg_ok) ->
      after_manual_run downloaded segments ffmpeg_ok
      = if ffmpeg_ok then [FfmpegFallback] else [FfmpegFallback; Assemble])
  /\ (~ In FfmpegFallback (after_manual_run downloaded segments ffmpeg_ok) ->
      after_manual_run downloaded segments ffmpeg_ok = [Assemble]).
Proof.
  intros Hd Hs.
  assert (Hrun : In FfmpegFallback (after_manual_run downloaded segments ffmpeg_ok)
                 <-> downloaded < Z.max 1 (int_0_8_times segments)).
  { unfold after_manual_run, too_many_failures.
    destruct (downloaded <? Z.max 1 (int_0_8_times segments)) eqn:Hlt.
    - apply Z.ltb_lt in Hlt. split; [intros _; exact Hlt|].
      intros _. destruct ffmpeg_ok; now left.
    - apply Z.ltb_ge in Hlt. split; [|lia].
      intros [Hin|[]]. discriminate. }
  assert (Hchar : downloaded < Z.max 1 (int_0_8_times segments)
                  <-> downloaded = 0 \/ 5 * (downloaded + 1) <= 4 * segments).
  { unfold int_0_8_times.
    pose proof (Z.div_mod (4 * segments) 5 ltac:(lia)) as Hdiv.
    pose proof (Z.mod_pos_bound (4 * segments) 5 ltac:(lia)) as Hmod.
    lia. }
  split; [exact Hrun|]. split; [now rewrite Hrun|]. split; [|split].
  - rewrite Hrun, Hchar. lia.
  - unfold after_manual_run.
    destruct (too_many_failures downloaded segments); [reflexivity|].
    intros [Hin|[]]. discriminate.
  - intros Hno. unfold after_manual_run in *.
    destruct (too_many_failures downloaded segments); [|reflexivity].
    exfalso. apply Hno. destruct ffmpeg_ok; now left.
Qed.

(** The amended C2 with 7 of 10 segments downloaded: the fallback runs,
    and when it succeeds nothing is assembled. *)
Lemma escalates_below_truncated_threshold_witness :
  In FfmpegFallback (after_manual_run 7 10 true)
  /\ 5 * 7 < 4 * 10
  /\ after_manual_run 7 10 true = [FfmpegFallback].
Proof.
  pose proof (escalates_below_truncated_threshold 7 10 true
                ltac:(lia) ltac:(lia)) as (_ & Hchar & Hbelow & Hthen & _).
  split; [apply Hchar; right; lia|]. split; [lia|].
  apply Hthen, Hchar. right. lia.
Defined.

End StrategyProps.

(** ** The retrying fetch: C3 *)
Module FetchProps.
Import PyStr Py Fetch SpecWords ChainFacts.

Section Retry.
Context `{Externals}.
Variables (url : string) (hdrs : headers) (timeout retries : Z) (backoff : Q).

Let req : request := Request url hdrs timeout.

Lemma attempt_once_answer attempt w :
  attempt_once url hdrs timeout retries attempt w
  = (match urlopen (length (requests w)) req with
     | Body data => Ok (Some (true, Some data, None))
     | Fails (HTTPError code) =>
         if (code =? 403) || (code =? 404) then Ok (Some (false, None, Some code))
         else if attempt >=? retries then Ok (Some (false, None, Some code))
         else Ok None
     | Fails _ =>
         if attempt >=? retries then Ok (Some (false, None, None)) else Ok None
     end, after_top url hdrs timeout w).
Proof.
  unfold attempt_once, try_except, bind. rewrite http_get_answer. fold req.
  destruct (urlopen (length (requests w)) req) as [data|e]; [reflexivity|].
  destruct e; unfold ret; simpl;
    repeat match goal with |- context [if ?b then _ else _] => destruct b end;
    reflexivity.
Qed.

(** The sleep between two attempts. *)
Lemma sleep_backoff_run a w :
  sleep_backoff backoff a w
  = if can_sleep backoff a then
      (Ok tt, World (requests w) (slept w ++ [backoff_delay backoff a]))
    else (Raise (sleep_error backoff a), w).
Proof.
  unfold sleep_backoff, can_sleep, sleep_error, sleep, raise, backoff_delay.
  destruct (a >=? 1024) eqn:Ha.
  - replace (a <? 1024) with false by lia. reflexivity.
  - replace (a <? 1024) with true by lia. simpl.
    destruct (too_long (backoff * inject_Z (2 ^ a))); [reflexivity|]. simpl.
    now destruct (Qle_bool 0 (backoff * inject_Z (2 ^ a))).
Qed.

(** An attempt before the last whose answer calls for another try is
    followed by the sleep and the next attempt. *)
Lemma for_attempts_retry a later w :
  a < retries ->
  retriable (urlopen (length (requests w)) req) = true ->
  for_attempts url hdrs timeout retries backoff (a :: later) w
  = if can_sleep backoff a then
      for_attempts url hdrs timeout retries backoff later
        (World (requests w ++ [req]) (slept w ++ [backoff_delay backoff a]))
    else (Raise (sleep_error backoff a), after_top url hdrs timeout w).
Proof.
  intros Ha Hretry. cbn [for_attempts]. unfold bind at 1.
  rewrite attempt_once_answer.
  assert (Hnone :
    match urlopen (length (requests w)) req with
    | Body data => Ok (Some (true, Some data, None))
    | Fails (HTTPError code) =>
        if (code =? 403) || (code =? 404)
        then Ok (Some (false, None, Some code))
        else if a >=? retries then Ok (Some (false, None, Some code))
             else Ok None
    | Fails _ =>
        if a >=? retries then Ok (Some (false, None, None)) else Ok None
    end = Ok (None : option fetch_result)).
  { destruct (urlopen (length (requests w)) req) as [data|e]; [discriminate|].
    replace (a >=? retries) with false by lia.
    destruct e as [msg|msg|code| |]; try reflexivity.
    simpl in Hretry. apply negb_true_iff in Hretry. now rewrite Hretry. }
  rewrite Hnone. unfold bind. rewrite sleep_backoff_run.
  now destruct (can_sleep backoff a).
Qed.

(** An attempt whose answer ends the loop. *)
Lemma for_attempts_last a later w :
  retriable (urlopen (length (requests w)) req) = false \/ a = retries ->
  for_attempts url hdrs timeout retries backoff (a :: later) w
  = (Ok (final_result (urlopen (length (requests w)) req)),
     after_top url hdrs timeout w).
Proof.
  intros Hlast. cbn [for_attempts]. unfold bind.
  rewrite attempt_once_answer.
  destruct (urlopen (length (requests w)) req) as [data|e] eqn:Hans;
    [reflexivity|].
  destruct e as [msg|msg|code| |]; simpl in Hlast |- *;
    try (destruct Hlast as [Hlast|Hlast]; [discriminate|];
         replace (a >=? retries) with true by lia; reflexivity).
  destruct ((code =? 403) || (code =? 404)) eqn:Hcode; [reflexivity|].
  destruct Hlast as [Hlast|Hlast]; [discriminate|].
  replace (a >=? retries) with true by lia. reflexivity.
Qed.

(** The loop from attempt [a] on, through [k] answers that call for
    another try, each followed by a delay that can be slept. *)
Lemma for_attempts_skip k : forall a w,
  0 <= a -> a + Z.of_nat k <= retries ->
  (forall j, (j < k)%nat ->
     retriable (urlopen (length (requests w) + j) req) = true) ->
  (forall j, (j < k)%nat -> can_sleep backoff (a + Z.of_nat j) = true) ->
  for_attempts url hdrs timeout retries backoff (seqZ a (retries + 1 - a)) w
  = for_attempts url hdrs timeout retries backoff
      (seqZ (a + Z.of_nat k) (retries + 1 - (a + Z.of_nat k)))
      (after_attempts req backoff w k a k).
Proof.
  induction k as [|k IH]; intros a w Ha Hk Hretry Hsleep.
  - replace (a + Z.of_nat 0) with a by lia. f_equal.
    unfold after_attempts. simpl. rewrite !app_nil_r. now destruct w.
  - rewrite seqZ_cons by lia.
    pose proof (Hretry 0%nat ltac:(lia)) as H0. rewrite Nat.add_0_r in H0.
    pose proof (Hsleep 0%nat ltac:(lia)) as Hs0.
    replace (a + Z.of_nat 0) with a in Hs0 by lia.
    rewrite (for_attempts_retry a _ w ltac:(lia) H0), Hs0.
    replace (Z.pred (retries + 1 - a)) with (retries + 1 - Z.succ a) by lia.
    set (w1 := World (requests w ++ [req]) (slept w ++ [backoff_delay backoff a])).
    assert (Hlen : length (requests w1) = S (length (requests w))).
    { subst w1. simpl. rewrite length_app. simpl. lia. }
    rewrite (IH (Z.succ a) w1); try lia.
    + replace (Z.succ a + Z.of_nat k) with (a + Z.of_nat (S k)) by lia.
      f_equal. unfold after_attempts. subst w1. simpl.
      rewrite <- !app_assoc. simpl. f_equal.
      rewrite (seqZ_cons a (Z.of_nat (S k))) by lia. simpl.
      replace (Z.pred (Z.of_nat (S k))) with (Z.of_nat k) by lia.
      reflexivity.
    + intros j Hj. rewrite Hlen.
      replace (S (length (requests w)) + j)%nat
        with (length (requests w) + S j)%nat by lia.
      apply Hretry. lia.
    + intros j Hj.
      replace (Z.succ a + Z.of_nat j) with (a + Z.of_nat (S j)) by lia.
      apply Hsleep. lia.
Qed.

Lemma after_attempts_length w n first delays :
  length (requests (after_attempts req backoff w n first delays))
  = (length (requests w) + n)%nat.
Proof.
  unfold after_attempts. simpl. now rewrite length_app, length_replicate.
Qed.

Lemma after_top_after_attempts w k a :
  after_top url hdrs timeout (after_attempts req backoff w k a k)
  = after_attempts req backoff w (S k) a k.
Proof.
  unfold after_top, after_attempts. cbn [requests slept]. f_equal.
  rewrite <- app_assoc. f_equal.
  change [Request url hdrs timeout] with (replicate 1 req).
  rewrite <- replicate_add. f_equal. lia.
Qed.

(** The loop from attempt [a] on: after [k] answers that call for another
    try, the answer that ends the loop decides the result. *)
Lemma for_attempts_run k : forall a w,
  0 <= a -> a + Z.of_nat k <= retries ->
  (forall j, (j < k)%nat ->
     retriable (urlopen (length (requests w) + j) req) = true) ->
  (forall j, (j < k)%nat -> can_sleep backoff (a + Z.of_nat j) = true) ->
  retriable (urlopen (length (requests w) + k) req) = false
  \/ a + Z.of_nat k = retries ->
  for_attempts url hdrs timeout retries backoff (seqZ a (retries + 1 - a)) w
  = (Ok (final_result (urlopen (length (requests w) + k) req)),
     after_attempts req backoff w (S k) a k).
Proof.
  intros a w Ha Hk Hretry Hsleep Hlast.
  rewrite (for_attempts_skip k a w Ha Hk Hretry Hsleep).
  rewrite (seqZ_cons (a + Z.of_nat k)) by lia.
  rewrite for_attempts_last, after_attempts_length, after_top_after_attempts;
    [reflexivity|].
  now rewrite after_attempts_length.
Qed.

(** The loop from attempt [a] on, when the delay after the [k]-th answer
    cannot be slept: [time.sleep] raises. *)
Lemma for_attempts_stuck k : forall a w,
  0 <= a -> a + Z.of_nat k < retries ->
  (forall j, (j <= k)%nat ->
     retriable (urlopen (length (requests w) + j) req) = true) ->
  (forall j, (j < k)%nat -> can_sleep backoff (a + Z.of_nat j) = true) ->
  can_sleep backoff (a + Z.of_nat k) = false ->
  for_attempts url hdrs timeout retries backoff (seqZ a (retries + 1 - a)) w
  = (Raise (sleep_error backoff (a + Z.of_nat k)),
     after_attempts req backoff w (S k) a k).
Proof.
  intros a w Ha Hk Hretry Hsleep Hstuck.
  rewrite (for_attempts_skip k a w Ha ltac:(lia)
             ltac:(intros j Hj; apply Hretry; lia) Hsleep).
  rewrite (seqZ_cons (a + Z.of_nat k)) by lia.
  rewrite for_attempts_retry, Hstuck, after_top_after_attempts;
    [reflexivity|lia|].
  rewrite after_attempts_length. apply Hretry. lia.
Qed.

End Retry.

(** C3, as stated, fails: the claim is for every [backoffBase], but after
    a first answer 500 a negative base makes [time.sleep] raise
    [ValueError], and a base of 10^10 seconds makes it raise
    [OverflowError]; and with 1025 retries of a segment that always
    answers 500, the product [0.0 * 2 ** 1024] raises [OverflowError]
    after the 1025th request.  In each case [try_download] raises instead
    of retrying and reporting the last status. *)
Lemma try_download_sleep_raises_counterexample :
  @try_download Demo.flaky "http://cdn/seg0.ts" [] 30 2 (- 1 # 2) world0
  = (Raise (ValueError "sleep length must be non-negative"),
     World [Request "http://cdn/seg0.ts" [] 30] [])
  /\ @try_download Demo.flaky "http://cdn/seg0.ts" [] 30 2 (10000000000 # 1) world0
     = (Raise OtherError, World [Request "http://cdn/seg0.ts" [] 30] [])
  /\ @try_download Demo.failing "http://cdn/seg0.ts" [] 30 1025 0 world0
     = (Raise OtherError,
        World (replicate 1025 (Request "http://cdn/seg0.ts" [] 30))
              (replicate 1024 (0 # 1)%Q)).
Proof. repeat split; vm_compute; reflexivity. Qed.

(** C3, amended.  Let [answer k] be the network's answer to the k-th
    request that [try_download] makes, and [delay a] be
    [backoff * 2^a].  If the first [k <= retries] answers are failures
    other than HTTP 403 and 404, the delays of the attempts 0 .. k-1 can
    be slept (the attempt is below 1024, the delay is not negative and
    fits the clock), and answer [k] is a body, an HTTP 403 or 404, or the
    last attempt allowed ([k = retries]), then [try_download] makes
    exactly [k + 1] requests, sleeps [backoff * 2^attempt] after each of
    the attempts 0 .. k-1 and at no other time, and returns what answer
    [k] decides: success with the data, or failure with the HTTP status
    of that answer (none for a transport error).  So an HTTP 403 or 404
    ends the call at once, with its code and without retry; and a segment
    answering 500, 500, 200 succeeds when [retries >= 2] and fails with
    code 500 when [retries = 1].  When the delay after a failed attempt
    before the last cannot be slept, [try_download] raises the exception
    of [time.sleep] instead. *)
Theorem try_download_retry_policy `{Externals} url hdrs timeout retries backoff w :
  let req := Request url hdrs timeout in
  let answer := fun k : nat => urlopen (length (requests w) + k) req in
  let delay := fun attempt : Z => (backoff * inject_Z (2 ^ attempt))%Q in
  (forall k : nat, Z.of_nat k <= retries ->
     (forall j, (j < k)%nat -> retriable (answer j) = true) ->
     (forall j, (j < k)%nat -> can_sleep backoff (Z.of_nat j) = true) ->
     retriable (answer k) = false \/ Z.of_nat k = retries ->
     try_download url hdrs timeout retries backoff w
     = (Ok (final_result (answer k)),
        World (requests w ++ replicate (S k) req)
              (slept w ++ map delay (seqZ 0 (Z.of_nat k)))))
  /\ (forall code, code = 403 \/ code = 404 -> 0 <= retries ->
        answer 0%nat = Fails (HTTPError code) ->
        try_download url hdrs timeout retries backoff w
        = (Ok (false, None, Some code), World (requests w ++ [req]) (slept w)))
  /\ (forall data,
        answer 0%nat = Fails (HTTPError 500) ->
        answer 1%nat = Fails (HTTPError 500) ->
        answer 2%nat = Body data ->
        (2 <= retries ->
         can_sleep backoff 0 = true -> can_sleep backoff 1 = true ->
         try_download url hdrs timeout retries backoff w
         = (Ok (true, Some data, None),
            World (requests w ++ [req; req; req])
                  (slept w ++ [(backoff * inject_Z (2 ^ 0))%Q;
                               (backoff * inject_Z (2 ^ 1))%Q])))
        /\ (retries = 1 ->
            can_sleep backoff 0 = true ->
            try_download url hdrs timeout retries backoff w
            = (Ok (false, None, Some 500),
               World (requests w ++ [req; req])
                     (slept w ++ [(backoff * inject_Z (2 ^ 0))%Q]))))
  /\ (forall k : nat, Z.of_nat k < retries ->
        (forall j, (j <= k)%nat -> retriable (answer j) = true) ->
        (forall j, (j < k)%nat -> can_sleep backoff (Z.of_nat j) = true) ->
        can_sleep backoff (Z.of_nat k) = false ->
        try_download url hdrs timeout retries backoff w
        = (Raise (if (Z.of_nat k >=? 1024) || too_long (delay (Z.of_nat k))
                  then OtherError
                  else ValueError "sleep length must be non-negative"),
           World (requests w ++ replicate (S k) req)
                 (slept w ++ map delay (seqZ 0 (Z.of_nat k))))).
Proof.
  intros req answer delay.
  assert (Hrun : forall k : nat, Z.of_nat k <= retries ->
     (forall j, (j < k)%nat -> retriable (answer j) = true) ->
     (forall j, (j < k)%nat -> can_sleep backoff (Z.of_nat j) = true) ->
     retriable (answer k) = false \/ Z.of_nat k = retries ->
     try_download url hdrs timeout retries backoff w
     = (Ok (final_result (answer k)),
        World (requests w ++ replicate (S k) req)
              (slept w ++ map delay (seqZ 0 (Z.of_nat k))))).
  { intros k Hk Hretry Hsleep Hlast. unfold try_download, range.
    replace (retries + 1) with (retries + 1 - 0) by lia.
    apply (for_attempts_run url hdrs timeout retries backoff k 0 w);
      try lia; assumption. }
  split; [exact Hrun|]. split; [|split].
  - intros code Hcode Hretries Hans.
    rewrite (Hrun 0%nat ltac:(lia)).
    + rewrite Hans. simpl. now rewrite app_nil_r.
    + intros j Hj. lia.
    + intros j Hj. lia.
    + left. rewrite Hans. simpl. destruct Hcode as [-> | ->]; reflexivity.
  - intros data H0 H1 H2. split.
    + intros Hretries Hs0 Hs1. rewrite (Hrun 2%nat ltac:(lia)).
      * rewrite H2. reflexivity.
      * intros [|[|j]] Hj; [now rewrite H0|now rewrite H1|lia].
      * intros [|[|j]] Hj; [exact Hs0|exact Hs1|lia].
      * left. now rewrite H2.
    + intros -> Hs0. rewrite (Hrun 1%nat ltac:(lia)).
      * rewrite H1. reflexivity.
      * intros [|j] Hj; [now rewrite H0|lia].
      * intros [|j] Hj; [exact Hs0|lia].
      * now right.
  - intros k Hk Hretry Hsleep Hstuck. unfold try_download, range.
    replace (retries + 1) with (retries + 1 - 0) by lia.
    apply (for_attempts_stuck url hdrs timeout retries backoff k 0 w);
      try lia; assumption.
Qed.

(** The amended C3 at a segment that answers 500, 500, 200, with a base
    of half a second: two retries reach the data after delays of 1/2 and
    2/2 seconds; one retry ends with code 500 after a delay of 1/2. *)
Lemma try_download_retry_policy_witness :
  @try_download Demo.flaky "http://cdn/seg0.ts" [] 30 2 (1 # 2) world0
  = (Ok (true, Some Demo.flaky_payload, None),
     World (replicate 3 (Request "http://cdn/seg0.ts" [] 30))
           [(1 # 2)%Q; (2 # 2)%Q])
  /\ @try_download Demo.flaky "http://cdn/seg0.ts" [] 30 1 (1 # 2) world0
     = (Ok (false, None, Some 500),
        World (replicate 2 (Request "http://cdn/seg0.ts" [] 30))
              [(1 # 2)%Q]).
Proof.
  split.
  - apply (proj1 (proj1 (proj2 (proj2 (@try_download_retry_policy Demo.flaky
             "http://cdn/seg0.ts" [] 30 2 (1 # 2) world0))) Demo.flaky_payload
             eq_refl eq_refl eq_refl)); [lia|reflexivity|reflexivity].
  - apply (proj2 (proj1 (proj2 (proj2 (@try_download_retry_policy Demo.flaky
             "http://cdn/seg0.ts" [] 30 1 (1 # 2) world0))) Demo.flaky_payload
             eq_refl eq_refl eq_refl)); reflexivity.
Defined.

End FetchProps.

(** ** Segment file names *)
Module NameFacts.
Import PyStr Py Names SpecWords StrFacts.

Lemma fixed_width_append k : forall n acc t,
  fixed_width k n acc +:+ t = fixed_width k n (acc +:+ t).
Proof.
  induction k as [|k IH]; intros n acc t; simpl; [reflexivity|].
  now rewrite IH, append_cons.
Qed.

Lemma fixed_width_length k : forall n acc,
  String.length (fixed_width k n acc) = (k + String.length acc)%nat.
Proof.
  induction k as [|k IH]; intros n acc; simpl; [reflexivity|].
  rewrite IH. simpl. lia.
Qed.

Lemma zeros_snoc m acc : zeros m +:+ String "0" acc = String "0" (zeros m +:+ acc).
Proof.
  induction m as [|m IH]; simpl; [reflexivity|].
  now rewrite !append_cons, IH.
Qed.

Lemma fixed_width_zero m acc : fixed_width m 0 acc = zeros m +:+ acc.
Proof.
  revert acc. induction m as [|m IH]; intros acc; simpl; [reflexivity|].
  rewrite append_cons. change (0 / 10)%N with 0%N.
  change (digit_char (0 mod 10)) with "0"%char.
  now rewrite IH, zeros_snoc.
Qed.

(** Padding with zeros widens the field. *)
Lemma fixed_width_pad m k : forall n acc,
  (n < 10 ^ N.of_nat k)%N ->
  zeros m +:+ fixed_width k n acc = fixed_width (m + k) n acc.
Proof.
  induction k as [|k IH]; intros n acc Hn.
  - change (N.of_nat 0) with 0%N in Hn. rewrite N.pow_0_r in Hn.
    assert (n = 0%N) as -> by lia.
    rewrite Nat.add_0_r. simpl. now rewrite fixed_width_zero.
  - rewrite <- plus_n_Sm. simpl. apply IH.
    rewrite Nat2N.inj_succ, N.pow_succ_r' in Hn.
    apply N.Div0.div_lt_upper_bound. lia.
Qed.

(** [decimal_onto] writes as many digits as the number has. *)
Lemma decimal_onto_fixed fuel : forall n acc,
  (0 < fuel)%nat ->
  (n < 10 ^ N.of_nat fuel)%N ->
  exists k, (0 < k <= fuel)%nat
    /\ decimal_onto fuel n acc = fixed_width k n acc
    /\ (n < 10 ^ N.of_nat k)%N
    /\ (k = 1%nat \/ 10 ^ N.of_nat (k - 1) <= n)%N.
Proof.
  induction fuel as [|fuel IH]; intros n acc Hfuel Hn; [lia|].
  cbn [decimal_onto].
  rewrite Nat2N.inj_succ, N.pow_succ_r' in Hn.
  destruct (n / 10 =? 0)%N eqn:Hq.
  - apply N.eqb_eq in Hq. exists 1%nat. repeat split; try lia.
    + apply N.div_small_iff in Hq; [|lia].
      change (N.of_nat 1) with 1%N. rewrite N.pow_1_r. exact Hq.
  - apply N.eqb_neq in Hq.
    assert (Hlt : (n / 10 < 10 ^ N.of_nat fuel)%N)
      by (apply N.Div0.div_lt_upper_bound; lia).
    assert (Hfuel' : (0 < fuel)%nat).
    { destruct (Nat.eq_dec fuel 0%nat) as [Hz|Hnz]; [|lia].
      rewrite Hz in Hlt. change (N.of_nat 0) with 0%N in Hlt.
      rewrite N.pow_0_r in Hlt. exfalso. apply Hq. now apply N.lt_1_r. }
    destruct (IH (n / 10)%N (String (digit_char (n mod 10)) acc) Hfuel' Hlt)
      as (k & Hk & Heq & Hub & Hlb).
    exists (S k). split; [lia|]. split; [exact Heq|].
    rewrite Nat2N.inj_succ, N.pow_succ_r'.
    pose proof (N.div_mod n 10 ltac:(lia)) as Hdm.
    pose proof (N.mod_lt n 10 ltac:(lia)) as Hmod.
    split; [lia|]. right.
    replace (S k - 1)%nat with k by lia.
    destruct Hlb as [->|Hlb].
    + change (N.of_nat 1) with 1%N. rewrite N.pow_1_r.
      destruct (N.lt_ge_cases n 10) as [Hsmall|Hbig]; [|exact Hbig].
      exfalso. apply Hq. now apply N.div_small.
    + replace k with (S (k - 1)) at 1 by lia.
      rewrite Nat2N.inj_succ, N.pow_succ_r'.
      eapply N.le_trans; [apply N.mul_le_mono_l, Hlb|apply N.Div0.mul_div_le].
Qed.

Lemma str_of_N_fixed n :
  exists k, (0 < k)%nat /\ str_of_N n = fixed_width k n EmptyString
    /\ (n < 10 ^ N.of_nat k)%N
    /\ (k = 1%nat \/ 10 ^ N.of_nat (k - 1) <= n)%N.
Proof.
  unfold str_of_N.
  destruct (decimal_onto_fixed (S (N.to_nat (N.log2 n))) n EmptyString)
    as (k & Hk & Hrest).
  - lia.
  - rewrite Nat2N.inj_succ, N2Nat.id.
    destruct (N.eq_dec n 0%N) as [->|Hn0]; [reflexivity|].
    pose proof (N.log2_spec n ltac:(lia)) as [_ Hub].
    eapply N.lt_le_trans; [exact Hub|].
    apply N.pow_le_mono_l. lia.
  - exists k. split; [lia|exact Hrest].
Qed.

(** Below 10^6 the name of a segment is its six digits and [.ts]. *)
Lemma segment_name_fixed i :
  (N.of_nat i < 1000000)%N ->
  segment_name i = fixed_width 6 (N.of_nat i) ".ts".
Proof.
  intros Hi. unfold segment_name, zfill.
  destruct (str_of_N_fixed (N.of_nat i)) as (k & Hk & -> & Hub & Hlb).
  rewrite fixed_width_length. simpl String.length. rewrite Nat.add_0_r.
  assert (Hk6 : (k <= 6)%nat).
  { destruct Hlb as [->|Hlb]; [lia|].
    destruct (Nat.le_gt_cases k 6) as [Hle|Hgt]; [exact Hle|]. exfalso.
    assert (H6 : (10 ^ 6 <= 10 ^ N.of_nat (k - 1))%N)
      by (apply N.pow_le_mono_r; lia).
    pose proof (N.le_trans _ _ _ H6 Hlb) as Hge.
    change (10 ^ 6)%N with 1000000%N in Hge.
    apply (N.lt_irrefl 1000000). eapply N.le_lt_trans; eassumption. }
  rewrite fixed_width_pad by exact Hub.
  replace (6 - k + k)%nat with 6%nat by lia.
  now rewrite fixed_width_append.
Qed.

Lemma ascii_compare_refl c : Ascii.compare c c = Eq.
Proof. unfold Ascii.compare. apply N.compare_refl. Qed.

Lemma digit_char_lt x y :
  (x < y)%N -> (y < 10)%N -> Ascii.compare (digit_char x) (digit_char y) = Lt.
Proof.
  intros Hxy Hy. unfold Ascii.compare, digit_char.
  rewrite !N_ascii_embedding by lia. apply N.compare_lt_iff. lia.
Qed.

(** Equal digits in front do not change the comparison. *)
Lemma fixed_width_compare_eq k : forall n acc acc',
  String.compare (fixed_width k n acc) (fixed_width k n acc')
  = String.compare acc acc'.
Proof.
  induction k as [|k IH]; intros n acc acc'; simpl; [reflexivity|].
  rewrite IH. simpl. now rewrite ascii_compare_refl.
Qed.

(** Fields of equal width compare as the numbers they hold. *)
Lemma fixed_width_compare_lt k : forall a b acc acc',
  (a < b)%N -> (b < 10 ^ N.of_nat k)%N ->
  String.compare (fixed_width k a acc) (fixed_width k b acc') = Lt.
Proof.
  induction k as [|k IH]; intros a b acc acc' Hab Hb.
  - change (N.of_nat 0) with 0%N in Hb. rewrite N.pow_0_r in Hb. lia.
  - simpl. rewrite Nat2N.inj_succ, N.pow_succ_r' in Hb.
    assert (Hdiv : (a / 10 <= b / 10)%N) by (apply N.Div0.div_le_mono; lia).
    apply N.lt_eq_cases in Hdiv as [Hlt|Heq].
    + apply IH; [exact Hlt|]. apply N.Div0.div_lt_upper_bound. exact Hb.
    + rewrite Heq, fixed_width_compare_eq. simpl.
      rewrite digit_char_lt; [reflexivity| |apply N.mod_lt; lia].
      pose proof (N.div_mod a 10 ltac:(lia)) as Ha.
      pose proof (N.div_mod b 10 ltac:(lia)) as Hb'.
      rewrite Heq in Ha.
      apply (N.add_lt_mono_l _ _ (10 * (b / 10))).
      now rewrite <- Ha, <- Hb'.
Qed.

(** Below 10^6 segment names are ordered as their indices. *)
Lemma segment_name_lt i j :
  (i < j)%nat -> (N.of_nat j < 1000000)%N ->
  String.compare (segment_name i) (segment_name j) = Lt.
Proof.
  intros Hij Hj.
  rewrite !segment_name_fixed by lia.
  apply fixed_width_compare_lt; [lia|exact Hj].
Qed.

Lemma string_compare_refl s : String.compare s s = Eq.
Proof.
  induction s as [|c s IH]; simpl; [reflexivity|].
  now rewrite ascii_compare_refl.
Qed.

Lemma segment_name_inj i j :
  (N.of_nat i < 1000000)%N -> (N.of_nat j < 1000000)%N ->
  segment_name i = segment_name j -> i = j.
Proof.
  intros Hi Hj Heq.
  destruct (Nat.lt_trichotomy i j) as [Hlt|[Heq'|Hgt]]; [|exact Heq'|].
  - pose proof (segment_name_lt i j Hlt Hj) as Hc.
    rewrite Heq, string_compare_refl in Hc. discriminate.
  - pose proof (segment_name_lt j i Hgt Hi) as Hc.
    rewrite Heq, string_compare_refl in Hc. discriminate.
Qed.

Lemma rev_onto_append s : forall t acc,
  rev_onto (s +:+ t) acc = rev_onto t (rev_onto s acc).
Proof.
  induction s as [|c s IH]; intros t acc; [reflexivity|].
  rewrite append_cons. simpl. apply IH.
Qed.

Lemma endswith_ts_segment_name i : endswith ".ts" (segment_name i) = true.
Proof.
  unfold endswith, segment_name, rev. rewrite rev_onto_append.
  unfold startswith. simpl. now destruct (rev_onto _ _).
Qed.

Lemma endswith_ts_part_name i : endswith ".ts" (part_name i) = false.
Proof.
  unfold endswith, part_name, rev. rewrite rev_onto_append. reflexivity.
Qed.

Lemma segment_name_not_part_name i j : segment_name i <> part_name j.
Proof.
  intros Heq. pose proof (endswith_ts_segment_name i) as Hs.
  rewrite Heq, endswith_ts_part_name in Hs. discriminate.
Qed.

Lemma length_append s t :
  String.length (s +:+ t) = (String.length s + String.length t)%nat.
Proof.
  induction s as [|c s IH]; [reflexivity|].
  rewrite append_cons. simpl. now rewrite IH.
Qed.

Lemma append_cancel_r t : forall s s', s +:+ t = s' +:+ t -> s = s'.
Proof.
  induction s as [|c s IH]; intros [|c' s'] Heq.
  - reflexivity.
  - exfalso. apply (f_equal String.length) in Heq.
    rewrite append_nil_l, length_append in Heq. simpl in Heq. lia.
  - exfalso. apply (f_equal String.length) in Heq.
    rewrite append_nil_l, length_append in Heq. simpl in Heq. lia.
  - rewrite !append_cons in Heq. injection Heq as -> Heq.
    f_equal. now apply IH.
Qed.

Lemma part_name_inj i j :
  (N.of_nat i < 1000000)%N -> (N.of_nat j < 1000000)%N ->
  part_name i = part_name j -> i = j.
Proof.
  intros Hi Hj Heq. apply segment_name_inj; [exact Hi|exact Hj|].
  unfold part_name in Heq. now apply append_cancel_r in Heq.
Qed.

End NameFacts.

(** ** The assembler: C9 *)
Module AssemblerProps.
Import PyStr Py Names Assembler SpecWords StrFacts NameFacts.

Lemma leb_compare s t : String.leb s t = true <-> String.compare s t <> Gt.
Proof. unfold String.leb. destruct (String.compare s t); split; congruence. Qed.

Lemma ltb_compare s t : String.ltb s t = true <-> String.compare s t = Lt.
Proof. unfold String.ltb. destruct (String.compare s t); split; congruence. Qed.

Lemma compare_lt_trans s t u :
  String.compare s t = Lt -> String.compare t u = Lt -> String.compare s u = Lt.
Proof.
  intros Hst Htu. apply String_as_OT.cmp_lt.
  eapply String_as_OT.lt_trans; apply String_as_OT.cmp_lt; eassumption.
Qed.

#[local] Instance name_le_transitive : Transitive name_le.
Proof.
  intros a b c. unfold name_le. rewrite !leb_compare. intros Hab Hbc.
  destruct (String.compare (fst a) (fst b)) eqn:Eab; [| |congruence].
  - apply String.compare_eq_iff in Eab. now rewrite Eab.
  - destruct (String.compare (fst b) (fst c)) eqn:Ebc; [| |congruence].
    + apply String.compare_eq_iff in Ebc. rewrite <- Ebc, Eab. discriminate.
    + rewrite (compare_lt_trans _ _ _ Eab Ebc). discriminate.
Qed.

Lemma not_ltb_name_le e e' : String.ltb (fst e) (fst e') = false -> name_le e' e.
Proof.
  unfold name_le. rewrite leb_compare, String.compare_antisym.
  unfold String.ltb. destruct (String.compare (fst e) (fst e')); simpl; congruence.
Qed.

Lemma ltb_name_le e e' : String.ltb (fst e) (fst e') = true -> name_le e e'.
Proof.
  unfold name_le. rewrite leb_compare, ltb_compare. congruence.
Qed.

Lemma insert_sorted_perm e l : insert_sorted e l ≡ₚ e :: l.
Proof.
  induction l as [|e' l IH]; simpl; [reflexivity|].
  destruct (String.ltb (fst e) (fst e')); [reflexivity|].
  rewrite IH. apply perm_swap.
Qed.

Lemma insert_sorted_sorted e l :
  Sorted name_le l -> Sorted name_le (insert_sorted e l).
Proof.
  induction l as [|e' l IH]; intros Hl; simpl.
  - repeat constructor.
  - destruct (String.ltb (fst e) (fst e')) eqn:Hlt.
    + constructor; [exact Hl|]. constructor. now apply ltb_name_le.
    + apply Sorted_inv in Hl as [Hl Hhd].
      constructor; [now apply IH|].
      destruct l as [|e'' l]; simpl.
      * constructor. now apply not_ltb_name_le.
      * destruct (String.ltb (fst e) (fst e'')).
        -- constructor. now apply not_ltb_name_le.
        -- constructor. now apply HdRel_inv in Hhd.
Qed.

Lemma fold_insert_sorted l : forall acc,
  Sorted name_le acc ->
  fold_left (fun sorted e => insert_sorted e sorted) l acc ≡ₚ acc ++ l
  /\ Sorted name_le (fold_left (fun sorted e => insert_sorted e sorted) l acc).
Proof.
  induction l as [|e l IH]; intros acc Hacc; simpl.
  - now rewrite app_nil_r.
  - destruct (IH (insert_sorted e acc) (insert_sorted_sorted e acc Hacc))
      as [Hperm Hsorted].
    split; [|exact Hsorted].
    rewrite Hperm, insert_sorted_perm. apply (Permutation_middle acc l e).
Qed.

(** [sorted] returns the files it is given, ordered by name. *)
Lemma py_sorted_spec l : py_sorted l ≡ₚ l /\ Sorted name_le (py_sorted l).
Proof. apply (fold_insert_sorted l []). constructor. Qed.

Lemma glob_ts_perm dir dir' : dir ≡ₚ dir' -> glob_ts dir ≡ₚ glob_ts dir'.
Proof.
  unfold glob_ts. induction 1 as [|x l l' _ IH|x y l|l l' l'' _ IH1 _ IH2]; simpl.
  - reflexivity.
  - destruct (endswith ".ts" (fst x)); [now constructor|exact IH].
  - destruct (endswith ".ts" (fst x)), (endswith ".ts" (fst y));
      try reflexivity. apply perm_swap.
  - now rewrite IH1.
Qed.

Lemma glob_ts_segments data indices others :
  Forall (fun e : string * bytes => endswith ".ts" (fst e) = false) others ->
  glob_ts (segment_files data indices ++ others) = segment_files data indices.
Proof.
  intros Hothers. unfold glob_ts. rewrite List.filter_app.
  replace (List.filter _ others) with (@nil (string * bytes)).
  - rewrite app_nil_r. unfold segment_files.
    induction indices as [|i indices IH]; simpl; [reflexivity|].
    now rewrite endswith_ts_segment_name, IH.
  - induction Hothers as [|e others He _ IH]; simpl; [reflexivity|].
    now rewrite He.
Qed.

Lemma segment_files_sorted data indices :
  StronglySorted lt indices ->
  Forall (fun i => (N.of_nat i < 1000000)%N) indices ->
  Sorted name_le (segment_files data indices).
Proof.
  intros Hsorted Hbound. apply StronglySorted_Sorted.
  induction Hsorted as [|i indices Hs IH Hi]; simpl; constructor.
  - apply IH. now inversion Hbound.
  - unfold segment_files. apply Forall_fmap. simpl.
    apply Forall_forall. intros j Hj.
    rewrite Forall_forall in Hi. specialize (Hi j Hj).
    inversion Hbound as [|? ? _ Hrest]; subst.
    rewrite Forall_forall in Hrest. specialize (Hrest j Hj).
    unfold name_le. simpl. apply leb_compare.
    rewrite (segment_name_lt i j Hi Hrest). discriminate.
Qed.

(** The files of distinct segments below 10^6, in whatever order they are
    listed, come out of [sorted] in index order. *)
Lemma py_sorted_segment_files data indices listed :
  StronglySorted lt indices ->
  Forall (fun i => (N.of_nat i < 1000000)%N) indices ->
  listed ≡ₚ segment_files data indices ->
  py_sorted listed = segment_files data indices.
Proof.
  intros Hsorted Hbound Hperm.
  destruct (py_sorted_spec listed) as [Hp Hs].
  apply (Sorted_unique_strong name_le); [|exact Hs| |].
  - intros x1 x2 H1 H2 H12 H21.
    assert (H1' : x1 ∈ segment_files data indices) by now rewrite <- Hperm, <- Hp.
    unfold segment_files in H1', H2.
    apply list_elem_of_fmap in H1' as (i & -> & Hi).
    apply list_elem_of_fmap in H2 as (j & -> & Hj).
    unfold name_le in H12, H21. simpl in H12, H21.
    pose proof (String.leb_antisym _ _ H12 H21) as Hname.
    rewrite Forall_forall in Hbound.
    now rewrite (segment_name_inj i j (Hbound i Hi) (Hbound j Hj) Hname).
  - now apply segment_files_sorted.
  - now rewrite Hp.
Qed.

(** C9.  [concat_segments_to_ts] writes the [.ts] files of the directory
    in the order of their names, whatever order the file system lists them
    in.  For the files of distinct segment indices below 10^6, named with
    six zero-padded digits, that is index order: the output is the
    concatenation of their contents by increasing index, other files being
    ignored.  A directory listed as 000000.ts, 000002.ts, 000001.ts is
    written as 000000, 000001, 000002.  Without any [.ts] file the
    function raises "No segment files to merge". *)
Theorem concat_segments_in_name_order :
  (forall data indices others dir,
     StronglySorted lt indices ->
     Forall (fun i => (N.of_nat i < 1000000)%N) indices ->
     indices <> [] ->
     Forall (fun e : string * bytes => endswith ".ts" (fst e) = false) others ->
     dir ≡ₚ segment_files data indices ++ others ->
     concat_segments_to_ts dir = Ok (concat (map data indices)))
  /\ (forall a b c : bytes,
        concat_segments_to_ts
          [("000000.ts", a); ("000002.ts", c); ("000001.ts", b)]
        = Ok (a ++ b ++ c))
  /\ (forall dir, exists parts,
        parts ≡ₚ glob_ts dir /\ Sorted name_le parts
        /\ concat_segments_to_ts dir
           = match parts with
             | [] => Raise (RuntimeError "No segment files to merge")
             | _ :: _ => Ok (concat (map snd parts))
             end)
  /\ (forall dir, glob_ts dir = [] ->
        concat_segments_to_ts dir
        = Raise (RuntimeError "No segment files to merge")).
Proof.
  split; [|split; [|split]].
  - intros data indices others dir Hsorted Hbound Hne Hothers Hperm.
    unfold concat_segments_to_ts.
    rewrite (py_sorted_segment_files data indices (glob_ts dir) Hsorted Hbound).
    + assert (Hdata : map snd (segment_files data indices) = map data indices).
      { unfold segment_files. rewrite List.map_map. now apply List.map_ext. }
      destruct indices as [|i indices]; [contradiction|].
      rewrite <- Hdata. reflexivity.
    + rewrite (glob_ts_perm _ _ Hperm). now rewrite glob_ts_segments.
  - intros a b c. unfold concat_segments_to_ts. simpl. now rewrite app_nil_r.
  - intros dir. exists (py_sorted (glob_ts dir)).
    destruct (py_sorted_spec (glob_ts dir)) as [Hp Hs].
    split; [exact Hp|]. split; [exact Hs|]. reflexivity.
  - intros dir Hnone. unfold concat_segments_to_ts. now rewrite Hnone.
Qed.

(** C9 at three segments listed out of order, next to a [.part] file. *)
Lemma concat_segments_in_name_order_witness :
  concat_segments_to_ts
    [(segment_name 0, Demo.segment_payload 0);
     (part_name 3, Demo.segment_payload 3);
     (segment_name 2, Demo.segment_payload 2);
     (segment_name 1, Demo.segment_payload 1)]
  = Ok (concat (map Demo.segment_payload [0; 1; 2]%nat)).
Proof.
  apply (proj1 concat_segments_in_name_order Demo.segment_payload
           [0; 1; 2]%nat [(part_name 3, Demo.segment_payload 3)]).
  - repeat constructor.
  - repeat constructor.
  - discriminate.
  - repeat constructor.
  - simpl. apply perm_skip.
    exact (Permutation_rev [(part_name 3, Demo.segment_payload 3);
                            (segment_name 2, Demo.segment_payload 2);
                            (segment_name 1, Demo.segment_payload 1)]).
Defined.

End AssemblerProps.

(** ** The worker pool: C8 *)
Module PoolFacts.
Import PyStr Py Fetch Names Pool SpecWords PoolSpec StrFacts NameFacts ChainFacts.

Lemma sum_moves_insert ts : forall i t t',
  ts !! i = Some t ->
  (sum_list_with moves_left (<[i := t']> ts) + moves_left t
   = sum_list_with moves_left ts + moves_left t')%nat.
Proof.
  induction ts as [|x ts IH]; intros [|i] t t' Hi; simpl in *; try discriminate.
  - injection Hi as ->. lia.
  - specialize (IH i t t' Hi). lia.
Qed.

Lemma done_count_insert ts : forall i t t',
  ts !! i = Some t ->
  done_count (<[i := t']> ts) = done_count ts - counted t + counted t'.
Proof.
  induction ts as [|x ts IH]; intros [|i] t t' Hi; simpl in *; try discriminate.
  - injection Hi as ->. lia.
  - rewrite (IH i t t' Hi). lia.
Qed.

Lemma printed_from_insert ts : forall s i t t',
  ts !! i = Some t -> printed (s + i) t = [] ->
  printed_from s (<[i := t']> ts) ≡ₚ printed_from s ts ++ printed (s + i) t'.
Proof.
  induction ts as [|x ts IH]; intros s [|i] t t' Hi Hnone; simpl in *;
    try discriminate.
  - injection Hi as ->. rewrite Nat.add_0_r in *. rewrite Hnone. simpl.
    apply Permutation_app_comm.
  - rewrite (IH (S s) i t t' Hi).
    + replace (S s + i)%nat with (s + S i)%nat by lia. now rewrite app_assoc.
    + now replace (S s + i)%nat with (s + S i)%nat by lia.
Qed.

Lemma done_count_submitted {A} (l : list A) :
  done_count (map (fun _ => Submitted) l) = 0.
Proof. induction l as [|x l IH]; simpl; [reflexivity|]. now rewrite IH. Qed.

Lemma printed_from_submitted {A} (l : list A) s :
  printed_from s (map (fun _ => Submitted) l) = [].
Proof.
  revert s. induction l as [|x l IH]; intros s; simpl; [reflexivity|apply IH].
Qed.

Lemma no_running_0 ts :
  Forall (fun t => is_running t = false) ts ->
  length (List.filter is_running ts) = 0%nat.
Proof.
  induction 1 as [|t ts Ht _ IH]; simpl; [reflexivity|]. now rewrite Ht.
Qed.

Section Pool.
Context `{Externals}.
Variables (outcome_of : nat -> option bytes) (urls : list string)
          (hdrs : headers) (timeout retries concurrency : Z).
Hypothesis Hsteady : steady outcome_of urls.
Hypothesis Hretries : 0 <= retries.
Hypothesis Hworkers : 0 < concurrency.
Hypothesis Hsize : (N.of_nat (length urls) <= 1000000)%N.

Let n := length urls.
Let advance := advance urls hdrs timeout retries concurrency.
Let invariant := pool_invariant outcome_of n.

(** A steady network decides [try_download] at the first attempt. *)
Lemma try_download_steady i url w :
  urls !! i = Some url ->
  try_download url hdrs timeout retries (1 # 2) w
  = (Ok (final_result (answer_of outcome_of i)), after_top url hdrs timeout w).
Proof.
  intros Hurl. unfold try_download, range.
  replace (retries + 1) with (retries + 1 - 0) by lia.
  rewrite (FetchProps.for_attempts_run url hdrs timeout retries (1 # 2) 0 0 w);
    try lia.
  - rewrite (Hsteady i url Hurl). f_equal.
    unfold after_attempts, after_top. simpl. now rewrite app_nil_r.
  - left. rewrite (Hsteady i url Hurl). unfold answer_of.
    now destruct (outcome_of i).
Qed.

Lemma names_apart i j :
  (i < n)%nat -> (j < n)%nat -> i <> j ->
  segment_name i <> segment_name j /\ part_name i <> part_name j.
Proof.
  intros Hi Hj Hij. subst n.
  split; intros Heq; apply Hij;
    [apply segment_name_inj in Heq|apply part_name_inj in Heq]; lia.
Qed.

(** Consistency of a task looks at its two files only. *)
Lemma task_consistent_ext j t fs fs' :
  fs' !! segment_name j = fs !! segment_name j ->
  fs' !! part_name j = fs !! part_name j ->
  task_consistent outcome_of j t fs -> task_consistent outcome_of j t fs'.
Proof.
  intros Hs Hp. unfold task_consistent, on_disk. rewrite Hs, Hp.
  destruct t; tauto.
Qed.

Lemma invariant_initial : invariant (initial urls).
Proof.
  constructor; simpl.
  - apply List.length_map.
  - intros i t Hi. rewrite list_lookup_fmap in Hi.
    destruct (urls !! i); [|discriminate]. injection Hi as <-.
    split; apply lookup_empty.
  - intros name [x Hx]. rewrite lookup_empty in Hx. discriminate.
  - now rewrite done_count_submitted.
  - now rewrite printed_from_submitted.
Qed.

(** One task changes state, touching at most its own two files. *)
Lemma invariant_update p i t t' fs' done' bytes' w' fails' :
  invariant p -> tasks p !! i = Some t ->
  task_consistent outcome_of i t' fs' ->
  (forall j, j <> i -> (j < n)%nat ->
     fs' !! segment_name j = files p !! segment_name j
     /\ fs' !! part_name j = files p !! part_name j) ->
  (forall name, is_Some (fs' !! name) ->
     is_Some (files p !! name) \/ name = segment_name i \/ name = part_name i) ->
  done' = progress_done p - counted t + counted t' ->
  printed i t = [] ->
  fails' ≡ₚ failures p ++ printed i t' ->
  invariant (MkPool (<[i := t']> (tasks p)) fs' done' bytes' w' fails').
Proof.
  intros [Hlen Htasks Hfiles Hdone Hfail] Ht Hcons Hothers Hdom Hd Hnone Hf.
  assert (Hi : (i < n)%nat) by (apply lookup_lt_Some in Ht; lia).
  constructor; simpl.
  - now rewrite length_insert.
  - intros j tj Hj. destruct (decide (j = i)) as [->|Hne].
    + rewrite list_lookup_insert_eq in Hj by (rewrite Hlen; exact Hi).
      now injection Hj as <-.
    + rewrite list_lookup_insert_ne in Hj by congruence.
      assert (Hjn : (j < n)%nat) by (apply lookup_lt_Some in Hj; lia).
      destruct (Hothers j Hne Hjn) as [Hs Hp].
      eapply task_consistent_ext; [exact Hs|exact Hp|]. now apply Htasks.
  - intros name Hname. destruct (Hdom name Hname) as [Hold|Hnew].
    + now apply Hfiles.
    + exists i. split; [exact Hi|exact Hnew].
  - rewrite Hd, Hdone. now rewrite (done_count_insert _ _ _ _ Ht).
  - rewrite Hf, Hfail.
    now rewrite (printed_from_insert (tasks p) 0%nat i t t' Ht Hnone).
Qed.

Lemma others_after_part i (d : bytes) (fs : gmap string bytes) :
  (i < n)%nat ->
  forall j, j <> i -> (j < n)%nat ->
    <[part_name i := d]> fs !! segment_name j = fs !! segment_name j
    /\ <[part_name i := d]> fs !! part_name j = fs !! part_name j.
Proof.
  intros Hi j Hne Hj. destruct (names_apart i j Hi Hj ltac:(congruence)) as [_ Hp].
  split; apply lookup_insert_ne; [|exact Hp].
  intros Heq. now apply (segment_name_not_part_name j i).
Qed.

Lemma others_after_replace i (d : bytes) (fs : gmap string bytes) :
  (i < n)%nat ->
  forall j, j <> i -> (j < n)%nat ->
    <[segment_name i := d]> (delete (part_name i) fs) !! segment_name j
    = fs !! segment_name j
    /\ <[segment_name i := d]> (delete (part_name i) fs) !! part_name j
       = fs !! part_name j.
Proof.
  intros Hi j Hne Hj.
  destruct (names_apart i j Hi Hj ltac:(congruence)) as [Hs Hp].
  split.
  - rewrite lookup_insert_ne by exact Hs. apply lookup_delete_ne.
    intros Heq. now apply (segment_name_not_part_name j i).
  - rewrite lookup_insert_ne by apply segment_name_not_part_name.
    now apply lookup_delete_ne.
Qed.

(** Every move keeps the invariant. *)
Lemma invariant_advance i p p' :
  invariant p -> advance i p = Some p' -> invariant p'.
Proof.
  intros Hinv Hadv. pose proof Hinv as [Hlen Htasks _ _ _].
  unfold advance, Pool.advance in Hadv.
  destruct (tasks p !! i) as [t|] eqn:Ht; [|discriminate].
  assert (Hi : (i < n)%nat) by (apply lookup_lt_Some in Ht; lia).
  pose proof (Htasks i t Ht) as Hcons.
  destruct t as [|d c|d c|d c|ok c|ok c]; simpl in Hcons.
  - destruct (_ && _); [|discriminate].
    destruct (urls !! i) as [url|] eqn:Hurl; [|discriminate].
    rewrite (try_download_steady i url _ Hurl) in Hadv.
    unfold final_result, answer_of, status_of in Hadv.
    destruct (outcome_of i) as [d|] eqn:Hout; injection Hadv as <-;
      refine (invariant_update p i _ _ _ _ _ _ _ Hinv Ht _ _ _ _ _ _).
    + simpl. now rewrite Hout.
    + tauto.
    + tauto.
    + simpl. lia.
    + reflexivity.
    + simpl. now rewrite app_nil_r.
    + simpl. now rewrite Hout.
    + tauto.
    + tauto.
    + simpl. lia.
    + reflexivity.
    + simpl. now rewrite app_nil_r.
  - injection Hadv as <-. destruct Hcons as (Hout & -> & Hseg & Hpart).
    refine (invariant_update p i _ _ _ _ _ _ _ Hinv Ht _ _ _ _ _ _).
    + simpl. repeat split; try assumption.
      * rewrite lookup_insert_ne; [exact Hseg|].
        intros Heq. now apply (segment_name_not_part_name i i).
      * apply lookup_insert_eq.
    + now apply others_after_part.
    + intros name Hname. destruct (decide (part_name i = name)) as [<-|Hne];
        [tauto|]. rewrite lookup_insert_ne in Hname by exact Hne. tauto.
    + simpl. lia.
    + reflexivity.
    + simpl. now rewrite app_nil_r.
  - injection Hadv as <-. destruct Hcons as (Hout & -> & Hseg & Hpart).
    refine (invariant_update p i _ _ _ _ _ _ _ Hinv Ht _ _ _ _ _ _).
    + simpl. repeat split; try assumption.
      * apply lookup_insert_eq.
      * rewrite lookup_insert_ne by apply segment_name_not_part_name.
        apply lookup_delete_eq.
    + now apply others_after_replace.
    + intros name Hname.
      destruct (decide (segment_name i = name)) as [<-|Hne]; [tauto|].
      rewrite lookup_insert_ne in Hname by exact Hne.
      destruct (decide (part_name i = name)) as [<-|Hne']; [tauto|].
      rewrite lookup_delete_ne in Hname by exact Hne'. tauto.
    + simpl. lia.
    + reflexivity.
    + simpl. now rewrite app_nil_r.
  - injection Hadv as <-. destruct Hcons as (Hout & -> & Hseg & Hpart).
    refine (invariant_update p i _ _ _ _ _ _ _ Hinv Ht _ _ _ _ _ _).
    + simpl. rewrite Hout. repeat split; assumption.
    + tauto.
    + tauto.
    + simpl. lia.
    + reflexivity.
    + simpl. now rewrite app_nil_r.
  - injection Hadv as <-.
    refine (invariant_update p i _ _ _ _ _ _ _ Hinv Ht _ _ _ _ _ _).
    + exact Hcons.
    + tauto.
    + tauto.
    + simpl. lia.
    + reflexivity.
    + destruct ok; simpl; [now rewrite app_nil_r|reflexivity].
  - discriminate.
Qed.

(** Until every result is collected some task can move: the pool neither
    blocks nor aborts. *)
Lemma invariant_progress p :
  invariant p -> finished p = false -> exists i p', advance i p = Some p'.
Proof.
  intros [Hlen Htasks _ _ _] Hfin.
  destruct (list_find (fun t => moves_left t <> 0%nat /\ moves_left t <> 5%nat)
                      (tasks p)) as [[i t]|] eqn:Hmoving.
  - apply list_find_Some in Hmoving as (Ht & Hmove & _).
    exists i. unfold advance, Pool.advance. rewrite Ht.
    destruct t; simpl in Hmove; try lia; eauto.
  - apply list_find_None in Hmoving.
    destruct (list_find (fun t => moves_left t = 5%nat) (tasks p))
      as [[i t]|] eqn:Hqueued.
    + apply list_find_Some in Hqueued as (Ht & Hfive & Hfirst).
      assert (t = Submitted) as -> by (destruct t; simpl in Hfive; lia || reflexivity).
      assert (Hi : (i < length urls)%nat) by (apply lookup_lt_Some in Ht; lia).
      destruct (lookup_lt_is_Some_2 urls i Hi) as [url Hurl].
      exists i. unfold advance, Pool.advance. rewrite Ht.
      assert (Hidle : running p = 0%nat).
      { apply no_running_0. eapply Forall_impl; [exact Hmoving|].
        intros t Hnot. destruct t; simpl in *; try reflexivity; exfalso;
          apply Hnot; lia. }
      rewrite Hidle.
      assert (Hfree : (Z.of_nat 0 <? concurrency) = true)
        by (apply Z.ltb_lt; simpl; lia).
      rewrite Hfree.
      replace (forallb (fun t => negb (is_submitted t)) (take i (tasks p)))
        with true.
      * simpl. rewrite Hurl, (try_download_steady i url _ Hurl).
        destruct (final_result (answer_of outcome_of i)) as [[ok data] code].
        eauto.
      * symmetry. apply forallb_forall. intros t Hin.
        apply list_elem_of_In, list_elem_of_lookup in Hin as [j Hj].
        apply lookup_take_Some in Hj as [Hj Hji].
        specialize (Hfirst j t Hj Hji). destruct t; simpl in *; congruence.
    + apply list_find_None in Hqueued. exfalso.
      assert (Hall : finished p = true); [|congruence].
      unfold finished. apply forallb_forall. intros t Hin.
      apply list_elem_of_In in Hin.
      rewrite Forall_forall in Hmoving, Hqueued.
      specialize (Hmoving t Hin). specialize (Hqueued t Hin).
      destruct t; simpl in *; try reflexivity; exfalso; try lia;
        apply Hmoving; lia.
Qed.

Lemma delivered_elem name data :
  (name, data) ∈ delivered outcome_of n
  <-> exists i, (i < n)%nat /\ name = segment_name i /\ outcome_of i = Some data.
Proof.
  unfold delivered. rewrite list_elem_of_omap. split.
  - intros (i & Hi & Hout). apply elem_of_seq in Hi.
    destruct (outcome_of i) as [d|] eqn:Hd; [|discriminate].
    injection Hout as <- <-. exists i. split; [lia|]. split; [reflexivity|exact Hd].
  - intros (i & Hi & -> & Hout). exists i. split; [apply elem_of_seq; lia|].
    now rewrite Hout.
Qed.

(** Once every result is collected the state is the expected one. *)
Lemma invariant_finished p :
  invariant p -> finished p = true ->
  tasks p = collected_tasks outcome_of n
  /\ files p = list_to_map (delivered outcome_of n)
  /\ progress_done p = done_count (collected_tasks outcome_of n)
  /\ failures p ≡ₚ printed_from 0 (collected_tasks outcome_of n).
Proof.
  intros [Hlen Htasks Hfiles Hdone Hfail] Hfin.
  assert (Hts : tasks p = collected_tasks outcome_of n).
  { apply list_eq. intros i. unfold collected_tasks. rewrite list_lookup_fmap.
    destruct (tasks p !! i) as [t|] eqn:Ht.
    - assert (Hi : (i < n)%nat) by (apply lookup_lt_Some in Ht; lia).
      rewrite lookup_seq_lt by exact Hi. simpl.
      pose proof (Htasks i t Ht) as Hcons.
      unfold finished in Hfin. rewrite forallb_forall in Hfin.
      specialize (Hfin t ltac:(eapply list_elem_of_In, list_elem_of_lookup_2, Ht)).
      destruct t as [| | | | |ok c]; try discriminate. simpl in Hcons.
      destruct (outcome_of i); destruct Hcons as (-> & -> & _); reflexivity.
    - apply lookup_ge_None in Ht. rewrite lookup_seq_ge by lia. reflexivity. }
  split; [exact Hts|]. split; [|split; [now rewrite Hdone, Hts|now rewrite Hfail, Hts]].
  apply map_eq. intros name.
  destruct (list_to_map (delivered outcome_of n) !! name) as [data|] eqn:Hexp.
  - apply elem_of_list_to_map_2, delivered_elem in Hexp as (i & Hi & -> & Hout).
    destruct (lookup_lt_is_Some_2 (tasks p) i ltac:(lia)) as [t Ht].
    pose proof (Htasks i t Ht) as Hcons.
    rewrite Hts in Ht. unfold collected_tasks in Ht.
    rewrite list_lookup_fmap, lookup_seq_lt in Ht by exact Hi. simpl in Ht.
    rewrite Hout in Ht. injection Ht as <-. simpl in Hcons. rewrite Hout in Hcons.
    now destruct Hcons as (_ & _ & Hseg & _).
  - apply not_elem_of_list_to_map in Hexp.
    destruct (files p !! name) as [data|] eqn:Hname; [|reflexivity]. exfalso.
    destruct (Hfiles name ltac:(eauto)) as (i & Hi & Hor).
    destruct (lookup_lt_is_Some_2 (tasks p) i ltac:(lia)) as [t Ht].
    pose proof (Htasks i t Ht) as Hcons.
    rewrite Hts in Ht. unfold collected_tasks in Ht.
    rewrite list_lookup_fmap, lookup_seq_lt in Ht by exact Hi. simpl in Ht.
    destruct (outcome_of i) as [d|] eqn:Hout; injection Ht as <-;
      simpl in Hcons; rewrite Hout in Hcons;
      destruct Hcons as (_ & _ & Hseg & Hpart); destruct Hor as [-> | ->];
      try congruence.
    apply Hexp. apply list_elem_of_fmap. exists (segment_name i, d).
    split; [reflexivity|]. apply delivered_elem. eauto.
Qed.

(** The invariant holds in every state the pool can reach. *)
Lemma reachable_invariant p :
  rtc (step urls hdrs timeout retries concurrency) (initial urls) p ->
  invariant p.
Proof.
  revert p. apply rtc_ind_r.
  - apply invariant_initial.
  - intros p p' _ [i Hstep] IH. eapply invariant_advance; eassumption.
Qed.

End Pool.

(** Every move uses up at least one of the moves left. *)
Lemma advance_remaining `{Externals} urls hdrs timeout retries concurrency
    i p p' :
  advance urls hdrs timeout retries concurrency i p = Some p' ->
  (remaining p' < remaining p)%nat.
Proof.
  unfold advance, remaining.
  destruct (tasks p !! i) as [t|] eqn:Ht; [|discriminate].
  destruct t as [|d c|d c|d c|ok c|ok c].
  - destruct (_ && _); [|discriminate].
    destruct (urls !! i) as [url|]; [|discriminate].
    destruct (try_download _ _ _ _ _ _) as [[[[ok data] code]|e|] w'];
      try discriminate.
    intros [= <-]. simpl.
    pose proof (sum_moves_insert (tasks p) i Submitted
                  (match ok, data with
                   | true, Some d => Fetched d code
                   | _, _ => Returned ok code
                   end) Ht) as Hsum.
    simpl in Hsum. destruct ok, data; simpl in Hsum; lia.
  - intros [= <-]. simpl.
    pose proof (sum_moves_insert (tasks p) i _ (PartWritten d c) Ht) as Hsum.
    simpl in Hsum. lia.
  - intros [= <-]. simpl.
    pose proof (sum_moves_insert (tasks p) i _ (Replaced d c) Ht) as Hsum.
    simpl in Hsum. lia.
  - intros [= <-]. simpl.
    pose proof (sum_moves_insert (tasks p) i _ (Returned true c) Ht) as Hsum.
    simpl in Hsum. lia.
  - intros [= <-]. simpl.
    pose proof (sum_moves_insert (tasks p) i _ (Collected ok c) Ht) as Hsum.
    simpl in Hsum. lia.
  - discriminate.
Qed.

(** A schedule that runs is a sequence of steps. *)
Lemma run_schedule_steps `{Externals} urls hdrs timeout retries concurrency
    schedule : forall p p',
  run_schedule urls hdrs timeout retries concurrency schedule p = Some p' ->
  rtc (step urls hdrs timeout retries concurrency) p p'.
Proof.
  induction schedule as [|i schedule IH]; intros p p'; simpl.
  - intros [= <-]. constructor.
  - destruct (Pool.advance urls hdrs timeout retries concurrency i p)
      as [p1|] eqn:Hadv; [|discriminate].
    intros Hrun. eapply rtc_l; [exists i; exact Hadv|now apply IH].
Qed.

End PoolFacts.

(** ** C8: ten segments, five of them missing *)
Module PoolProps.
Import PyStr Py Fetch Names Pool SpecWords PoolSpec PoolFacts.

Lemma steps_remaining `{Externals} urls hdrs timeout retries concurrency p p' :
  rtc (step urls hdrs timeout retries concurrency) p p' ->
  (remaining p' <= remaining p)%nat.
Proof.
  induction 1 as [|p p1 p' [i Hstep] _ IH]; [lia|].
  apply advance_remaining in Hstep. lia.
Qed.

(** C8.  Take ten segments whose first five URLs always answer with data
    and whose last five always answer HTTP 404, a run with [retries >= 0]
    and at least one worker, and any state [p] that
    [download_segments_concurrent] can reach, whatever the interleaving of
    its tasks.  Every further step uses up one of at most 50 moves, and
    until every result is collected some step is possible: the batch runs
    to its end, no failure aborts it.  At the end the output directory
    holds exactly the files 000000.ts .. 000004.ts with the data of the
    segments 0..4, [progress["done"]] is 5 of 10 tasks, and the failures
    printed are those of the segments 5..9, each with code 404. *)
Theorem pool_half_missing `{Externals} urls hdrs timeout retries concurrency
    (data : nat -> bytes) p :
  length urls = 10%nat -> 0 <= retries -> 0 < concurrency ->
  steady (first_five data) urls ->
  rtc (step urls hdrs timeout retries concurrency) (initial urls) p ->
  (remaining p <= 50)%nat
  /\ (forall p', step urls hdrs timeout retries concurrency p p' ->
                 (remaining p' < remaining p)%nat)
  /\ (finished p = false ->
      exists p', step urls hdrs timeout retries concurrency p p')
  /\ (finished p = true ->
      files p = list_to_map [("000000.ts", data 0%nat); ("000001.ts", data 1%nat);
                             ("000002.ts", data 2%nat); ("000003.ts", data 3%nat);
                             ("000004.ts", data 4%nat)]
      /\ progress_done p = 5
      /\ length (tasks p) = 10%nat
      /\ failures p ≡ₚ [(5%nat, Some 404); (6%nat, Some 404); (7%nat, Some 404);
                        (8%nat, Some 404); (9%nat, Some 404)]).
Proof.
  intros Hlen Hretries Hworkers Hsteady Hreach.
  assert (Hsize : (N.of_nat (length urls) <= 1000000)%N) by (rewrite Hlen; lia).
  pose proof (reachable_invariant (first_five data) urls hdrs timeout retries
                concurrency Hsteady Hretries Hsize p Hreach) as Hinv.
  split; [|split; [|split]].
  - pose proof (steps_remaining _ _ _ _ _ _ _ Hreach) as Hle.
    unfold remaining at 2 in Hle. simpl in Hle.
    destruct urls as [|? [|? [|? [|? [|? [|? [|? [|? [|? [|? [|]]]]]]]]]]];
      try discriminate. exact Hle.
  - intros p' [i Hstep]. eapply advance_remaining, Hstep.
  - intros Hfin.
    destruct (invariant_progress (first_five data) urls hdrs timeout retries
                concurrency Hsteady Hretries Hworkers Hsize p Hinv Hfin)
      as (i & p' & Hstep).
    exists p', i. exact Hstep.
  - intros Hfin.
    destruct (invariant_finished (first_five data) urls Hsize p Hinv Hfin)
      as (Hts & Hfiles & Hdone & Hfail).
    rewrite Hlen in *.
    split; [exact Hfiles|]. split; [exact Hdone|].
    split; [|exact Hfail]. now destruct Hinv.
Qed.

Lemma half_missing_steady :
  @steady (first_five Demo.segment_payload) Demo.half_missing Demo.ten_urls.
Proof.
  intros i url Hurl k hdrs timeout.
  do 10 (destruct i as [|i]; [injection Hurl as <-; reflexivity|]).
  discriminate.
Qed.

(** C8 on [Demo.half_missing], along a schedule that finishes the
    segments out of order. *)
Lemma pool_half_missing_witness :
  exists p,
    @run_schedule Demo.half_missing Demo.ten_urls [] 30 3 8 Demo.schedule
      (initial Demo.ten_urls) = Some p
    /\ finished p = true
    /\ progress_done p = 5
    /\ files p
       = list_to_map [("000000.ts", Demo.segment_payload 0);
                      ("000001.ts", Demo.segment_payload 1);
                      ("000002.ts", Demo.segment_payload 2);
                      ("000003.ts", Demo.segment_payload 3);
                      ("000004.ts", Demo.segment_payload 4)].
Proof.
  destruct (@run_schedule Demo.half_missing Demo.ten_urls [] 30 3 8
              Demo.schedule (initial Demo.ten_urls)) as [p|] eqn:Hrun;
    [|vm_compute in Hrun; discriminate].
  exists p. split; [reflexivity|].
  assert (Hfin : finished p = true).
  { vm_compute in Hrun. injection Hrun as <-. reflexivity. }
  split; [exact Hfin|].
  pose proof (@pool_half_missing Demo.half_missing Demo.ten_urls [] 30 3 8
                Demo.segment_payload p eq_refl ltac:(lia) ltac:(lia)
                half_missing_steady
                (run_schedule_steps _ _ _ _ _ _ _ _ Hrun))
    as (_ & _ & _ & Hend).
  destruct (Hend Hfin) as (Hfiles & Hdone & _ & _).
  split; [exact Hdone|exact Hfiles].
Defined.

End PoolProps.

(** ** Request headers *)
Module HeaderFacts.
Import PyStr Py Headers StrFacts.

Lemma dict_get_set k k' v d :
  dict_get k (dict_set k' v d) = if String.eqb k' k then Some v else dict_get k d.
Proof.
  induction d as [|[k0 v0] d IH]; simpl.
  - reflexivity.
  - destruct (String.eqb k0 k') eqn:E0; simpl.
    + apply String.eqb_eq in E0. subst k0.
      now destruct (String.eqb k' k).
    + rewrite IH. destruct (String.eqb k0 k) eqn:E1; [|reflexivity].
      apply String.eqb_eq in E1. subst k0. now rewrite String.eqb_sym, E0.
Qed.

Lemma dict_get_setdefault k k' v d :
  dict_get k (setdefault k' v d)
  = match dict_get k d with
    | Some x => Some x
    | None => if String.eqb k' k then Some v else None
    end.
Proof.
  unfold setdefault. destruct (dict_get k' d) as [x|] eqn:Hk'.
  - destruct (dict_get k d) eqn:Hk; [reflexivity|].
    destruct (String.eqb k' k) eqn:E; [|reflexivity].
    apply String.eqb_eq in E. congruence.
  - rewrite dict_get_set. destruct (String.eqb k' k) eqn:E.
    + apply String.eqb_eq in E. subst k'. now rewrite Hk'.
    + now destruct (dict_get k d).
Qed.

(** Keys stay distinct under assignment. *)
Lemma dict_set_keys k v d :
  map fst (dict_set k v d)
  = if existsb (String.eqb k) (map fst d) then map fst d else map fst d ++ [k].
Proof.
  induction d as [|[k0 v0] d IH]; simpl; [reflexivity|].
  rewrite (String.eqb_sym k k0).
  destruct (String.eqb k0 k) eqn:E; simpl; [reflexivity|].
  rewrite IH. now destruct (existsb (String.eqb k) (map fst d)).
Qed.

Lemma dict_set_NoDup k v d : NoDup (map fst d) -> NoDup (map fst (dict_set k v d)).
Proof.
  intros Hd. rewrite dict_set_keys.
  destruct (existsb (String.eqb k) (map fst d)) eqn:E; [exact Hd|].
  apply NoDup_app. split; [exact Hd|]. split; [|apply NoDup_singleton].
  intros x Hx Hk. apply list_elem_of_singleton in Hk. subst x.
  assert (existsb (String.eqb k) (map fst d) = true); [|congruence].
  apply existsb_exists. exists k. split; [now apply list_elem_of_In|].
  apply String.eqb_refl.
Qed.

Lemma fold_add_extra_NoDup extras : forall d,
  NoDup (map fst d) -> NoDup (map fst (fold_left add_extra extras d)).
Proof.
  induction extras as [|h t IH]; intros d Hd; simpl; [exact Hd|].
  apply IH. unfold add_extra.
  destruct (split_colon EmptyString h) as [[key value]|]; [|exact Hd].
  now apply dict_set_NoDup.
Qed.

Lemma add_extra_entry d h :
  add_extra d h
  = match extra_entry h with
    | Some (key, value) => dict_set key value d
    | None => d
    end.
Proof.
  unfold add_extra, extra_entry.
  now destruct (split_colon EmptyString h) as [[key value]|].
Qed.

Lemma fold_add_extra_get k extras : forall d,
  dict_get k (fold_left add_extra extras d)
  = match last_value k (omap extra_entry extras) with
    | Some v => Some v
    | None => dict_get k d
    end.
Proof.
  induction extras as [|h t IH]; intros d; [reflexivity|].
  cbn [fold_left]. rewrite IH, add_extra_entry.
  change (omap extra_entry (h :: t))
    with (match extra_entry h with
          | Some y => y :: omap extra_entry t
          | None => omap extra_entry t
          end).
  destruct (extra_entry h) as [[k' v']|]; [|reflexivity].
  cbn [last_value]. rewrite dict_get_set.
  destruct (last_value k (omap extra_entry t)); [reflexivity|].
  now destruct (String.eqb k' k).
Qed.

Lemma startswith_colon c t : startswith ":" (String c t) = Ascii.eqb c ":".
Proof.
  unfold startswith. cbn [String.prefix].
  destruct (ascii_dec ":" c) as [<-|Hne].
  - now destruct t.
  - symmetry. apply Ascii.eqb_neq. congruence.
Qed.

Lemma split_colon_contains h : forall before,
  split_colon before h = None <-> contains ":" h = false.
Proof.
  induction h as [|c h IH]; intros before; cbn [split_colon contains].
  - unfold startswith. simpl. tauto.
  - rewrite startswith_colon. destruct (Ascii.eqb c ":"); simpl.
    + split; intros Hx; discriminate Hx.
    + apply IH.
Qed.

Lemma rev_onto_app s : forall acc t, rev_onto s acc +:+ t = rev_onto s (acc +:+ t).
Proof.
  induction s as [|c s IHs]; intros acc t; simpl; [reflexivity|].
  now rewrite IHs, append_cons.
Qed.

(** The text before the first colon holds no colon, and the header is that
    text, a colon, and the rest. *)
Lemma split_colon_parts h : forall before key value,
  split_colon before h = Some (key, value) ->
  exists head, key = rev before +:+ head
    /\ contains ":" head = false
    /\ h = head +:+ String ":" value.
Proof.
  induction h as [|c h IH]; intros before key value; cbn [split_colon];
    [discriminate|].
  destruct (Ascii.eqb c ":") eqn:E.
  - apply Ascii.eqb_eq in E. subst c. intros [= <- <-].
    exists EmptyString. rewrite append_nil_r, append_nil_l.
    repeat split.
  - intros Hs. destruct (IH _ _ _ Hs) as (head & -> & Hno & ->).
    exists (String c head). rewrite append_cons. repeat split.
    + unfold rev. simpl. rewrite !rev_onto_app, append_nil_l, append_cons.
      now rewrite append_nil_l.
    + cbn [contains]. now rewrite startswith_colon, E.
Qed.

End HeaderFacts.

Module HeaderProps.
Import PyStr Py Headers StrFacts HeaderFacts.

(** A header [key ":" value] whose key holds no colon splits at that
    colon, whatever colons the value holds. *)
Lemma split_colon_first key value : forall before,
  contains ":" key = false ->
  split_colon before (key +:+ String ":" value) = Some (rev before +:+ key, value).
Proof.
  induction key as [|c key IH]; intros before Hno.
  - rewrite append_nil_l, append_nil_r. cbn [split_colon].
    now rewrite Ascii.eqb_refl.
  - cbn [contains] in Hno. rewrite startswith_colon in Hno.
    apply orb_false_iff in Hno as [Hc Hno].
    rewrite append_cons. cbn [split_colon]. rewrite Hc, (IH _ Hno).
    unfold rev. simpl. rewrite !rev_onto_app, append_nil_l, append_cons.
    now rewrite append_nil_l.
Qed.

Lemma last_value_app k l1 l2 :
  last_value k (l1 ++ l2)
  = match last_value k l2 with
    | Some v => Some v
    | None => last_value k l1
    end.
Proof.
  induction l1 as [|[k' v'] l1 IH]; simpl.
  - now destruct (last_value k l2).
  - rewrite IH. now destruct (last_value k l2).
Qed.

Lemma last_value_None k l :
  (forall k' v', In (k', v') l -> k' <> k) -> last_value k l = None.
Proof.
  induction l as [|[k' v'] l IH]; intros Hl; simpl; [reflexivity|].
  rewrite IH by (intros; eapply Hl; right; eassumption).
  destruct (String.eqb k' k) eqn:E; [|reflexivity].
  apply String.eqb_eq in E. exfalso. eapply Hl; [left; reflexivity|exact E].
Qed.

(** X1.  The extra headers of [build_headers]: a header [key ":" value]
    is split at its first colon and sets the stripped key to the stripped
    value; a header without a colon is skipped; of several headers with the
    same key the last one decides, and a key that no header sets keeps the
    value it has without extra headers.  The keys of the result are
    distinct. *)
Theorem build_headers_extra_headers user_agent referer :
  (forall key value, contains ":" key = false ->
     extra_entry (key +:+ String ":" value) = Some (strip key, strip value))
  /\ (forall extra_headers k,
        dict_get k (build_headers user_agent referer extra_headers)
        = match last_value k (omap extra_entry extra_headers) with
          | Some v => Some v
          | None => dict_get k (build_headers user_agent referer [])
          end)
  /\ (forall pre header post, contains ":" header = false ->
        build_headers user_agent referer (pre ++ header :: post)
        = build_headers user_agent referer (pre ++ post))
  /\ (forall pre header post k v,
        extra_entry header = Some (k, v) ->
        (forall later k' v', In later post -> extra_entry later = Some (k', v') ->
                             k' <> k) ->
        dict_get k (build_headers user_agent referer (pre ++ header :: post))
        = Some v)
  /\ (forall extra_headers,
        NoDup (map fst (build_headers user_agent referer extra_headers))).
Proof.
  assert (Hlookup : forall extra_headers k,
        dict_get k (build_headers user_agent referer extra_headers)
        = match last_value k (omap extra_entry extra_headers) with
          | Some v => Some v
          | None => dict_get k (build_headers user_agent referer [])
          end).
  { intros extra_headers k. unfold build_headers. apply fold_add_extra_get. }
  split; [|split; [exact Hlookup|split; [|split]]].
  - intros key value Hno. unfold extra_entry.
    rewrite (split_colon_first key value EmptyString Hno).
    now rewrite append_nil_l.
  - intros pre header post Hno. unfold build_headers.
    rewrite !fold_left_app. cbn [fold_left]. unfold add_extra at 2.
    apply (split_colon_contains header EmptyString) in Hno. now rewrite Hno.
  - intros pre header post k v Hentry Hlater. rewrite Hlookup.
    rewrite omap_app. cbn [omap list_omap]. rewrite Hentry.
    change ((k, v) :: omap extra_entry post)
      with ([(k, v)] ++ omap extra_entry post).
    rewrite !last_value_app, (last_value_None k (omap extra_entry post)).
    + simpl. now rewrite String.eqb_refl.
    + intros k' v' Hin. apply list_elem_of_In, list_elem_of_omap in Hin
        as (later & Hin & Hl). apply list_elem_of_In in Hin. eauto.
  - intros extra_headers. unfold build_headers. apply fold_add_extra_NoDup.
    destruct (truthy referer); simpl;
      apply (bool_decide_unpack _); vm_compute; reflexivity.
Qed.

(** X2.  The headers that [build_headers] sets on its own, for each key
    that no extra header sets: the given user agent, or the default one
    when it is empty; [Accept], [Accept-Encoding], [Connection] and [DNT]
    with fixed values; [Origin] always, with the referer or the empty
    text; [Referer] only when a non-empty referer is given; and no other
    key. *)
Theorem build_headers_defaults user_agent referer extra_headers :
  let hs := build_headers user_agent referer extra_headers in
  let set_by_extra := fun k => last_value k (omap extra_entry extra_headers) in
  (set_by_extra "User-Agent" = None ->
   dict_get "User-Agent" hs
   = Some (if is_empty user_agent then DEFAULT_UA else user_agent))
  /\ (set_by_extra "Accept" = None -> dict_get "Accept" hs = Some "*/*")
  /\ (set_by_extra "Accept-Encoding" = None ->
      dict_get "Accept-Encoding" hs = Some "identity")
  /\ (set_by_extra "Connection" = None ->
      dict_get "Connection" hs = Some "keep-alive")
  /\ (set_by_extra "DNT" = None -> dict_get "DNT" hs = Some "1")
  /\ (set_by_extra "Origin" = None ->
      dict_get "Origin" hs
      = Some (match referer with Some r => r | None => EmptyString end))
  /\ (set_by_extra "Referer" = None ->
      dict_get "Referer" hs
      = match referer with
        | Some r => if is_empty r then None else Some r
        | None => None
        end)
  /\ (forall k, set_by_extra k = None ->
        ~ In k ["User-Agent"; "Accept"; "Accept-Encoding"; "Connection"; "DNT";
                "Origin"; "Referer"] ->
        dict_get k hs = None).
Proof.
  intros hs set_by_extra. subst hs set_by_extra.
  assert (Hplain : forall k,
    last_value k (omap extra_entry extra_headers) = None ->
    dict_get k (build_headers user_agent referer extra_headers)
    = dict_get k (build_headers user_agent referer [])).
  { intros k Hk. unfold build_headers. now rewrite fold_add_extra_get, Hk. }
  repeat split; try (intros Hk; rewrite (Hplain _ Hk));
    try (unfold build_headers; destruct referer as [[|c r]|]; reflexivity).
  intros k Hk Hnot. rewrite (Hplain _ Hk). unfold build_headers.
  assert (Hne : forall k', In k' ["User-Agent"; "Accept"; "Accept-Encoding";
                                  "Connection"; "DNT"; "Origin"; "Referer"] ->
                           String.eqb k' k = false).
  { intros k' Hin. apply String.eqb_neq. intros ->. contradiction. }
  assert (Hshape : forall base : headers,
    (if truthy referer
     then dict_set "Referer" (referer_or_empty referer)
            (("User-Agent", or_else user_agent DEFAULT_UA) :: ("Accept", "*/*")
             :: ("Accept-Encoding", "identity") :: ("Connection", "keep-alive")
             :: ("DNT", "1") :: ("Origin", referer_or_empty referer) :: base)
     else ("User-Agent", or_else user_agent DEFAULT_UA) :: ("Accept", "*/*")
          :: ("Accept-Encoding", "identity") :: ("Connection", "keep-alive")
          :: ("DNT", "1") :: ("Origin", referer_or_empty referer) :: base)
    = ("User-Agent", or_else user_agent DEFAULT_UA) :: ("Accept", "*/*")
      :: ("Accept-Encoding", "identity") :: ("Connection", "keep-alive")
      :: ("DNT", "1") :: ("Origin", referer_or_empty referer)
      :: (if truthy referer then dict_set "Referer" (referer_or_empty referer) base
          else base)).
  { intros base. now destruct (truthy referer). }
  cbn [fold_left]. rewrite Hshape. cbn [dict_get].
  rewrite !Hne by (simpl; tauto).
  destruct (truthy referer); [|reflexivity].
  cbn [dict_set dict_get]. now rewrite Hne by (simpl; tauto).
Qed.

(** [setdefault] on a key that is present changes nothing. *)
Lemma setdefault_present k v d x : dict_get k d = Some x -> setdefault k v d = d.
Proof. unfold setdefault. now intros ->. Qed.

(** X3.  [augment_browser_headers] keeps every header it is given, with
    its value, and adds [Sec-Fetch-Mode: cors], [Sec-Fetch-Site:
    cross-site], [Sec-Fetch-Dest: empty] and [Accept: */*], each only when
    that key is absent; it adds nothing else, keeps keys distinct, and a
    second application changes nothing. *)
Theorem augment_browser_headers_fills_gaps hs :
  (forall k,
     dict_get k (augment_browser_headers hs)
     = match dict_get k hs with
       | Some v => Some v
       | None =>
           if String.eqb k "Sec-Fetch-Mode" then Some "cors"
           else if String.eqb k "Sec-Fetch-Site" then Some "cross-site"
           else if String.eqb k "Sec-Fetch-Dest" then Some "empty"
           else if String.eqb k "Accept" then Some "*/*"
           else None
       end)
  /\ augment_browser_headers (augment_browser_headers hs)
     = augment_browser_headers hs
  /\ (NoDup (map fst hs) -> NoDup (map fst (augment_browser_headers hs)))
  /\ (forall user_agent referer extra_headers,
        dict_get "Accept"
          (augment_browser_headers
             (build_headers user_agent referer extra_headers))
        = dict_get "Accept" (build_headers user_agent referer extra_headers)).
Proof.
  assert (Hget : forall hs k,
     dict_get k (augment_browser_headers hs)
     = match dict_get k hs with
       | Some v => Some v
       | None =>
           if String.eqb k "Sec-Fetch-Mode" then Some "cors"
           else if String.eqb k "Sec-Fetch-Site" then Some "cross-site"
           else if String.eqb k "Sec-Fetch-Dest" then Some "empty"
           else if String.eqb k "Accept" then Some "*/*"
           else None
       end).
  { intros d k. unfold augment_browser_headers. rewrite !dict_get_setdefault.
    rewrite !(String.eqb_sym _ k).
    destruct (dict_get k d); [reflexivity|].
    destruct (String.eqb k "Sec-Fetch-Mode"); [reflexivity|].
    destruct (String.eqb k "Sec-Fetch-Site"); [reflexivity|].
    now destruct (String.eqb k "Sec-Fetch-Dest"). }
  split; [apply Hget|]. split; [|split].
  - set (out := augment_browser_headers hs).
    assert (Hall : forall k, In k ["Sec-Fetch-Mode"; "Sec-Fetch-Site";
                                   "Sec-Fetch-Dest"; "Accept"] ->
                             exists x, dict_get k out = Some x).
    { intros k Hin. subst out. rewrite Hget.
      destruct (dict_get k hs); [eauto|].
      simpl in Hin. destruct Hin as [<-|[<-|[<-|[<-|[]]]]]; simpl; eauto. }
    unfold augment_browser_headers at 1.
    destruct (Hall "Sec-Fetch-Mode" ltac:(simpl; tauto)) as [x1 H1].
    rewrite (setdefault_present _ _ _ _ H1).
    destruct (Hall "Sec-Fetch-Site" ltac:(simpl; tauto)) as [x2 H2].
    rewrite (setdefault_present _ _ _ _ H2).
    destruct (Hall "Sec-Fetch-Dest" ltac:(simpl; tauto)) as [x3 H3].
    rewrite (setdefault_present _ _ _ _ H3).
    destruct (Hall "Accept" ltac:(simpl; tauto)) as [x4 H4].
    now rewrite (setdefault_present _ _ _ _ H4).
  - intros Hd. unfold augment_browser_headers.
    assert (Hsd : forall k v d, NoDup (map fst d) -> NoDup (map fst (setdefault k v d))).
    { intros k v d Hnd. unfold setdefault. destruct (dict_get k d); [exact Hnd|].
      now apply dict_set_NoDup. }
    now repeat apply Hsd.
  - intros user_agent referer extra_headers. rewrite Hget.
    destruct (dict_get "Accept" (build_headers user_agent referer extra_headers))
      eqn:Hacc; [reflexivity|].
    exfalso. unfold build_headers in Hacc. rewrite fold_add_extra_get in Hacc.
    destruct (last_value "Accept" (omap extra_entry extra_headers));
      [discriminate|].
    destruct (truthy referer); discriminate.
Qed.

End HeaderProps.

(** ** The retrying fetch on any network *)
Module FetchTotal.
Import PyStr Py Fetch SpecWords More ChainFacts.

(** Among the answers 0 .. n there is a first one that ends the loop of
    [try_download]: one that is not retriable, or else the last. *)
Lemma first_decisive (answer : nat -> response) (n : nat) :
  exists k, (k <= n)%nat
    /\ (forall j, (j < k)%nat -> retriable (answer j) = true)
    /\ (retriable (answer k) = false \/ k = n).
Proof.
  induction n as [|n (k & Hk & Hbefore & Hlast)].
  - exists 0%nat. split; [lia|]. split; [intros j Hj; lia|now right].
  - destruct (retriable (answer k)) eqn:Hr.
    + destruct Hlast as [Hlast| ->]; [discriminate|].
      exists (S n). split; [lia|]. split; [|now right].
      intros j Hj. destruct (decide (j = n)) as [->|Hne]; [exact Hr|].
      apply Hbefore. lia.
    + exists k. split; [lia|]. split; [exact Hbefore|now left].
Qed.

Lemma total_delay_app l1 l2 :
  (total_delay (l1 ++ l2) == total_delay l1 + total_delay l2)%Q.
Proof.
  unfold total_delay. induction l1 as [|d l1 IH]; simpl.
  - now rewrite Qplus_0_l.
  - rewrite IH. apply Qplus_assoc.
Qed.

(** The delays of the attempts 0 .. k-1 add up to [backoff * (2^k - 1)]. *)
Lemma total_delay_attempts backoff (k : nat) :
  (total_delay (map (backoff_delay backoff) (seqZ 0 (Z.of_nat k)))
   == backoff * inject_Z (2 ^ Z.of_nat k - 1))%Q.
Proof.
  induction k as [|k IH].
  - change (0 == backoff * 0)%Q. ring.
  - rewrite seqZ_S, map_app, total_delay_app, IH.
    cbn [map]. unfold total_delay at 1. cbn [fold_right].
    unfold backoff_delay. rewrite Z.add_0_l, Nat2Z.inj_succ, Z.pow_succ_r by lia.
    replace (2 * 2 ^ Z.of_nat k - 1) with ((2 ^ Z.of_nat k - 1) + 2 ^ Z.of_nat k) by lia.
    rewrite inject_Z_plus. ring.
Qed.

(** Below [n], a test holds throughout or fails at a first place. *)
Lemma first_failure (test : nat -> bool) (n : nat) :
  (forall j, (j < n)%nat -> test j = true)
  \/ exists k, (k < n)%nat /\ test k = false
       /\ forall j, (j < k)%nat -> test j = true.
Proof.
  induction n as [|n [Hall|(k & Hk & Hfail & Hbefore)]].
  - left. intros j Hj. lia.
  - destruct (test n) eqn:Hn.
    + left. intros j Hj. destruct (decide (j = n)) as [->|Hne]; [exact Hn|].
      apply Hall. lia.
    + right. exists n. split; [lia|]. split; [exact Hn|]. exact Hall.
  - right. exists k. split; [lia|]. split; [exact Hfail|exact Hbefore].
Qed.

Section Total.
Context `{Externals}.
Variables (url : string) (hdrs : headers) (timeout retries : Z) (backoff : Q).

(** With [retries >= 0] the call ends with the first decisive answer, or
    before it at the first delay that cannot be slept. *)
Lemma try_download_outcome w :
  0 <= retries ->
  exists k : nat, Z.of_nat k <= retries
    /\ (forall j, (j < k)%nat ->
          retriable (urlopen (length (requests w) + j) (Request url hdrs timeout))
          = true)
    /\ (forall j, (j < k)%nat -> can_sleep backoff (Z.of_nat j) = true)
    /\ (((retriable (urlopen (length (requests w) + k) (Request url hdrs timeout))
          = false \/ Z.of_nat k = retries)
         /\ try_download url hdrs timeout retries backoff w
            = (Ok (final_result
                     (urlopen (length (requests w) + k) (Request url hdrs timeout))),
               after_attempts (Request url hdrs timeout) backoff w (S k) 0 k))
        \/ (Z.of_nat k < retries
            /\ retriable (urlopen (length (requests w) + k)
                            (Request url hdrs timeout)) = true
            /\ can_sleep backoff (Z.of_nat k) = false
            /\ try_download url hdrs timeout retries backoff w
               = (Raise (sleep_error backoff (Z.of_nat k)),
                  after_attempts (Request url hdrs timeout) backoff w (S k) 0 k))).
Proof.
  intros Hretries.
  destruct (first_decisive
              (fun j => urlopen (length (requests w) + j) (Request url hdrs timeout))
              (Z.to_nat retries)) as (k & Hk & Hbefore & Hlast).
  destruct (first_failure (fun j => can_sleep backoff (Z.of_nat j)) k)
    as [Hsleep|(s & Hs & Hstuck & Hsleep)].
  - exists k. split; [lia|]. split; [exact Hbefore|]. split; [exact Hsleep|].
    left.
    assert (Hlast' : retriable (urlopen (length (requests w) + k)
                                  (Request url hdrs timeout)) = false
                     \/ 0 + Z.of_nat k = retries).
    { destruct Hlast as [Hlast|Hlast]; [now left|right; lia]. }
    split; [destruct Hlast' as [?|?]; [now left|right; lia]|].
    unfold try_download, range.
    replace (retries + 1) with (retries + 1 - 0) by lia.
    apply (FetchProps.for_attempts_run url hdrs timeout retries backoff k 0 w);
      try lia; assumption.
  - exists s. split; [lia|].
    split; [intros j Hj; apply Hbefore; lia|]. split; [exact Hsleep|].
    right. split; [lia|]. split; [apply Hbefore; lia|]. split; [exact Hstuck|].
    unfold try_download, range.
    replace (retries + 1) with (retries + 1 - 0) by lia.
    apply (FetchProps.for_attempts_stuck url hdrs timeout retries backoff s 0 w);
      try lia; try assumption.
    intros j Hj. destruct (decide (j = s)) as [->|Hne]; apply Hbefore; lia.
Qed.

(** With [retries >= 0] and delays that can be slept the call ends with
    the first decisive answer. *)
Lemma try_download_decided w :
  0 <= retries ->
  (forall a, 0 <= a < retries -> can_sleep backoff a = true) ->
  exists k : nat, Z.of_nat k <= retries
    /\ (forall j, (j < k)%nat ->
          retriable (urlopen (length (requests w) + j) (Request url hdrs timeout))
          = true)
    /\ (retriable (urlopen (length (requests w) + k) (Request url hdrs timeout))
        = false \/ Z.of_nat k = retries)
    /\ try_download url hdrs timeout retries backoff w
       = (Ok (final_result
                (urlopen (length (requests w) + k) (Request url hdrs timeout))),
          after_attempts (Request url hdrs timeout) backoff w (S k) 0 k).
Proof.
  intros Hretries Hsleep.
  destruct (try_download_outcome w Hretries)
    as (k & Hk & Hbefore & _ & [[Hlast Hrun]|(Hlt & _ & Hstuck & _)]).
  - exists k. repeat split; assumption.
  - rewrite Hsleep in Hstuck by lia. discriminate.
Qed.

(** With [retries < 0] the loop body never runs. *)
Lemma try_download_no_attempt w :
  retries < 0 ->
  try_download url hdrs timeout retries backoff w = (Ok (false, None, None), w).
Proof.
  intros Hneg. unfold try_download, range, seqZ.
  replace (Z.to_nat (retries + 1)) with 0%nat by lia. reflexivity.
Qed.

(** In every case the world after the call is that of some number of
    attempts, one request each, with a delay after each but the last. *)
Lemma try_download_world w :
  0 <= retries ->
  exists k : nat, Z.of_nat k <= retries
    /\ snd (try_download url hdrs timeout retries backoff w)
       = after_attempts (Request url hdrs timeout) backoff w (S k) 0 k.
Proof.
  intros Hretries.
  destruct (try_download_outcome w Hretries)
    as (k & Hk & _ & _ & [[_ Hrun]|(_ & _ & _ & Hrun)]);
    exists k; now rewrite Hrun.
Qed.

End Total.

(** X4.  [try_download] always ends, whatever the network answers: it
    never loops, and it raises only what [time.sleep] raises on a delay
    that cannot be slept (attempt 1024 or later, a delay beyond the
    clock, a negative delay).  With [retries >= 0] it stops at the first
    answer that is a body, an HTTP 403 or 404, or the answer to the last
    attempt allowed, and returns what that answer decides, unless a delay
    before that cannot be slept, which is then raised; with [retries < 0]
    it sends nothing and reports a failure without code.  When every
    delay of the attempts below [retries] can be slept, it returns: the
    result is either [(True, data, None)] or [(False, None, code)], at
    most [retries + 1] requests are sent, and at most [retries] delays
    are slept. *)
Theorem try_download_always_returns `{Externals} url hdrs timeout retries
    backoff w :
  let req := Request url hdrs timeout in
  let answer := fun k : nat => urlopen (length (requests w) + k) req in
  let delay := fun attempt : Z => (backoff * inject_Z (2 ^ attempt))%Q in
  (0 <= retries ->
   exists k : nat, Z.of_nat k <= retries
     /\ (forall j, (j < k)%nat -> retriable (answer j) = true)
     /\ (forall j, (j < k)%nat -> can_sleep backoff (Z.of_nat j) = true)
     /\ (((retriable (answer k) = false \/ Z.of_nat k = retries)
          /\ try_download url hdrs timeout retries backoff w
             = (Ok (final_result (answer k)),
                World (requests w ++ replicate (S k) req)
                      (slept w ++ map delay (seqZ 0 (Z.of_nat k)))))
         \/ (Z.of_nat k < retries
             /\ retriable (answer k) = true
             /\ can_sleep backoff (Z.of_nat k) = false
             /\ try_download url hdrs timeout retries backoff w
                = (Raise (sleep_error backoff (Z.of_nat k)),
                   World (requests w ++ replicate (S k) req)
                         (slept w ++ map delay (seqZ 0 (Z.of_nat k)))))))
  /\ (retries < 0 ->
      try_download url hdrs timeout retries backoff w
      = (Ok (false, None, None), w))
  /\ ((forall a, 0 <= a < retries -> can_sleep backoff a = true) ->
      exists ok data code w',
        try_download url hdrs timeout retries backoff w = (Ok (ok, data, code), w')
        /\ (ok = true <-> is_Some data)
        /\ (ok = true -> code = None)
        /\ Z.of_nat (length (requests w'))
           <= Z.of_nat (length (requests w)) + Z.max 0 (retries + 1)
        /\ Z.of_nat (length (slept w'))
           <= Z.of_nat (length (slept w)) + Z.max 0 retries).
Proof.
  intros req answer delay.
  split; [exact (try_download_outcome url hdrs timeout retries backoff w)|].
  split; [apply try_download_no_attempt|].
  intros Hsleep.
  destruct (Z.lt_ge_cases retries 0) as [Hneg|Hpos].
  - exists false, None, None, w.
    split; [now apply try_download_no_attempt|].
    split; [split; [discriminate|intros [x Hx]; discriminate]|].
    split; [discriminate|]. lia.
  - destruct (try_download_decided url hdrs timeout retries backoff w Hpos Hsleep)
      as (k & Hk & _ & _ & Hrun).
    fold req in Hrun. fold (answer k) in Hrun.
    destruct (final_result (answer k)) as [[ok data] code] eqn:Hres.
    exists ok, data, code, (after_attempts req backoff w (S k) 0 k).
    split; [exact Hrun|].
    assert (Hshape : (ok = true <-> is_Some data) /\ (ok = true -> code = None)).
    { unfold final_result in Hres. destruct (answer k); injection Hres as <- <- <-.
      - split; [split; eauto|reflexivity].
      - split; [split; [discriminate|intros [x Hx]; discriminate]|discriminate]. }
    split; [apply Hshape|]. split; [apply Hshape|].
    unfold after_attempts. cbn [requests slept].
    rewrite !length_app, length_replicate, length_map, length_seqZ. lia.
Qed.

(** X5.  The delays that one call of [try_download] sleeps are those of
    its failed attempts 0, 1, ..., one for each request but the last; they
    add up to [backoff * (2^d - 1)] for [d] delays, so for a non-negative
    [backoff] to at most [backoff * (2^retries - 1)]. *)
Theorem try_download_total_backoff `{Externals} url hdrs timeout retries
    backoff w :
  exists d : nat,
    slept (snd (try_download url hdrs timeout retries backoff w))
    = slept w ++ map (backoff_delay backoff) (seqZ 0 (Z.of_nat d))
    /\ Z.of_nat d <= Z.max 0 retries
    /\ length (requests (snd (try_download url hdrs timeout retries backoff w)))
       = (length (requests w) + (if (retries <? 0)%Z then 0 else S d))%nat
    /\ (total_delay (map (backoff_delay backoff) (seqZ 0 (Z.of_nat d)))
        == backoff * inject_Z (2 ^ Z.of_nat d - 1))%Q
    /\ ((0 <= backoff)%Q ->
        (total_delay (map (backoff_delay backoff) (seqZ 0 (Z.of_nat d)))
         <= backoff * inject_Z (2 ^ Z.max 0 retries - 1))%Q).
Proof.
  assert (Hsum : forall d : nat, Z.of_nat d <= Z.max 0 retries ->
    (total_delay (map (backoff_delay backoff) (seqZ 0 (Z.of_nat d)))
        == backoff * inject_Z (2 ^ Z.of_nat d - 1))%Q
    /\ ((0 <= backoff)%Q ->
        (total_delay (map (backoff_delay backoff) (seqZ 0 (Z.of_nat d)))
         <= backoff * inject_Z (2 ^ Z.max 0 retries - 1))%Q)).
  { intros d Hd. split; [apply total_delay_attempts|].
    intros Hb. rewrite total_delay_attempts.
    rewrite !(Qmult_comm backoff). apply Qmult_le_compat_r; [|exact Hb].
    rewrite <- Zle_Qle.
    pose proof (Z.pow_le_mono_r 2 (Z.of_nat d) (Z.max 0 retries)
                  ltac:(lia) Hd). lia. }
  destruct (Z.lt_ge_cases retries 0) as [Hneg|Hpos].
  - exists 0%nat. rewrite (try_download_no_attempt _ _ _ _ _ _ Hneg). simpl.
    split; [now rewrite app_nil_r|]. split; [lia|].
    split; [replace (retries <? 0) with true by lia; lia|].
    apply (Hsum 0%nat). lia.
  - destruct (try_download_world url hdrs timeout retries backoff w Hpos)
      as (k & Hk & Hrun).
    exists k. rewrite Hrun. unfold after_attempts. cbn [snd requests slept].
    split; [reflexivity|]. split; [lia|].
    split; [rewrite length_app, length_replicate;
            replace (retries <? 0) with false by lia; reflexivity|].
    apply Hsum. lia.
Qed.

(** X6.  The probe of [main] calls [try_download] with [retries = 0]: it
    sends exactly one request and sleeps never, whatever the answer, and
    [main] takes the segments for blocked exactly when that one answer is
    an HTTP 401 or an HTTP 403. *)
Theorem probe_sends_one_request `{Externals} url hdrs timeout backoff w :
  let answer := urlopen (length (requests w)) (Request url hdrs timeout) in
  try_download url hdrs timeout 0 backoff w
  = (Ok (final_result answer), after_top url hdrs timeout w)
  /\ (probe_blocked (final_result answer) = true
      <-> answer = Fails (HTTPError 401) \/ answer = Fails (HTTPError 403)).
Proof.
  intros answer. split.
  - unfold try_download, range.
    change (0 + 1) with (0 + 1 - 0).
    rewrite (FetchProps.for_attempts_run url hdrs timeout 0 backoff 0 0 w);
      try lia.
    rewrite Nat.add_0_r. fold answer. f_equal.
    unfold after_attempts, after_top. simpl. now rewrite app_nil_r.
  - unfold probe_blocked, final_result, status_of.
    destruct answer as [data|e]; simpl.
    + split; [discriminate|intros [Hx|Hx]; discriminate].
    + destruct e as [msg|msg|code| |]; simpl;
        try (split; [discriminate|intros [Hx|Hx]; discriminate]).
      rewrite orb_true_iff, !Z.eqb_eq. split.
      * intros [-> | ->]; tauto.
      * intros [[= ->]|[= ->]]; tauto.
Qed.

End FetchTotal.

Module ScanProps.
Import PyStr Py Playlist SpecWords More StrFacts LoopFacts ScanFacts PatternFacts
  ChainFacts.

(** X7.  The variant loop of [parse_master_variants_only],
    [resolve_segments_from_m3u8] and [detect_encryption_in_playlist_chain],
    which jumps from a stream-info line to the line after its URI, reads the
    lines once, front to back: a stream-info line opens a variant, the
    directives after it are skipped, and the first line that is no directive
    gives its URI, joined to the base; when [urljoin] refuses that line,
    its exception is raised before any later line is read.  So a second
    stream-info line before the URI is skipped without being read, and a
    stream-info line that no URI line follows yields no variant. *)
Theorem variant_loop_is_one_pass `{Externals} {A : Type}
    (info : string -> outcome A) (base_url : string) :
  (forall lines,
     collect_variants info base_url lines
     = variants_scan info base_url None lines)
  /\ (forall content,
        parse_master_variants_only content base_url
        = variants_scan bandwidth_height base_url None (stripped_lines content))
  /\ (forall first second uri_line rest a,
        startswith "#EXT-X-STREAM-INF" first = true -> info first = Ok a ->
        startswith "#" second = true -> startswith "#" uri_line = false ->
        collect_variants info base_url (first :: second :: uri_line :: rest)
        = match urljoin base_url uri_line with
          | Value uri =>
              match collect_variants info base_url rest with
              | Ok variants => Ok ((a, uri) :: variants)
              | Raise e => Raise e
              | Diverge => Diverge
              end
          | Throws e => Raise e
          end)
  /\ (forall first directives a,
        startswith "#EXT-X-STREAM-INF" first = true -> info first = Ok a ->
        Forall (fun l => startswith "#" l = true) directives ->
        collect_variants info base_url (first :: directives) = Ok []).
Proof.
  split; [apply collect_variants_scan|]. split; [|split].
  - intros content. apply collect_variants_scan.
  - intros first second uri_line rest a Hinf Hinfo Hsecond Huri.
    rewrite !collect_variants_scan. cbn [variants_scan].
    now rewrite (stream_inf_is_directive _ Hinf), Hinf, Hinfo, Hsecond, Huri.
  - intros first directives a Hinf Hinfo Hall.
    rewrite collect_variants_scan. cbn [variants_scan].
    rewrite (stream_inf_is_directive _ Hinf), Hinf, Hinfo.
    induction Hall as [|l ls Hl _ IH]; cbn [variants_scan]; [reflexivity|].
    now rewrite Hl.
Qed.

(** All keys equal: the maximum is the element listed first. *)
Lemma choose_first_when_equal first rest :
  Forall (fun v : (Z * option Z) * string => fst v = (0, None)) (first :: rest) ->
  choose_variant_best (first :: rest) = Ok (snd first).
Proof.
  intros Hzero.
  destruct (MaxFacts.choose_variant_best_spec first rest)
    as (i & v & (Hi & _ & Hfirst) & ->).
  destruct i as [|i]; [now injection Hi as ->|].
  exfalso. specialize (Hfirst 0%nat first ltac:(lia) eq_refl).
  rewrite Forall_forall in Hzero.
  assert (H0 : fst first = (0, None)) by (apply Hzero; constructor).
  assert (Hv : fst v = (0, None)) by (apply Hzero; eapply list_elem_of_lookup_2, Hi).
  unfold selection_key, key_lt in Hfirst. rewrite H0, Hv in Hfirst.
  simpl in Hfirst. lia.
Qed.

(** X8.  Composed with [parse_master_variants_only],
    [choose_variant_best] always returns the URI of the variant listed
    first: the patterns of the parser never read a number, so every variant
    it returns has bandwidth 0 and no height, and the first of equal keys
    wins. *)
Theorem choose_after_parse_is_first_listed `{Externals} content base_url
    first rest :
  parse_master_variants_only content base_url = Ok (first :: rest) ->
  choose_variant_best (first :: rest) = Ok (snd first)
  /\ Forall (fun v => fst v = (0, None)) (first :: rest).
Proof.
  intros Hparse.
  assert (Hzero : Forall (fun v : (Z * option Z) * string => fst v = (0, None))
                         (first :: rest)).
  { unfold parse_master_variants_only in Hparse.
    pose proof (collect_variants_outcome bandwidth_height base_url
                  (stripped_lines content) bandwidth_height_returns) as Hall.
    rewrite Hparse in Hall.
    eapply Forall_impl; [exact Hall|].
    intros v (l & u & _ & _ & _ & _ & Hinfo & _).
    destruct (bandwidth_height_outcome l) as [Hok|Hraise]; congruence. }
  split; [now apply choose_first_when_equal|exact Hzero].
Qed.

(** X8 at the example master playlist, whose best variant is listed
    last: the first-listed one is chosen. *)
Lemma choose_after_parse_is_first_listed_witness :
  choose_variant_best
    [((0, None), "http://cdn/low.m3u8"); ((0, None), "http://cdn/mid.m3u8");
     ((0, None), "http://cdn/high.m3u8")]
  = Ok "http://cdn/low.m3u8".
Proof.
  exact (proj1 (@choose_after_parse_is_first_listed Demo.cdn Demo.master_text
                  "http://cdn/master.m3u8"
                  ((0, None), "http://cdn/low.m3u8")
                  [((0, None), "http://cdn/mid.m3u8");
                   ((0, None), "http://cdn/high.m3u8")]
                  ltac:(vm_compute; reflexivity))).
Defined.

End ScanProps.

(** ** The playlist chain on any network *)
Module ChainTotal.
Import PyStr Py Playlist SpecWords More StrFacts LoopFacts PatternFacts
       ChainFacts MaxFacts.

Section Chain.
Context `{Externals}.

(** [parse_m3u8] on a media playlist all of whose lines [urljoin]
    accepts. *)
Lemma parse_m3u8_media content base_url joined :
  has_stream_inf (stripped_lines content) = false ->
  Forall2 (fun line uri => urljoin base_url line = Value uri)
          (non_comment_lines content) joined ->
  parse_m3u8 content base_url
  = match joined with
    | [] => Raise (ValueError "No segments found in playlist")
    | _ :: _ => Ok joined
    end.
Proof.
  intros Hmedia Hjoined. unfold parse_m3u8. rewrite Hmedia.
  rewrite MediaProps.non_comment_lines_stripped in Hjoined.
  rewrite (MediaProps.segments_loop_joined _ _ _ [] Hjoined). simpl.
  now destruct joined.
Qed.





Lemma resolve_media url hdrs timeout w top :
  urlopen (length (requests w)) (Request url hdrs timeout) = Body top ->
  has_stream_inf (stripped_lines (decode top)) = false ->
  resolve_segments_from_m3u8 url hdrs timeout w
  = (parse_m3u8 (decode top) url, after_top url hdrs timeout w).
Proof.
  intros Htop Hmedia. unfold resolve_segments_from_m3u8, bind.
  now rewrite http_get_answer, Htop, Hmedia.
Qed.

Lemma detect_media url hdrs timeout w top :
  urlopen (length (requests w)) (Request url hdrs timeout) = Body top ->
  has_stream_inf (stripped_lines (decode top)) = false ->
  detect_encryption_in_playlist_chain url hdrs timeout w
  = (Ok (playlist_has_encryption (decode top)), after_top url hdrs timeout w).
Proof.
  intros Htop Hmedia. unfold detect_encryption_in_playlist_chain, bind.
  now rewrite http_get_answer, Htop, Hmedia.
Qed.

(** The variants that [detect_encryption_in_playlist_chain] collects, or
    the error of [int], or what [urljoin] raised. *)
Lemma collect_variants_detect_outcome url lines :
  (exists variants, collect_variants bandwidth_detect url lines = Ok variants)
  \/ collect_variants bandwidth_detect url lines
     = Raise (ValueError "invalid literal for int() with base 10")
  \/ (exists e uri_line, In uri_line lines
        /\ startswith "#" uri_line = false
        /\ urljoin url uri_line = Throws e
        /\ collect_variants bandwidth_detect url lines = Raise e).
Proof.
  pose proof (collect_variants_outcome bandwidth_detect url lines
                bandwidth_detect_returns) as Hout.
  destruct (collect_variants bandwidth_detect url lines)
    as [vs|e|]; [eauto| |contradiction].
  right. destruct Hout as [(line & _ & _ & Hraise)|(u & Hu & Hhash & Hjoin)].
  - left. destruct (bandwidth_detect_outcome line) as [Hok|[_ Hr]]; congruence.
  - right. exists e, u. repeat split; assumption.
Qed.


(** On a playlist all of whose lines are directives the variant loop
    joins nothing: it returns no variant, or raises what [info] raised. *)
Lemma collect_variants_only_directives {A : Type} (info : string -> outcome A)
    url lines :
  (forall line, info line <> Diverge) ->
  Forall (fun l => startswith "#" l = true) lines ->
  match collect_variants info url lines with
  | Ok variants => variants = []
  | Raise e =>
      exists line, In line lines
        /\ startswith "#EXT-X-STREAM-INF" line = true /\ info line = Raise e
  | Diverge => False
  end.
Proof.
  intros Hinfo Hall.
  pose proof (collect_variants_outcome info url lines Hinfo) as Hout.
  rewrite Forall_forall in Hall.
  destruct (collect_variants info url lines) as [variants|e|]; [| |exact Hout].
  - destruct variants as [|v new]; [reflexivity|].
    apply Forall_inv in Hout as (l & u & _ & Hu & _ & Hhash & _).
    rewrite (Hall u) in Hhash by now apply list_elem_of_In. discriminate.
  - destruct Hout as [Hline|(u & Hu & Hhash & _)]; [exact Hline|].
    rewrite (Hall u) in Hhash by now apply list_elem_of_In. discriminate.
Qed.

End Chain.
End ChainTotal.

Module ChainMore.
Import PyStr Py Playlist SpecWords More StrFacts LoopFacts PatternFacts
       ChainFacts MaxFacts ChainTotal.

Section Helpers.
Context `{Externals}.

(** [parse_m3u8] on a media playlist with a line that [urljoin]
    refuses. *)
Lemma parse_m3u8_refused content base_url before bad after e :
  has_stream_inf (stripped_lines content) = false ->
  non_comment_lines content = before ++ bad :: after ->
  Forall (fun line => exists uri, urljoin base_url line = Value uri) before ->
  urljoin base_url bad = Throws e ->
  parse_m3u8 content base_url = Raise e.
Proof.
  intros Hmedia Hsplit Hbefore Hbad. unfold parse_m3u8. rewrite Hmedia.
  rewrite MediaProps.non_comment_lines_stripped in Hsplit.
  now rewrite (MediaProps.segments_loop_refused _ _ _ _ _ _ [] Hsplit Hbefore Hbad).
Qed.



End Helpers.

(** X9.  When the first answer is a media playlist (no stream-info line),
    [resolve_segments_from_m3u8] and
    [detect_encryption_in_playlist_chain] each send that one request and
    nothing more.  When [urljoin] accepts every non-comment line, the
    resolver returns those lines joined with the URL it was given, in
    order, or raises "No segments found in playlist" when there is none;
    when [urljoin] refuses one, the resolver raises what [urljoin] raised
    on the first such line.  The probe returns what
    [playlist_has_encryption] says of the same text. *)
Theorem chain_on_media_playlist `{Externals} url hdrs timeout w top :
  urlopen (length (requests w)) (Request url hdrs timeout) = Body top ->
  has_stream_inf (stripped_lines (decode top)) = false ->
  (forall joined,
     Forall2 (fun line uri => urljoin url line = Value uri)
             (non_comment_lines (decode top)) joined ->
     resolve_segments_from_m3u8 url hdrs timeout w
     = (match joined with
        | [] => Raise (ValueError "No segments found in playlist")
        | _ :: _ => Ok joined
        end, after_top url hdrs timeout w))
  /\ (forall before bad after e,
        non_comment_lines (decode top) = before ++ bad :: after ->
        Forall (fun line => exists uri, urljoin url line = Value uri) before ->
        urljoin url bad = Throws e ->
        resolve_segments_from_m3u8 url hdrs timeout w
        = (Raise e, after_top url hdrs timeout w))
  /\ detect_encryption_in_playlist_chain url hdrs timeout w
     = (Ok (playlist_has_encryption (decode top)), after_top url hdrs timeout w).
Proof.
  intros Htop Hmedia. split; [|split].
  - intros joined Hjoined. rewrite (resolve_media _ _ _ _ _ Htop Hmedia).
    now rewrite (parse_m3u8_media _ _ _ Hmedia Hjoined).
  - intros before bad after e Hsplit Hbefore Hbad.
    rewrite (resolve_media _ _ _ _ _ Htop Hmedia).
    now rewrite (parse_m3u8_refused _ _ _ _ _ _ Hmedia Hsplit Hbefore Hbad).
  - exact (detect_media _ _ _ _ _ Htop Hmedia).
Qed.

(** X9 at the media playlist [mid.m3u8] of [Demo.cdn]. *)
Lemma chain_on_media_playlist_witness :
  @resolve_segments_from_m3u8 Demo.cdn "http://cdn/mid.m3u8" [] 30 world0
  = (Ok ["http://cdn/seg0.ts"; "http://cdn/seg1.ts"],
     after_top "http://cdn/mid.m3u8" [] 30 world0)
  /\ @detect_encryption_in_playlist_chain Demo.cdn "http://cdn/mid.m3u8" [] 30
       world0
     = (Ok false, after_top "http://cdn/mid.m3u8" [] 30 world0).
Proof.
  pose proof (@chain_on_media_playlist Demo.cdn "http://cdn/mid.m3u8" [] 30 world0
                (list_byte_of_string Demo.media_text) eq_refl eq_refl)
    as (Hresolve & _ & Hdetect).
  split; [|exact Hdetect].
  apply (Hresolve ["http://cdn/seg0.ts"; "http://cdn/seg1.ts"]).
  change (non_comment_lines
            (@decode Demo.cdn (list_byte_of_string Demo.media_text)))
    with ["seg0.ts"; "seg1.ts"].
  repeat constructor.
Defined.

(** X10.  When the first answer is a master playlist and the variant it
    selects answers with a media playlist, [resolve_segments_from_m3u8]
    sends exactly two requests, both with the headers and the timeout it
    was given.  When [urljoin] accepts every non-comment line of the media
    playlist, it returns those lines joined with the URL of the variant,
    not with the URL of the master, or raises "No segments found in
    playlist" when there is no such line; when [urljoin] refuses one, it
    raises what [urljoin] raised on the first such line. *)
Theorem resolve_joins_with_variant_url `{Externals} url hdrs timeout w top
    variants best_uri media :
  urlopen (length (requests w)) (Request url hdrs timeout) = Body top ->
  has_stream_inf (stripped_lines (decode top)) = true ->
  collect_variants bandwidth_resolve url (stripped_lines (decode top))
  = Ok variants ->
  best_by_bandwidth variants = Ok best_uri ->
  urlopen (S (length (requests w))) (Request best_uri hdrs timeout) = Body media ->
  has_stream_inf (stripped_lines (decode media)) = false ->
  (forall joined,
     Forall2 (fun line uri => urljoin best_uri line = Value uri)
             (non_comment_lines (decode media)) joined ->
     resolve_segments_from_m3u8 url hdrs timeout w
     = (match joined with
        | [] => Raise (ValueError "No segments found in playlist")
        | _ :: _ => Ok joined
        end,
        World (requests w
               ++ [Request url hdrs timeout; Request best_uri hdrs timeout])
              (slept w)))
  /\ (forall before bad after e,
        non_comment_lines (decode media) = before ++ bad :: after ->
        Forall (fun line => exists uri, urljoin best_uri line = Value uri) before ->
        urljoin best_uri bad = Throws e ->
        resolve_segments_from_m3u8 url hdrs timeout w
        = (Raise e,
           World (requests w
                  ++ [Request url hdrs timeout; Request best_uri hdrs timeout])
                 (slept w))).
Proof.
  intros Htop Hmaster Hvs Hbest Hmedia Hplain.
  rewrite (resolve_master _ _ _ _ _ _ Htop Hmaster Hvs).
  destruct variants as [|v0 rest]; [discriminate|].
  rewrite Hbest, Hmedia. split.
  - intros joined Hjoined.
    now rewrite (parse_m3u8_media _ _ _ Hplain Hjoined).
  - intros before bad after e Hsplit Hbefore Hbad.
    now rewrite (parse_m3u8_refused _ _ _ _ _ _ Hplain Hsplit Hbefore Hbad).
Qed.

(** X10 at [Demo.cdn]: the master playlist, then [mid.m3u8]. *)
Lemma resolve_joins_with_variant_url_witness :
  @resolve_segments_from_m3u8 Demo.cdn "http://cdn/master.m3u8" [] 30 world0
  = (Ok ["http://cdn/seg0.ts"; "http://cdn/seg1.ts"],
     World [Request "http://cdn/master.m3u8" [] 30;
            Request "http://cdn/mid.m3u8" [] 30] []).
Proof.
  apply (proj1 (@resolve_joins_with_variant_url Demo.cdn "http://cdn/master.m3u8"
           [] 30 world0 (list_byte_of_string Demo.master_text)
           [(500, "http://cdn/low.m3u8"); (1200, "http://cdn/mid.m3u8");
            (1200, "http://cdn/high.m3u8")]
           "http://cdn/mid.m3u8" (list_byte_of_string Demo.media_text)
           eq_refl eq_refl eq_refl eq_refl eq_refl eq_refl)
           ["http://cdn/seg0.ts"; "http://cdn/seg1.ts"]).
  change (non_comment_lines
            (@decode Demo.cdn (list_byte_of_string Demo.media_text)))
    with ["seg0.ts"; "seg1.ts"].
  repeat constructor.
Defined.



(** X13.  A master playlist without any URI line (every line is a
    directive, one of them a stream-info line): the resolver raises after
    its one request, "No HLS variants found in master playlist" or, when
    a stream-info line carries a bandwidth of more than 4300 digits, the
    refusal of [int]; with no line of more than 4300 characters it is the
    former.  The probe, on the same answer, reports "not encrypted"
    unless a line carries the literal text [BANDWIDTH=\d]; [main], which
    runs the probe first, therefore goes on to the resolver and fails
    there. *)
Theorem master_without_uri_lines `{Externals} url hdrs timeout w top :
  urlopen (length (requests w)) (Request url hdrs timeout) = Body top ->
  has_stream_inf (stripped_lines (decode top)) = true ->
  Forall (fun l => startswith "#" l = true) (stripped_lines (decode top)) ->
  (exists e,
     resolve_segments_from_m3u8 url hdrs timeout w
     = (Raise e, after_top url hdrs timeout w)
     /\ (e = ValueError "No HLS variants found in master playlist"
         \/ exists line ds, In line (stripped_lines (decode top))
              /\ startswith "#EXT-X-STREAM-INF" line = true
              /\ reads_digits line (Some ds)
              /\ (4300 < String.length ds)%nat
              /\ e = ValueError (int_limit_message (String.length ds))))
  /\ (Forall (fun l => (String.length l <= 4300)%nat) (stripped_lines (decode top)) ->
      resolve_segments_from_m3u8 url hdrs timeout w
      = (Raise (ValueError "No HLS variants found in master playlist"),
         after_top url hdrs timeout w))
  /\ ((forall line, In line (stripped_lines (decode top)) ->
         contains bandwidth_backslash_d line = false) ->
      detect_encryption_in_playlist_chain url hdrs timeout w
      = (Ok false, after_top url hdrs timeout w))
  /\ is_encrypted url hdrs timeout w = (Ok false, after_top url hdrs timeout w).
Proof.
  intros Htop Hmaster Hall.
  pose proof (collect_variants_only_directives bandwidth_resolve url _
                bandwidth_resolve_no_diverge Hall) as Hres.
  pose proof (collect_variants_only_directives bandwidth_detect url _
                bandwidth_detect_returns Hall) as Hdet.
  split; [|split; [|split]].
  - destruct (collect_variants bandwidth_resolve url (stripped_lines (decode top)))
      as [variants|e|] eqn:Hvs; [| |contradiction].
    + subst variants.
      rewrite (resolve_master _ _ _ _ _ _ Htop Hmaster Hvs). eauto.
    + rewrite (resolve_master_raises _ _ _ _ _ _ Htop Hmaster Hvs).
      exists e. split; [reflexivity|]. right.
      destruct (SelectionProps.collect_variants_resolve_raises _ _ _ Hvs)
        as [Hlimit|(u & Hu & Hhash & _)]; [exact Hlimit|].
      rewrite Forall_forall in Hall.
      rewrite (Hall u) in Hhash by now apply list_elem_of_In. discriminate.
  - intros Hshort.
    destruct (collect_variants bandwidth_resolve url (stripped_lines (decode top)))
      as [variants|e|] eqn:Hvs; [| |contradiction].
    + subst variants.
      now rewrite (resolve_master _ _ _ _ _ _ Htop Hmaster Hvs).
    + exfalso. destruct Hres as (line & Hin & _ & Hraise).
      rewrite Forall_forall in Hshort.
      destruct (bandwidth_resolve_short line) as [bw Hbw]; [|congruence].
      apply Hshort. now apply list_elem_of_In.
  - intros Hplain.
    destruct (collect_variants bandwidth_detect url (stripped_lines (decode top)))
      as [variants|e|] eqn:Hvs; [| |contradiction].
    + subst variants.
      now rewrite (detect_master _ _ _ _ _ _ Htop Hmaster Hvs).
    + exfalso. destruct Hdet as (line & Hin & _ & Hraise).
      destruct (bandwidth_detect_outcome line) as [Hok|[Hlit _]]; [congruence|].
      rewrite (Hplain line Hin) in Hlit. discriminate.
  - unfold is_encrypted, try_except.
    destruct (collect_variants bandwidth_detect url (stripped_lines (decode top)))
      as [variants|e|] eqn:Hvs; [| |contradiction].
    + subst variants.
      now rewrite (detect_master _ _ _ _ _ _ Htop Hmaster Hvs).
    + now rewrite (detect_master_raises _ _ _ _ _ _ Htop Hmaster Hvs).
Qed.

(** X13 at a master playlist that ends with its stream-info line. *)
Lemma master_without_uri_lines_witness :
  @resolve_segments_from_m3u8 Demo.bare_cdn "http://cdn/master.m3u8" [] 30 world0
  = (Raise (ValueError "No HLS variants found in master playlist"),
     after_top "http://cdn/master.m3u8" [] 30 world0)
  /\ @is_encrypted Demo.bare_cdn "http://cdn/master.m3u8" [] 30 world0
     = (Ok false, after_top "http://cdn/master.m3u8" [] 30 world0).
Proof.
  pose proof (@master_without_uri_lines Demo.bare_cdn "http://cdn/master.m3u8"
                [] 30 world0 (list_byte_of_string Demo.bare_master_text)
                eq_refl eq_refl) as Hbare.
  refine ((fun Hall Hshort =>
             conj (proj1 (proj2 (Hbare Hall)) Hshort)
                  (proj2 (proj2 (proj2 (Hbare Hall))))) _ _).
  - vm_compute. repeat constructor.
  - vm_compute. repeat constructor.
Defined.

End ChainMore.

(** ** The worker pool on any list of segments *)
Module PoolMoreFacts.
Import PyStr Py Fetch Names Pool SpecWords PoolSpec More StrFacts NameFacts
       PoolFacts.

Section Indices.
Variable outcome_of : nat -> option bytes.

Lemma delivered_omap l :
  omap (fun i => match outcome_of i with
                 | Some data => Some (segment_name i, data)
                 | None => None
                 end) l
  = segment_files (data_of outcome_of)
      (List.filter (fun i => match outcome_of i with Some _ => true | None => false end) l).
Proof.
  unfold segment_files, data_of. induction l as [|i l IH]; [reflexivity|].
  cbn [omap list_omap List.filter].
  destruct (outcome_of i) eqn:Hi; cbn [map].
  - rewrite Hi. f_equal. exact IH.
  - exact IH.
Qed.

Lemma delivered_segment_files n :
  delivered outcome_of n
  = segment_files (data_of outcome_of) (delivered_indices outcome_of n).
Proof. apply delivered_omap. Qed.

Lemma filter_sorted (f : nat -> bool) l :
  StronglySorted lt l -> StronglySorted lt (List.filter f l).
Proof.
  induction 1 as [|i l _ IH Hi]; simpl; [constructor|].
  destruct (f i); [|exact IH]. constructor; [exact IH|].
  apply Forall_forall. intros j Hj. rewrite Forall_forall in Hi. apply Hi.
  apply list_elem_of_In in Hj. apply filter_In in Hj as [Hj _].
  now apply list_elem_of_In.
Qed.

Lemma seq_sorted n : forall s, StronglySorted lt (seq s n).
Proof.
  induction n as [|n IH]; intros s; simpl; constructor; [apply IH|].
  apply Forall_forall. intros j Hj. apply elem_of_seq in Hj. lia.
Qed.

Lemma delivered_indices_sorted n : StronglySorted lt (delivered_indices outcome_of n).
Proof. apply filter_sorted, seq_sorted. Qed.

Lemma delivered_indices_elem n i :
  i ∈ delivered_indices outcome_of n
  <-> (i < n)%nat /\ exists data, outcome_of i = Some data.
Proof.
  unfold delivered_indices. rewrite list_elem_of_In, filter_In, <- list_elem_of_In.
  rewrite elem_of_seq. destruct (outcome_of i) as [d|]; split.
  - intros [Hi _]. split; [lia|eauto].
  - intros [Hi _]. split; [lia|reflexivity].
  - intros [_ Hx]. discriminate.
  - intros [_ [d Hd]]. discriminate.
Qed.

Lemma delivered_indices_bound n :
  (N.of_nat n <= 1000000)%N ->
  Forall (fun i => (N.of_nat i < 1000000)%N) (delivered_indices outcome_of n).
Proof.
  intros Hn. apply Forall_forall. intros i Hi.
  apply delivered_indices_elem in Hi as [Hi _]. lia.
Qed.

Lemma done_count_collected l :
  done_count (map (fun i => match outcome_of i with
                            | Some _ => Collected true None
                            | None => Collected false (Some 404)
                            end) l)
  = Z.of_nat (length (List.filter
                        (fun i => match outcome_of i with Some _ => true | None => false end) l)).
Proof.
  induction l as [|i l IH]; [reflexivity|].
  cbn [map done_count List.filter]. rewrite IH.
  destruct (outcome_of i); cbn [counted length]; lia.
Qed.

Lemma printed_from_collected n : forall s,
  printed_from s (map (fun i => match outcome_of i with
                                | Some _ => Collected true None
                                | None => Collected false (Some 404)
                                end) (seq s n))
  = map (fun i => (i, Some 404))
        (List.filter (fun i => match outcome_of i with Some _ => false | None => true end)
                     (seq s n)).
Proof.
  induction n as [|n IH]; intros s; [reflexivity|].
  cbn [seq map printed_from List.filter]. rewrite IH.
  now destruct (outcome_of s).
Qed.

Lemma bytes_from_collected n : forall s,
  bytes_from outcome_of s
    (map (fun i => match outcome_of i with
                   | Some _ => Collected true None
                   | None => Collected false (Some 404)
                   end) (seq s n))
  = Z.of_nat (length (concat (map (data_of outcome_of)
       (List.filter (fun i => match outcome_of i with Some _ => true | None => false end)
                    (seq s n))))).
Proof.
  induction n as [|n IH]; intros s; [reflexivity|].
  cbn [seq map bytes_from List.filter]. rewrite IH.
  destruct (outcome_of s) eqn:Hs; cbn [counted_bytes map concat].
  - rewrite length_app. lia.
  - lia.
Qed.

Lemma bytes_from_insert ts : forall s i t t',
  ts !! i = Some t ->
  bytes_from outcome_of s (<[i := t']> ts)
  = bytes_from outcome_of s ts - counted_bytes outcome_of (s + i) t
    + counted_bytes outcome_of (s + i) t'.
Proof.
  induction ts as [|x ts IH]; intros s [|i] t t' Hi; simpl in *; try discriminate.
  - injection Hi as ->. rewrite Nat.add_0_r. lia.
  - rewrite (IH (S s) i t t' Hi).
    replace (S s + i)%nat with (s + S i)%nat by lia. lia.
Qed.

Lemma bytes_from_submitted {A} (l : list A) s :
  bytes_from outcome_of s (map (fun _ => Submitted) l) = 0.
Proof.
  revert s. induction l as [|x l IH]; intros s; simpl; [reflexivity|].
  now rewrite IH.
Qed.

End Indices.

(** [try_download] returns on every network when the delays of its
    retries can be slept. *)
Lemma try_download_returns `{Externals} url hdrs timeout retries backoff w :
  (forall a, 0 <= a < retries -> can_sleep backoff a = true) ->
  exists r w', try_download url hdrs timeout retries backoff w = (Ok r, w').
Proof.
  intros Hsleep. destruct (Z.lt_ge_cases retries 0) as [Hneg|Hpos].
  - rewrite (FetchTotal.try_download_no_attempt _ _ _ _ _ _ Hneg). eauto.
  - destruct (FetchTotal.try_download_decided url hdrs timeout retries backoff w
                Hpos Hsleep) as (k & _ & _ & _ & ->). eauto.
Qed.

Section AnyNetwork.
Context `{Externals}.
Variables (urls : list string) (hdrs : headers) (timeout retries concurrency : Z).

Lemma advance_length i p p' :
  advance urls hdrs timeout retries concurrency i p = Some p' ->
  length (tasks p') = length (tasks p).
Proof.
  unfold advance.
  destruct (tasks p !! i) as [t|]; [|discriminate].
  destruct t as [|d c|d c|d c|ok c|ok c]; try discriminate;
    try (intros [= <-]; simpl; apply length_insert).
  destruct (_ && _); [|discriminate].
  destruct (urls !! i) as [url|]; [|discriminate].
  destruct (try_download _ _ _ _ _ _) as [[[[ok data] code]|e|] w'];
    try discriminate.
  intros [= <-]. simpl. apply length_insert.
Qed.

Lemma reachable_length p :
  rtc (step urls hdrs timeout retries concurrency) (initial urls) p ->
  length (tasks p) = length urls.
Proof.
  revert p. apply rtc_ind_r.
  - simpl. apply List.length_map.
  - intros p p' _ [i Hstep] IH. now rewrite (advance_length _ _ _ Hstep).
Qed.

(** Until every result is collected some task can move, whatever the
    network answers, when the delays of the retries can be slept. *)
Lemma progress_any_network p :
  (forall a, 0 <= a < retries -> can_sleep (1 # 2) a = true) ->
  0 < concurrency -> length (tasks p) = length urls -> finished p = false ->
  exists i p', advance urls hdrs timeout retries concurrency i p = Some p'.
Proof.
  intros Hsleep Hworkers Hlen Hfin.
  destruct (list_find (fun t => moves_left t <> 0%nat /\ moves_left t <> 5%nat)
                      (tasks p)) as [[i t]|] eqn:Hmoving.
  - apply list_find_Some in Hmoving as (Ht & Hmove & _).
    exists i. unfold advance. rewrite Ht.
    destruct t; simpl in Hmove; try lia; eauto.
  - apply list_find_None in Hmoving.
    destruct (list_find (fun t => moves_left t = 5%nat) (tasks p))
      as [[i t]|] eqn:Hqueued.
    + apply list_find_Some in Hqueued as (Ht & Hfive & Hfirst).
      assert (t = Submitted) as -> by (destruct t; simpl in Hfive; lia || reflexivity).
      assert (Hi : (i < length urls)%nat) by (apply lookup_lt_Some in Ht; lia).
      destruct (lookup_lt_is_Some_2 urls i Hi) as [url Hurl].
      exists i. unfold advance. rewrite Ht.
      assert (Hidle : running p = 0%nat).
      { apply no_running_0. eapply Forall_impl; [exact Hmoving|].
        intros t Hnot. destruct t; simpl in *; try reflexivity; exfalso;
          apply Hnot; lia. }
      rewrite Hidle.
      assert (Hfree : (Z.of_nat 0 <? concurrency) = true)
        by (apply Z.ltb_lt; simpl; lia).
      rewrite Hfree.
      replace (forallb (fun t => negb (is_submitted t)) (take i (tasks p)))
        with true.
      * simpl. rewrite Hurl.
        destruct (try_download_returns url hdrs timeout retries (1 # 2) (net p)
                    Hsleep) as ([[ok data] code] & w' & ->).
        eauto.
      * symmetry. apply forallb_forall. intros t Hin.
        apply list_elem_of_In, list_elem_of_lookup in Hin as [j Hj].
        apply lookup_take_Some in Hj as [Hj Hji].
        specialize (Hfirst j t Hj Hji). destruct t; simpl in *; congruence.
    + apply list_find_None in Hqueued. exfalso.
      assert (Hall : finished p = true); [|congruence].
      unfold finished. apply forallb_forall. intros t Hin.
      apply list_elem_of_In in Hin.
      rewrite Forall_forall in Hmoving, Hqueued.
      specialize (Hmoving t Hin). specialize (Hqueued t Hin).
      destruct t; simpl in *; try reflexivity; exfalso; try lia;
        apply Hmoving; lia.
Qed.

Lemma remaining_initial : remaining (initial urls) = (5 * length urls)%nat.
Proof.
  unfold remaining. simpl. induction urls as [|u l IH]; simpl; [reflexivity|].
  rewrite IH. lia.
Qed.

Lemma reachable_remaining p :
  rtc (step urls hdrs timeout retries concurrency) (initial urls) p ->
  (remaining p <= 5 * length urls)%nat.
Proof.
  intros Hreach. rewrite <- remaining_initial.
  induction Hreach as [|p p1 p' [i Hstep] _ IH]; [lia|].
  apply advance_remaining in Hstep. lia.
Qed.

End AnyNetwork.

Section Steady.
Context `{Externals}.
Variables (outcome_of : nat -> option bytes) (urls : list string)
          (hdrs : headers) (timeout retries concurrency : Z).
Hypothesis Hsteady : steady outcome_of urls.
Hypothesis Hretries : 0 <= retries.
Hypothesis Hsize : (N.of_nat (length urls) <= 1000000)%N.

(** [progress["bytes"]] is the size of the data of the tasks counted in
    [progress["done"]]. *)
Lemma reachable_bytes p :
  rtc (step urls hdrs timeout retries concurrency) (initial urls) p ->
  progress_bytes p = bytes_from outcome_of 0 (tasks p).
Proof.
  revert p. apply rtc_ind_r.
  - simpl. now rewrite bytes_from_submitted.
  - intros p p' Hreach [i Hstep] IH.
    pose proof (reachable_invariant outcome_of urls hdrs timeout retries
                  concurrency Hsteady Hretries Hsize p Hreach) as Hinv.
    unfold advance in Hstep.
    destruct (tasks p !! i) as [t|] eqn:Ht; [|discriminate].
    pose proof (inv_tasks _ _ _ Hinv i t Ht) as Hcons.
    pose proof (bytes_from_insert outcome_of (tasks p) 0 i t) as Hins.
    destruct t as [|d c|d c|d c|ok c|ok c]; simpl in Hcons.
    + destruct (_ && _); [|discriminate].
      destruct (urls !! i) as [url|] eqn:Hurl; [|discriminate].
      rewrite (try_download_steady outcome_of urls hdrs timeout retries
                 Hsteady Hretries Hsize i url _ Hurl) in Hstep.
      unfold final_result, answer_of, status_of in Hstep.
      destruct (outcome_of i) as [d|] eqn:Hout; injection Hstep as <-; simpl;
        rewrite (Hins _ Ht); simpl; lia.
    + injection Hstep as <-. simpl. rewrite (Hins _ Ht). simpl. lia.
    + injection Hstep as <-. simpl. rewrite (Hins _ Ht). simpl. lia.
    + injection Hstep as <-. simpl. rewrite (Hins _ Ht). simpl.
      destruct Hcons as (Hout & _). unfold data_of. rewrite Hout. lia.
    + injection Hstep as <-. simpl. rewrite (Hins _ Ht). simpl. lia.
    + discriminate.
Qed.

End Steady.
End PoolMoreFacts.

Module PoolMore.
Import PyStr Py Fetch Names Pool Assembler SpecWords PoolSpec More StrFacts
       NameFacts PoolFacts PoolMoreFacts.

(** X14.  [download_segments_concurrent] on any network, whatever the
    answers and whatever the interleaving of the tasks, when the delays of
    the retries can be slept (with the base of half a second that the
    pool passes: every attempt below [retries] is below 1024 and its delay
    [0.5 * 2^attempt] fits the clock of [time.sleep]): with at least one
    worker, every state the pool reaches has at most five moves per segment
    left, every step uses up one of them, and until every result is
    collected some task can move.  So the batch always runs to its end,
    after at most [5 * len(urls)] moves; no answer of the network blocks or
    aborts it. *)
Theorem pool_always_completes `{Externals} urls hdrs timeout retries
    concurrency p :
  (forall attempt, 0 <= attempt < retries -> can_sleep (1 # 2) attempt = true) ->
  0 < concurrency ->
  rtc (step urls hdrs timeout retries concurrency) (initial urls) p ->
  length (tasks p) = length urls
  /\ (remaining p <= 5 * length urls)%nat
  /\ (forall p', step urls hdrs timeout retries concurrency p p' ->
                 (remaining p' < remaining p)%nat)
  /\ (finished p = false ->
      exists p', step urls hdrs timeout retries concurrency p p')
  /\ (remaining p = 0%nat -> finished p = true).
Proof.
  intros Hsleep Hworkers Hreach.
  pose proof (reachable_length urls hdrs timeout retries concurrency p Hreach)
    as Hlen.
  split; [exact Hlen|]. split;
    [exact (reachable_remaining urls hdrs timeout retries concurrency p Hreach)|].
  split; [intros p' [i Hstep]; exact (advance_remaining _ _ _ _ _ _ _ _ Hstep)|].
  split.
  - intros Hfin.
    destruct (progress_any_network urls hdrs timeout retries concurrency p
                Hsleep Hworkers Hlen Hfin) as (i & p' & Hstep).
    exists p', i. exact Hstep.
  - intros Hzero. destruct (finished p) eqn:Hfin; [reflexivity|].
    destruct (progress_any_network urls hdrs timeout retries concurrency p
                Hsleep Hworkers Hlen Hfin) as (i & p' & Hstep).
    apply advance_remaining in Hstep. lia.
Qed.

(** X14 on [Demo.flaky], whose first two answers are HTTP 500: one
    segment, one worker, and the state after the first move. *)
Lemma pool_always_completes_witness :
  exists p,
    @run_schedule Demo.flaky ["http://cdn/seg0.ts"] [] 30 3 1 [0%nat]
      (initial ["http://cdn/seg0.ts"]) = Some p
    /\ (remaining p <= 5 * 1)%nat
    /\ (finished p = false ->
        exists p', @step Demo.flaky ["http://cdn/seg0.ts"] [] 30 3 1 p p').
Proof.
  destruct (@run_schedule Demo.flaky ["http://cdn/seg0.ts"] [] 30 3 1 [0%nat]
              (initial ["http://cdn/seg0.ts"])) as [p|] eqn:Hrun;
    [|vm_compute in Hrun; discriminate].
  exists p. split; [reflexivity|].
  assert (Hsleep : forall attempt, 0 <= attempt < 3 ->
                     @can_sleep Demo.flaky (1 # 2) attempt = true).
  { intros attempt Hattempt.
    assert (Hcases : attempt = 0 \/ attempt = 1 \/ attempt = 2) by lia.
    destruct Hcases as [-> | [-> | ->]]; reflexivity. }
  pose proof (@pool_always_completes Demo.flaky ["http://cdn/seg0.ts"] [] 30 3 1
                p Hsleep ltac:(lia) (run_schedule_steps _ _ _ _ _ _ _ _ Hrun))
    as (_ & Hrem & _ & Hlive & _).
  split; [exact Hrem|exact Hlive].
Defined.





(** X16.  The end of [download_segments_concurrent] for any list of up to
    10^6 segments on a network that answers each segment always the same
    way, with data or with HTTP 404: whatever the interleaving, once every
    result is collected the output directory holds exactly the files of the
    delivered segments, each with its data and under its six-digit name,
    and no temporary file; [progress["done"]] is the number of delivered
    segments, [progress["bytes"]] the total size of their data; and the
    failures printed are those of the other segments, each once, with code
    404. *)
Theorem pool_end_state `{Externals} outcome_of urls hdrs timeout retries
    concurrency p :
  steady outcome_of urls -> 0 <= retries ->
  (N.of_nat (length urls) <= 1000000)%N ->
  rtc (step urls hdrs timeout retries concurrency) (initial urls) p ->
  finished p = true ->
  let n := length urls in
  files p = list_to_map (segment_files (data_of outcome_of)
                                       (delivered_indices outcome_of n))
  /\ (forall i, (i < n)%nat ->
        files p !! segment_name i = outcome_of i
        /\ files p !! part_name i = None)
  /\ progress_done p = Z.of_nat (length (delivered_indices outcome_of n))
  /\ progress_bytes p
     = Z.of_nat (length (concat (map (data_of outcome_of)
                                     (delivered_indices outcome_of n))))
  /\ failures p ≡ₚ map (fun i => (i, Some 404)) (missing_indices outcome_of n).
Proof.
  intros Hsteady Hretries Hsize Hreach Hfin n.
  pose proof (reachable_invariant outcome_of urls hdrs timeout retries
                concurrency Hsteady Hretries Hsize p Hreach) as Hinv.
  destruct (invariant_finished outcome_of urls Hsize p Hinv Hfin)
    as (Hts & Hfiles & Hdone & Hfail).
  split; [now rewrite Hfiles, delivered_segment_files|]. split; [|split; [|split]].
  - intros i Hi. destruct Hinv as [Hlen Htasks _ _ _].
    destruct (lookup_lt_is_Some_2 (tasks p) i ltac:(lia)) as [t Ht].
    pose proof (Htasks i t Ht) as Hcons.
    rewrite Hts in Ht. unfold collected_tasks in Ht.
    rewrite list_lookup_fmap, lookup_seq_lt in Ht by exact Hi. simpl in Ht.
    unfold task_consistent, on_disk in Hcons.
    destruct (outcome_of i) as [d|]; injection Ht as <-;
      destruct Hcons as (_ & _ & Hseg & Hpart); now split.
  - rewrite Hdone. unfold collected_tasks. apply done_count_collected.
  - rewrite (reachable_bytes outcome_of urls hdrs timeout retries concurrency
               Hsteady Hretries Hsize p Hreach), Hts.
    apply bytes_from_collected.
  - rewrite Hfail. unfold collected_tasks, missing_indices.
    now rewrite printed_from_collected.
Qed.

(** X16 on [Demo.half_missing], along the schedule that finishes the
    segments out of order. *)
Lemma pool_end_state_witness :
  exists p,
    @run_schedule Demo.half_missing Demo.ten_urls [] 30 3 8 Demo.schedule
      (initial Demo.ten_urls) = Some p
    /\ progress_done p = 5
    /\ progress_bytes p = 25
    /\ failures p ≡ₚ [(5%nat, Some 404); (6%nat, Some 404); (7%nat, Some 404);
                      (8%nat, Some 404); (9%nat, Some 404)].
Proof.
  destruct (@run_schedule Demo.half_missing Demo.ten_urls [] 30 3 8
              Demo.schedule (initial Demo.ten_urls)) as [p|] eqn:Hrun;
    [|vm_compute in Hrun; discriminate].
  exists p. split; [reflexivity|].
  assert (Hfin : finished p = true).
  { vm_compute in Hrun. injection Hrun as <-. reflexivity. }
  pose proof (@pool_end_state Demo.half_missing
                (first_five Demo.segment_payload) Demo.ten_urls [] 30 3 8 p
                PoolProps.half_missing_steady ltac:(lia)
                ltac:(vm_compute; discriminate)
                (run_schedule_steps _ _ _ _ _ _ _ _ Hrun) Hfin)
    as (_ & _ & Hdone & Hbytes & Hfail).
  split; [exact Hdone|]. split; [exact Hbytes|exact Hfail].
Defined.

(** The directory after a finished run lists the files of the delivered
    segments, in some order. *)
Lemma finished_listing `{Externals} outcome_of urls hdrs timeout retries
    concurrency p dir :
  steady outcome_of urls -> 0 <= retries ->
  (N.of_nat (length urls) <= 1000000)%N ->
  rtc (step urls hdrs timeout retries concurrency) (initial urls) p ->
  finished p = true ->
  dir ≡ₚ map_to_list (files p) ->
  dir ≡ₚ segment_files (data_of outcome_of)
           (delivered_indices outcome_of (length urls))
  /\ glob_ts dir ≡ₚ segment_files (data_of outcome_of)
                      (delivered_indices outcome_of (length urls)).
Proof.
  intros Hsteady Hretries Hsize Hreach Hfin Hdir.
  pose proof (reachable_invariant outcome_of urls hdrs timeout retries
                concurrency Hsteady Hretries Hsize p Hreach) as Hinv.
  destruct (invariant_finished outcome_of urls Hsize p Hinv Hfin)
    as (Hts & Hfiles & _ & _).
  pose proof (delivered_indices_sorted outcome_of (length urls)) as Hsorted.
  pose proof (delivered_indices_bound outcome_of (length urls) Hsize) as Hbound.
  set (indices := delivered_indices outcome_of (length urls)) in *.
  assert (Hlisted : dir ≡ₚ segment_files (data_of outcome_of) indices).
  { rewrite Hdir, Hfiles, delivered_segment_files. fold indices.
    apply map_to_list_to_map.
    unfold segment_files. rewrite <- list_fmap_compose.
    apply NoDup_fmap_2_strong.
    - intros i j Hi Hj Heq. simpl in Heq.
      rewrite Forall_forall in Hbound.
      apply segment_name_inj; [now apply Hbound|now apply Hbound|exact Heq].
    - clear -Hsorted. induction Hsorted as [|i l _ IH Hi]; constructor.
      + intros Hin. rewrite Forall_forall in Hi. specialize (Hi i Hin). lia.
      + exact IH. }
  split; [exact Hlisted|].
  rewrite (AssemblerProps.glob_ts_perm _ _ Hlisted).
  pose proof (AssemblerProps.glob_ts_segments (data_of outcome_of) indices []
                (List.Forall_nil _)) as Hg.
  rewrite app_nil_r in Hg. now rewrite Hg.
Qed.

(** X17.  From the pool to the assembler.  After such a run,
    [concat_segments_to_ts] on the output directory, in whatever order the
    file system lists it, writes the data of the delivered segments in
    index order, so the missing segments leave gaps but never a wrong
    order, and the size of what it writes is [progress["bytes"]]; it raises
    "No segment files to merge" exactly when no segment was delivered. *)
Theorem pool_then_concat `{Externals} outcome_of urls hdrs timeout retries
    concurrency p dir :
  steady outcome_of urls -> 0 <= retries ->
  (N.of_nat (length urls) <= 1000000)%N ->
  rtc (step urls hdrs timeout retries concurrency) (initial urls) p ->
  finished p = true ->
  dir ≡ₚ map_to_list (files p) ->
  let indices := delivered_indices outcome_of (length urls) in
  concat_segments_to_ts dir
  = match indices with
    | [] => Raise (RuntimeError "No segment files to merge")
    | _ :: _ => Ok (concat (map (data_of outcome_of) indices))
    end
  /\ (forall out, concat_segments_to_ts dir = Ok out ->
        Z.of_nat (length out) = progress_bytes p)
  /\ length (glob_ts dir) = length indices.
Proof.
  intros Hsteady Hretries Hsize Hreach Hfin Hdir indices.
  pose proof (reachable_invariant outcome_of urls hdrs timeout retries
                concurrency Hsteady Hretries Hsize p Hreach) as Hinv.
  destruct (invariant_finished outcome_of urls Hsize p Hinv Hfin)
    as (Hts & Hfiles & _ & _).
  pose proof (delivered_indices_sorted outcome_of (length urls)) as Hsorted.
  pose proof (delivered_indices_bound outcome_of (length urls) Hsize) as Hbound.
  fold indices in Hsorted, Hbound.
  destruct (finished_listing outcome_of urls hdrs timeout retries concurrency
              p dir Hsteady Hretries Hsize Hreach Hfin Hdir) as [_ Hglob].
  fold indices in Hglob.
  assert (Hconcat : concat_segments_to_ts dir
    = match indices with
      | [] => Raise (RuntimeError "No segment files to merge")
      | _ :: _ => Ok (concat (map (data_of outcome_of) indices))
      end).
  { unfold concat_segments_to_ts.
    rewrite (AssemblerProps.py_sorted_segment_files (data_of outcome_of) indices
               (glob_ts dir) Hsorted Hbound Hglob).
    assert (Hdata : map snd (segment_files (data_of outcome_of) indices)
                    = map (data_of outcome_of) indices).
    { unfold segment_files. rewrite List.map_map. now apply List.map_ext. }
    destruct indices as [|i l]; [reflexivity|].
    rewrite <- Hdata. reflexivity. }
  split; [exact Hconcat|]. split.
  - intros out Hout. rewrite Hconcat in Hout.
    rewrite (reachable_bytes outcome_of urls hdrs timeout retries concurrency
               Hsteady Hretries Hsize p Hreach), Hts.
    unfold collected_tasks. rewrite bytes_from_collected.
    change (List.filter _ (seq 0 (length urls))) with indices.
    destruct indices as [|i l]; [discriminate|]. now injection Hout as <-.
  - rewrite Hglob. unfold segment_files. apply List.length_map.
Qed.

(** X17 on [Demo.half_missing]: the five delivered segments, merged in
    index order though written in the order 4, 3, 2, 1, 0. *)
Lemma pool_then_concat_witness :
  exists p,
    @run_schedule Demo.half_missing Demo.ten_urls [] 30 3 8 Demo.schedule
      (initial Demo.ten_urls) = Some p
    /\ concat_segments_to_ts (map_to_list (files p))
       = Ok (concat (map Demo.segment_payload [0; 1; 2; 3; 4]%nat)).
Proof.
  destruct (@run_schedule Demo.half_missing Demo.ten_urls [] 30 3 8
              Demo.schedule (initial Demo.ten_urls)) as [p|] eqn:Hrun;
    [|vm_compute in Hrun; discriminate].
  exists p. split; [reflexivity|].
  assert (Hfin : finished p = true).
  { vm_compute in Hrun. injection Hrun as <-. reflexivity. }
  exact (proj1 (@pool_then_concat Demo.half_missing
                  (first_five Demo.segment_payload) Demo.ten_urls [] 30 3 8 p
                  (map_to_list (files p))
                  PoolProps.half_missing_steady ltac:(lia)
                  ltac:(vm_compute; discriminate)
                  (run_schedule_steps _ _ _ _ _ _ _ _ Hrun) Hfin
                  (reflexivity _))).
Defined.

(** X18.  From the pool to the escalation test of [main].  After such a
    run the number of [.ts] files that [main] counts is the number of
    delivered segments, so [main] calls the ffmpeg fallback exactly when
    fewer than [max(1, floor(0.8 * n))] of the [n] segments were delivered.
    When every segment was delivered it assembles at once; when none was,
    it calls the fallback, and if that fails too the assembly raises "No
    segment files to merge". *)
Theorem escalation_after_pool `{Externals} outcome_of urls hdrs timeout
    retries concurrency p dir ffmpeg_ok :
  steady outcome_of urls -> 0 <= retries ->
  (N.of_nat (length urls) <= 1000000)%N ->
  rtc (step urls hdrs timeout retries concurrency) (initial urls) p ->
  finished p = true ->
  dir ≡ₚ map_to_list (files p) ->
  let downloaded := Z.of_nat (length (py_sorted (glob_ts dir))) in
  let delivered :=
    Z.of_nat (length (delivered_indices outcome_of (length urls))) in
  let segments := Z.of_nat (length urls) in
  downloaded = delivered
  /\ (In Strategy.FfmpegFallback
         (Strategy.after_manual_run downloaded segments ffmpeg_ok)
      <-> delivered < Z.max 1 (4 * segments / 5))
  /\ (delivered = segments -> 1 <= segments ->
      Strategy.after_manual_run downloaded segments ffmpeg_ok
      = [Strategy.Assemble])
  /\ (delivered = 0 ->
      Strategy.after_manual_run downloaded segments ffmpeg_ok
      = (if ffmpeg_ok then [Strategy.FfmpegFallback]
         else [Strategy.FfmpegFallback; Strategy.Assemble])
      /\ concat_segments_to_ts dir
         = Raise (RuntimeError "No segment files to merge")).
Proof.
  intros Hsteady Hretries Hsize Hreach Hfin Hdir downloaded delivered segments.
  destruct (finished_listing outcome_of urls hdrs timeout retries concurrency
              p dir Hsteady Hretries Hsize Hreach Hfin Hdir) as [_ Hglob].
  assert (Hcount : downloaded = delivered).
  { subst downloaded delivered. f_equal.
    destruct (AssemblerProps.py_sorted_spec (glob_ts dir)) as [Hp _].
    rewrite Hp, Hglob. unfold segment_files. apply List.length_map. }
  split; [exact Hcount|]. rewrite Hcount.
  unfold Strategy.after_manual_run, Strategy.too_many_failures,
    Strategy.int_0_8_times.
  assert (Hle : delivered <= segments).
  { subst delivered segments. apply inj_le. unfold delivered_indices.
    etransitivity; [apply List.filter_length_le|]. now rewrite length_seq. }
  split; [|split].
  - destruct (delivered <? Z.max 1 (4 * segments / 5)) eqn:Hlt.
    + apply Z.ltb_lt in Hlt. split; [intros _; exact Hlt|].
      intros _. destruct ffmpeg_ok; now left.
    + apply Z.ltb_ge in Hlt. split; [|lia].
      intros [Hin|[]]. discriminate.
  - intros Hall Hone. rewrite Hall.
    replace (segments <? Z.max 1 (4 * segments / 5)) with false; [reflexivity|].
    symmetry. apply Z.ltb_ge.
    pose proof (Z.div_le_upper_bound (4 * segments) 5 segments ltac:(lia)
                  ltac:(lia)). lia.
  - intros Hnone. rewrite Hnone. split.
    + replace (0 <? Z.max 1 (4 * segments / 5)) with true; [reflexivity|].
      symmetry. apply Z.ltb_lt. lia.
    + unfold concat_segments_to_ts.
      assert (Hempty : glob_ts dir = []).
      { apply Permutation_nil. rewrite Hglob.
        subst delivered.
        destruct (delivered_indices outcome_of (length urls));
          [reflexivity|discriminate]. }
      now rewrite Hempty.
Qed.

(** X18 on [Demo.half_missing]: five of ten segments, fewer than eight,
    so the fallback runs. *)
Lemma escalation_after_pool_witness :
  exists p,
    @run_schedule Demo.half_missing Demo.ten_urls [] 30 3 8 Demo.schedule
      (initial Demo.ten_urls) = Some p
    /\ In Strategy.FfmpegFallback
         (Strategy.after_manual_run
            (Z.of_nat (length (py_sorted (glob_ts (map_to_list (files p))))))
            10 true).
Proof.
  destruct (@run_schedule Demo.half_missing Demo.ten_urls [] 30 3 8
              Demo.schedule (initial Demo.ten_urls)) as [p|] eqn:Hrun;
    [|vm_compute in Hrun; discriminate].
  exists p. split; [reflexivity|].
  assert (Hfin : finished p = true).
  { vm_compute in Hrun. injection Hrun as <-. reflexivity. }
  pose proof (@escalation_after_pool Demo.half_missing
                (first_five Demo.segment_payload) Demo.ten_urls [] 30 3 8 p
                (map_to_list (files p)) true
                PoolProps.half_missing_steady ltac:(lia)
                ltac:(vm_compute; discriminate)
                (run_schedule_steps _ _ _ _ _ _ _ _ Hrun) Hfin
                (reflexivity _)) as (_ & Hesc & _).
  apply Hesc. vm_compute. reflexivity.
Defined.

End PoolMore.

(** ** Atomic writes and file names *)
Module FileProps.
Import PyStr Py Fetch Names Pool Assembler SpecWords PoolSpec More StrFacts
       NameFacts.

Lemma part_suffix_differs path : path <> path +:+ ".part".
Proof.
  intros Heq. apply (f_equal String.length) in Heq.
  rewrite length_append in Heq. simpl in Heq. lia.
Qed.

(** X19.  [write_atomic(path, data)] seen as a function of the directory:
    afterwards [path] holds exactly [data], the temporary file
    [path + ".part"] does not exist (a stale one from an interrupted write
    is gone too), and no other file has changed; writing twice leaves what
    the last write alone leaves.  The two file moves of a pool task that has
    fetched its data are those of [write_atomic] on the segment's file. *)
Theorem write_atomic_replaces `{Externals} path data
    (fs : gmap string bytes) :
  write_atomic path data fs !! path = Some data
  /\ write_atomic path data fs !! (path +:+ ".part") = None
  /\ (forall other, other <> path -> other <> path +:+ ".part" ->
        write_atomic path data fs !! other = fs !! other)
  /\ (forall earlier,
        write_atomic path data (write_atomic path earlier fs)
        = write_atomic path data fs)
  /\ (forall urls hdrs timeout retries concurrency i p d c,
        files p = fs -> tasks p !! i = Some (Fetched d c) ->
        exists p1 p2,
          advance urls hdrs timeout retries concurrency i p = Some p1
          /\ advance urls hdrs timeout retries concurrency i p1 = Some p2
          /\ files p2 = write_atomic (segment_name i) d fs
          /\ tasks p2 = <[i := Replaced d c]> (tasks p)).
Proof.
  assert (Hpath : forall d f, write_atomic path d f !! path = Some d).
  { intros d f. unfold write_atomic. apply lookup_insert_eq. }
  assert (Htmp : forall d f, write_atomic path d f !! (path +:+ ".part") = None).
  { intros d f. unfold write_atomic.
    rewrite lookup_insert_ne by apply part_suffix_differs.
    apply lookup_delete_eq. }
  assert (Hother : forall d f other, other <> path -> other <> path +:+ ".part" ->
            write_atomic path d f !! other = f !! other).
  { intros d f other H1 H2. unfold write_atomic.
    rewrite lookup_insert_ne by congruence.
    rewrite lookup_delete_ne by congruence.
    apply lookup_insert_ne. congruence. }
  split; [apply Hpath|]. split; [apply Htmp|]. split; [apply Hother|]. split.
  - intros earlier. apply map_eq. intros k.
    destruct (decide (k = path)) as [->|H1]; [now rewrite !Hpath|].
    destruct (decide (k = path +:+ ".part")) as [->|H2]; [now rewrite !Htmp|].
    now rewrite !Hother.
  - intros urls hdrs timeout retries concurrency i p d c Hfs Ht.
    assert (Hi : (i < length (tasks p))%nat) by (eapply lookup_lt_Some, Ht).
    eexists. eexists. split; [unfold advance; rewrite Ht; reflexivity|].
    split.
    + unfold advance. cbn [tasks].
      rewrite list_lookup_insert_eq by exact Hi. reflexivity.
    + cbn [files tasks]. split; [now rewrite Hfs|].
      apply list_insert_insert_eq.
Qed.

(** X20.  The names [f"{index:06d}.ts"]: below one million segments a name
    has nine characters, distinct indices have distinct names, and a
    smaller index has the smaller name, so sorting by name is sorting by
    index; no segment file is taken for a temporary file.  The bound is
    tight: the name of segment 1000000 is smaller than that of segment
    999999, and [concat_segments_to_ts] writes that segment first. *)
Theorem segment_names_follow_indices :
  (forall i, (N.of_nat i < 1000000)%N -> String.length (segment_name i) = 9%nat)
  /\ (forall i j, (i < j)%nat -> (N.of_nat j < 1000000)%N ->
        String.ltb (segment_name i) (segment_name j) = true)
  /\ (forall i j, (N.of_nat i < 1000000)%N -> (N.of_nat j < 1000000)%N ->
        segment_name i = segment_name j -> i = j)
  /\ (forall i j, segment_name i <> part_name j
                  /\ endswith ".ts" (segment_name i) = true
                  /\ endswith ".ts" (part_name j) = false)
  /\ String.ltb (segment_name (N.to_nat 1000000)) (segment_name (N.to_nat 999999))
     = true
  /\ (forall a b,
        concat_segments_to_ts [(segment_name (N.to_nat 999999), a);
                               (segment_name (N.to_nat 1000000), b)]
        = Ok (b ++ a)).
Proof.
  split; [|split; [|split; [|split; [|split]]]].
  - intros i Hi. rewrite (segment_name_fixed i Hi), fixed_width_length.
    reflexivity.
  - intros i j Hij Hj. unfold String.ltb. now rewrite (segment_name_lt i j Hij Hj).
  - apply segment_name_inj.
  - intros i j. split; [apply segment_name_not_part_name|].
    split; [apply endswith_ts_segment_name|apply endswith_ts_part_name].
  - vm_compute. reflexivity.
  - intros a b.
    assert (H1 : segment_name (N.to_nat 999999) = "999999.ts")
      by (vm_compute; reflexivity).
    assert (H2 : segment_name (N.to_nat 1000000) = "1000000.ts")
      by (vm_compute; reflexivity).
    rewrite H1, H2. unfold concat_segments_to_ts. simpl. now rewrite app_nil_r.
Qed.

End FileProps.

(** ** Line endings *)
Module LineProps.
Import PyStr Py Playlist SpecWords More StrFacts HeaderFacts.

Lemma rev_onto_rev_onto s : forall acc t,
  rev_onto (rev_onto s acc) t = rev_onto acc (s +:+ t).
Proof.
  induction s as [|c s IH]; intros acc t; simpl.
  - now rewrite append_nil_l.
  - rewrite IH. simpl. now rewrite append_cons.
Qed.

Lemma splitlines_from_line line : forall cur rest,
  no_linebreak line = true ->
  splitlines_from cur (line +:+ rest) = splitlines_from (rev_onto line cur) rest.
Proof.
  unfold no_linebreak.
  induction line as [|c line IH]; intros cur rest Hline.
  - now rewrite append_nil_l.
  - simpl in Hline. apply andb_true_iff in Hline as [Hc Hline].
    apply negb_true_iff in Hc.
    rewrite append_cons. cbn [splitlines_from rev_onto]. rewrite Hc.
    now apply IH.
Qed.

Lemma splitlines_from_lf cur rest :
  splitlines_from cur (lf +:+ rest) = rev cur :: splitlines_from EmptyString rest.
Proof.
  unfold lf. rewrite append_cons, append_nil_l. cbn [splitlines_from].
  change (is_linebreak (ascii_of_nat 10)) with true.
  change (is_cr (ascii_of_nat 10)) with false. cbn [andb].
  now destruct rest.
Qed.

Lemma splitlines_from_crlf cur rest :
  splitlines_from cur (crlf +:+ rest) = rev cur :: splitlines_from EmptyString rest.
Proof.
  unfold crlf. rewrite !append_cons, append_nil_l. cbn [splitlines_from].
  change (is_linebreak (ascii_of_nat 13)) with true.
  change (is_cr (ascii_of_nat 13)) with true.
  change (is_lf (ascii_of_nat 10)) with true. reflexivity.
Qed.

Lemma concat_cons sep l l' ls :
  String.concat sep (l :: l' :: ls) = l +:+ sep +:+ String.concat sep (l' :: ls).
Proof. reflexivity. Qed.

Lemma splitlines_crlf_lf lines : forall cur,
  Forall (fun l => no_linebreak l = true) lines ->
  splitlines_from cur (String.concat crlf lines)
  = splitlines_from cur (String.concat lf lines).
Proof.
  induction lines as [|l ls IH]; intros cur Hall; [reflexivity|].
  destruct ls as [|l' ls]; [reflexivity|].
  apply Forall_cons in Hall as [Hl Hall].
  rewrite !concat_cons, !(splitlines_from_line l _ _ Hl).
  rewrite splitlines_from_crlf, splitlines_from_lf.
  f_equal. now apply IH.
Qed.

Lemma splitlines_joined ls : forall l cur,
  Forall (fun l => no_linebreak l = true) (l :: ls) ->
  last (l :: ls) <> Some EmptyString ->
  splitlines_from cur (String.concat lf (l :: ls)) = (rev cur +:+ l) :: ls.
Proof.
  induction ls as [|l' ls IH]; intros l cur Hall Hlast.
  - apply Forall_cons in Hall as [Hl _].
    change (String.concat lf [l]) with l.
    rewrite <- (append_nil_r l) at 1.
    rewrite (splitlines_from_line l _ _ Hl). cbn [splitlines_from].
    unfold rev. rewrite rev_onto_app, append_nil_l.
    destruct l as [|c l]; [now contradiction Hlast|].
    cbn [rev_onto].
    assert (Hne : forall s c' acc, is_empty (rev_onto s (String c' acc)) = false).
    { induction s as [|d s IHs]; intros c' acc; [reflexivity|apply IHs]. }
    rewrite Hne. unfold rev. f_equal.
    change (rev_onto (rev_onto l (String c cur)) EmptyString)
      with (rev_onto (rev_onto (String c l) cur) EmptyString).
    now rewrite rev_onto_rev_onto, append_nil_r.
  - apply Forall_cons in Hall as [Hl Hall].
    rewrite concat_cons, (splitlines_from_line l _ _ Hl), splitlines_from_lf.
    rewrite (IH l' EmptyString Hall) by (now rewrite last_cons_cons in Hlast).
    unfold rev. rewrite rev_onto_rev_onto, append_nil_r, append_nil_l.
    f_equal. now rewrite rev_onto_app, append_nil_l.
Qed.

(** X22.  Line endings.  A text whose lines are joined with CR LF is read
    like the same lines joined with LF: [splitlines] gives the same lines,
    so [parse_m3u8], [parse_master_variants_only] and
    [playlist_has_encryption] give the same results on both.  And joining
    lines with LF is undone by [splitlines], provided that no line holds a
    line break and the last line is not empty. *)
Theorem crlf_read_like_lf `{Externals} lines :
  Forall (fun l => no_linebreak l = true) lines ->
  splitlines (String.concat crlf lines) = splitlines (String.concat lf lines)
  /\ (forall base_url,
        parse_m3u8 (String.concat crlf lines) base_url
        = parse_m3u8 (String.concat lf lines) base_url)
  /\ (forall base_url,
        parse_master_variants_only (String.concat crlf lines) base_url
        = parse_master_variants_only (String.concat lf lines) base_url)
  /\ playlist_has_encryption (String.concat crlf lines)
     = playlist_has_encryption (String.concat lf lines)
  /\ (last lines <> Some EmptyString ->
      splitlines (String.concat lf lines) = lines).
Proof.
  intros Hall.
  assert (Hsplit : splitlines (String.concat crlf lines)
                   = splitlines (String.concat lf lines)).
  { unfold splitlines. now apply splitlines_crlf_lf. }
  split; [exact Hsplit|].
  assert (Hstripped : stripped_lines (String.concat crlf lines)
                      = stripped_lines (String.concat lf lines)).
  { unfold stripped_lines. now rewrite Hsplit. }
  split; [intros base_url; unfold parse_m3u8; now rewrite Hstripped|].
  split; [intros base_url; unfold parse_master_variants_only;
          now rewrite Hstripped|].
  split; [unfold playlist_has_encryption; now rewrite Hsplit|].
  intros Hlast. destruct lines as [|l ls]; [reflexivity|].
  unfold splitlines. rewrite (splitlines_joined ls l EmptyString Hall Hlast).
  now rewrite append_nil_l.
Qed.

(** X22 at the example media playlist with CR LF line endings. *)
Lemma crlf_read_like_lf_witness :
  @parse_m3u8 Demo.cdn
    (String.concat crlf
       [ "#EXTM3U"; "#EXTINF:4.0,"; "seg0.ts"; "#EXTINF:4.0,"; "seg1.ts" ])
    "http://cdn/mid.m3u8"
  = @parse_m3u8 Demo.cdn Demo.media_text "http://cdn/mid.m3u8".
Proof.
  exact (proj1 (proj2 (@crlf_read_like_lf Demo.cdn
           [ "#EXTM3U"; "#EXTINF:4.0,"; "seg0.ts"; "#EXTINF:4.0,"; "seg1.ts" ]
           ltac:(repeat constructor))) "http://cdn/mid.m3u8").
Defined.

End LineProps.

(** ** The requests of the pool *)
Module PoolRequests.
Import PyStr Py Fetch Names Pool SpecWords PoolSpec More StrFacts PoolFacts
       PoolMoreFacts.

(** A steady network decides [try_download] with its first answer. *)
Lemma try_download_first_answer `{Externals} outcome_of urls hdrs timeout
    retries i url w :
  steady outcome_of urls -> 0 <= retries -> urls !! i = Some url ->
  try_download url hdrs timeout retries (1 # 2) w
  = (Ok (final_result (answer_of outcome_of i)), after_top url hdrs timeout w).
Proof.
  intros Hsteady Hretries Hurl. unfold try_download, range.
  replace (retries + 1) with (retries + 1 - 0) by lia.
  rewrite (FetchProps.for_attempts_run url hdrs timeout retries (1 # 2) 0 0 w);
    try lia.
  - rewrite (Hsteady i url Hurl). f_equal.
    unfold after_attempts, after_top. simpl. now rewrite app_nil_r.
  - left. rewrite (Hsteady i url Hurl). unfold answer_of.
    now destruct (outcome_of i).
Qed.

Lemma lookup_insert_submitted (ts : list task) i j t' t :
  (i < length ts)%nat -> t' <> Submitted ->
  <[i := t']> ts !! j = Some t ->
  (j = i /\ t = t') \/ (j <> i /\ ts !! j = Some t).
Proof.
  intros Hi Hne Hj. destruct (decide (j = i)) as [->|Hji].
  - rewrite list_lookup_insert_eq in Hj by exact Hi. left. split; congruence.
  - rewrite list_lookup_insert_ne in Hj by congruence. now right.
Qed.

(** In the model a task sends its request in the move that starts it, so
    the requests logged are those of a prefix of the list. *)
Lemma reachable_requests_prefix `{Externals} outcome_of urls hdrs timeout
    retries concurrency p :
  steady outcome_of urls -> 0 <= retries ->
  rtc (step urls hdrs timeout retries concurrency) (initial urls) p ->
  (exists k, (k <= length urls)%nat
     /\ requests (net p)
        = map (fun url => Request url hdrs timeout) (take k urls)
     /\ (forall i t, tasks p !! i = Some t -> (t = Submitted <-> (k <= i)%nat)))
  /\ slept (net p) = []
  /\ (finished p = true ->
      requests (net p) = map (fun url => Request url hdrs timeout) urls).
Proof.
  intros Hsteady Hretries Hreach.
  pose proof (reachable_length urls hdrs timeout retries concurrency p Hreach)
    as Hlen.
  assert (Hinv : (exists k, (k <= length urls)%nat
     /\ requests (net p)
        = map (fun url => Request url hdrs timeout) (take k urls)
     /\ (forall i t, tasks p !! i = Some t -> (t = Submitted <-> (k <= i)%nat)))
     /\ slept (net p) = []).
  { clear Hlen. revert p Hreach. apply rtc_ind_r.
    - split; [|reflexivity]. exists 0%nat. split; [lia|]. split; [reflexivity|].
      intros i t Hi. simpl in Hi. rewrite list_lookup_fmap in Hi.
      destruct (urls !! i); [|discriminate]. injection Hi as <-.
      split; [lia|reflexivity].
    - intros p p' Hreach [i Hstep] [(k & Hk & Hreq & Htasks) Hslept].
      pose proof (reachable_length urls hdrs timeout retries concurrency p Hreach)
        as Hlen.
      unfold advance in Hstep.
      destruct (tasks p !! i) as [t|] eqn:Ht; [|discriminate].
      assert (Hi : (i < length (tasks p))%nat) by (eapply lookup_lt_Some, Ht).
      assert (Hsame : forall t', t <> Submitted -> t' <> Submitted ->
        (exists k0, (k0 <= length urls)%nat
           /\ requests (net p)
              = map (fun url => Request url hdrs timeout) (take k0 urls)
           /\ (forall j tj, <[i := t']> (tasks p) !! j = Some tj ->
                 (tj = Submitted <-> (k0 <= j)%nat)))).
      { intros t' Hnt Hnt'. exists k. split; [exact Hk|]. split; [exact Hreq|].
        intros j tj Hj.
        destruct (lookup_insert_submitted _ _ _ _ _ Hi Hnt' Hj)
          as [[-> ->]|[Hji Hj']]; [|now apply Htasks].
        split; [contradiction|]. intros Hki.
        exfalso. apply Hnt. now apply (Htasks i t Ht). }
      destruct t as [|d c|d c|d c|ok c|ok c].
      + destruct (_ && _) eqn:Hcond; [|discriminate].
        apply andb_true_iff in Hcond as [_ Hfirst].
        destruct (urls !! i) as [url|] eqn:Hurl; [|discriminate].
        rewrite (try_download_first_answer outcome_of urls hdrs timeout retries
                   i url _ Hsteady Hretries Hurl) in Hstep.
        assert (Hki : k = i).
        { pose proof (proj1 (Htasks i Submitted Ht) eq_refl) as Hle.
          destruct (decide (k = i)) as [Heq|Hne]; [exact Heq|]. exfalso.
          assert (Hlt : (k < length (tasks p))%nat) by lia.
          destruct (lookup_lt_is_Some_2 (tasks p) k Hlt) as [tk Htk].
          pose proof (proj2 (Htasks k tk Htk) ltac:(lia)) as ->.
          rewrite forallb_forall in Hfirst.
          specialize (Hfirst Submitted).
          assert (Hin : In Submitted (take i (tasks p))).
          { apply list_elem_of_In. eapply list_elem_of_lookup_2.
            apply lookup_take_Some. split; [exact Htk|lia]. }
          specialize (Hfirst Hin). discriminate. }
        subst k.
        assert (Hnew : forall t', t' <> Submitted ->
          (exists k0, (k0 <= length urls)%nat
             /\ requests (net p) ++ [Request url hdrs timeout]
                = map (fun url => Request url hdrs timeout) (take k0 urls)
             /\ (forall j tj, <[i := t']> (tasks p) !! j = Some tj ->
                   (tj = Submitted <-> (k0 <= j)%nat)))).
        { intros t' Hnt'. exists (S i). split; [lia|]. split.
          - rewrite Hreq, (take_S_r urls i url Hurl), map_app. reflexivity.
          - intros j tj Hj.
            destruct (lookup_insert_submitted _ _ _ _ _ Hi Hnt' Hj)
              as [[-> ->]|[Hji Hj']].
            + split; [contradiction|lia].
            + rewrite (Htasks j tj Hj'). lia. }
        unfold final_result, answer_of, status_of in Hstep.
        destruct (outcome_of i) as [d|]; injection Hstep as <-;
          cbn [net tasks requests slept after_top];
          (split; [apply Hnew; discriminate|exact Hslept]).
      + injection Hstep as <-. cbn [net tasks].
        split; [apply Hsame; discriminate|exact Hslept].
      + injection Hstep as <-. cbn [net tasks].
        split; [apply Hsame; discriminate|exact Hslept].
      + injection Hstep as <-. cbn [net tasks].
        split; [apply Hsame; discriminate|exact Hslept].
      + injection Hstep as <-. cbn [net tasks].
        split; [apply Hsame; discriminate|exact Hslept].
      + discriminate. }
  destruct Hinv as [Hprefix Hslept].
  split; [exact Hprefix|]. split; [exact Hslept|].
  intros Hfin. destruct Hprefix as (k & Hk & Hreq & Htasks).
  assert (Hkn : k = length urls).
  { destruct (decide (k = length urls)) as [Heq|Hne]; [exact Heq|]. exfalso.
    assert (Hlt : (k < length (tasks p))%nat) by lia.
    destruct (lookup_lt_is_Some_2 (tasks p) k Hlt) as [tk Htk].
    pose proof (proj2 (Htasks k tk Htk) ltac:(lia)) as ->.
    unfold finished in Hfin. rewrite forallb_forall in Hfin.
    specialize (Hfin Submitted
                  ltac:(eapply list_elem_of_In, list_elem_of_lookup_2, Htk)).
    discriminate. }
  rewrite Hreq, Hkn. now rewrite take_ge by lia.
Qed.

(** X23.  The requests of [download_segments_concurrent] on a network
    that answers each segment always the same way, whatever the order in
    which the workers reach the network: each task that has started sends
    one request, for its own URL and with the headers and the timeout of
    the call, and none ever sleeps; so at every moment the requests sent
    are, up to their order, those of some of the segments of the list,
    each segment at most once, and at the end there is exactly one request
    per segment.  A missing segment is not asked for twice. *)
Theorem pool_requests_one_per_segment `{Externals} outcome_of urls hdrs timeout
    retries concurrency p :
  steady outcome_of urls -> 0 <= retries ->
  rtc (step urls hdrs timeout retries concurrency) (initial urls) p ->
  (exists started, started ⊆+ urls
     /\ requests (net p)
        ≡ₚ map (fun url => Request url hdrs timeout) started)
  /\ slept (net p) = []
  /\ (finished p = true ->
      requests (net p) ≡ₚ map (fun url => Request url hdrs timeout) urls).
Proof.
  intros Hsteady Hretries Hreach.
  destruct (reachable_requests_prefix outcome_of urls hdrs timeout retries
              concurrency p Hsteady Hretries Hreach)
    as ((k & _ & Hreq & _) & Hslept & Hend).
  split; [|split; [exact Hslept|]].
  - exists (take k urls). split; [|now rewrite Hreq].
    apply sublist_submseteq, sublist_take.
  - intros Hfin. now rewrite (Hend Hfin).
Qed.

(** X23 on [Demo.half_missing]: ten requests, one for each URL of the
    list, though the tasks finish out of order. *)
Lemma pool_requests_one_per_segment_witness :
  exists p,
    @run_schedule Demo.half_missing Demo.ten_urls [] 30 3 8 Demo.schedule
      (initial Demo.ten_urls) = Some p
    /\ requests (net p) ≡ₚ map (fun url => Request url [] 30) Demo.ten_urls
    /\ slept (net p) = [].
Proof.
  destruct (@run_schedule Demo.half_missing Demo.ten_urls [] 30 3 8
              Demo.schedule (initial Demo.ten_urls)) as [p|] eqn:Hrun;
    [|vm_compute in Hrun; discriminate].
  exists p. split; [reflexivity|].
  assert (Hfin : finished p = true).
  { vm_compute in Hrun. injection Hrun as <-. reflexivity. }
  pose proof (@pool_requests_one_per_segment Demo.half_missing
                (first_five Demo.segment_payload) Demo.ten_urls [] 30 3 8 p
                PoolProps.half_missing_steady ltac:(lia)
                (run_schedule_steps _ _ _ _ _ _ _ _ Hrun))
    as (_ & Hslept & Hend).
  split; [exact (Hend Hfin)|exact Hslept].
Defined.

End PoolRequests.

(** ** The files of the pool on any network *)
Module PoolIntegrity.
Import PyStr Py Fetch Names Pool SpecWords PoolSpec More StrFacts NameFacts
       PoolFacts PoolMoreFacts.

(** A call of [try_download] that returns leaves the requests it found
    in place and adds its own. *)
Lemma try_download_ok_world `{Externals} url hdrs timeout retries backoff w
    r w' :
  try_download url hdrs timeout retries backoff w = (Ok r, w') ->
  (r = (false, None, None) /\ w' = w)
  \/ exists k : nat,
       r = final_result (urlopen (length (requests w) + k) (Request url hdrs timeout))
       /\ w' = after_attempts (Request url hdrs timeout) backoff w (S k) 0 k.
Proof.
  intros Hrun. destruct (Z.lt_ge_cases retries 0) as [Hneg|Hpos].
  - rewrite (FetchTotal.try_download_no_attempt _ _ _ _ _ _ Hneg) in Hrun.
    left. now injection Hrun as <- <-.
  - destruct (FetchTotal.try_download_outcome url hdrs timeout retries backoff w
                Hpos) as (k & _ & _ & _ & [[_ Hk]|(_ & _ & _ & Hk)]);
      rewrite Hk in Hrun; [|discriminate].
    right. exists k. now injection Hrun as <- <-.
Qed.

(** A successful [try_download] returns the body that the network gave
    in answer to one of the requests it has logged. *)
Lemma try_download_data `{Externals} url hdrs timeout retries backoff w
    data code w' :
  try_download url hdrs timeout retries backoff w = (Ok (true, Some data, code), w') ->
  exists k, requests w' !! k = Some (Request url hdrs timeout)
    /\ urlopen k (Request url hdrs timeout) = Body data.
Proof.
  intros Hrun.
  destruct (try_download_ok_world _ _ _ _ _ _ _ _ Hrun)
    as [[Hr _]|(k & Hr & ->)]; [discriminate|].
  exists (length (requests w) + k)%nat. split.
  - unfold after_attempts. cbn [requests].
    rewrite lookup_app_r by lia.
    replace (length (requests w) + k - length (requests w))%nat with k by lia.
    apply lookup_replicate_2. lia.
  - destruct (urlopen (length (requests w) + k) (Request url hdrs timeout))
      as [d|e]; simpl in Hr; [|discriminate].
    now injection Hr as ->.
Qed.

(** The requests logged before a call are still logged after it, at the
    same places. *)
Lemma try_download_keeps_log `{Externals} url hdrs timeout retries backoff w
    r w' k req :
  try_download url hdrs timeout retries backoff w = (Ok r, w') ->
  requests w !! k = Some req -> requests w' !! k = Some req.
Proof.
  intros Hrun Hk.
  destruct (try_download_ok_world _ _ _ _ _ _ _ _ Hrun)
    as [[_ ->]|(n & _ & ->)]; [exact Hk|].
  unfold after_attempts. cbn [requests]. now apply lookup_app_l_Some.
Qed.

Section AnyNetwork.
Context `{Externals}.
Variables (urls : list string) (hdrs : headers) (timeout retries concurrency : Z).

Lemma served_later w w' i data :
  (forall k req, requests w !! k = Some req -> requests w' !! k = Some req) ->
  served urls hdrs timeout w i data -> served urls hdrs timeout w' i data.
Proof.
  intros Hlog (url & k & Hurl & Hk & Hans). exists url, k.
  split; [exact Hurl|]. split; [now apply Hlog|exact Hans].
Qed.

Lemma reachable_served p :
  rtc (step urls hdrs timeout retries concurrency) (initial urls) p ->
  (forall i t data, tasks p !! i = Some t -> carried t = Some data ->
     served urls hdrs timeout (net p) i data)
  /\ (forall name data, files p !! name = Some data ->
        exists i, (i < length urls)%nat
          /\ (name = segment_name i \/ name = part_name i)
          /\ served urls hdrs timeout (net p) i data).
Proof.
  revert p. apply rtc_ind_r.
  - split.
    + intros i t data Hi. simpl in Hi. rewrite list_lookup_fmap in Hi.
      destruct (urls !! i); [|discriminate]. injection Hi as <-. discriminate.
    + intros name data Hname. simpl in Hname. rewrite lookup_empty in Hname.
      discriminate.
  - intros p p' Hreach [i Hstep] [Htasks Hfiles].
    pose proof (reachable_length urls hdrs timeout retries concurrency p Hreach)
      as Hlen.
    unfold advance in Hstep.
    destruct (tasks p !! i) as [t|] eqn:Ht; [|discriminate].
    assert (Hi : (i < length (tasks p))%nat) by (eapply lookup_lt_Some, Ht).
    assert (Hupd : forall t' w',
      (forall k req, requests (net p) !! k = Some req ->
                     requests w' !! k = Some req) ->
      (forall data, carried t' = Some data -> served urls hdrs timeout w' i data) ->
      forall j tj data, <[i := t']> (tasks p) !! j = Some tj ->
        carried tj = Some data -> served urls hdrs timeout w' j data).
    { intros t' w' Hlog Ht' j tj data Hj Hc.
      destruct (decide (j = i)) as [->|Hji].
      - rewrite list_lookup_insert_eq in Hj by exact Hi. injection Hj as <-.
        now apply Ht'.
      - rewrite list_lookup_insert_ne in Hj by congruence.
        apply (served_later (net p)); [exact Hlog|]. now apply (Htasks j tj). }
    assert (Hsame : forall k req, requests (net p) !! k = Some req ->
                                  requests (net p) !! k = Some req)
      by (intros; assumption).
    destruct t as [|d c|d c|d c|ok c|ok c].
    + destruct (_ && _); [|discriminate].
      destruct (urls !! i) as [url|] eqn:Hurl; [|discriminate].
      destruct (try_download url hdrs timeout retries (1 # 2) (net p))
        as [[[[ok data] code]|e|] w'] eqn:Hrun; try discriminate.
      injection Hstep as <-. cbn [tasks files net].
      assert (Hlog : forall k req, requests (net p) !! k = Some req ->
                                   requests w' !! k = Some req).
      { intros k req. exact (try_download_keeps_log _ _ _ _ _ _ _ _ _ _ Hrun). }
      split.
      * apply Hupd; [exact Hlog|]. intros d Hd.
        destruct ok, data as [d'|]; simpl in Hd; try discriminate.
        injection Hd as ->.
        destruct (try_download_data _ _ _ _ _ _ _ _ _ Hrun) as (k & Hk & Hans).
        exists url, k. repeat split; assumption.
      * intros name d Hname.
        destruct (Hfiles name d Hname) as (j & Hj & Hnamed & Hserved).
        exists j. split; [exact Hj|]. split; [exact Hnamed|].
        now apply (served_later (net p)).
    + injection Hstep as <-. cbn [tasks files net].
      pose proof (Htasks i _ d Ht eq_refl) as Hserved. split.
      * apply Hupd; [exact Hsame|]. now intros d' [= <-].
      * intros name data Hname.
        destruct (decide (part_name i = name)) as [<-|Hne].
        -- rewrite lookup_insert_eq in Hname. injection Hname as <-.
           exists i. split; [lia|]. split; [now right|exact Hserved].
        -- rewrite lookup_insert_ne in Hname by exact Hne. now apply Hfiles.
    + injection Hstep as <-. cbn [tasks files net].
      pose proof (Htasks i _ d Ht eq_refl) as Hserved. split.
      * apply Hupd; [exact Hsame|]. now intros d' [= <-].
      * intros name data Hname.
        destruct (decide (segment_name i = name)) as [<-|Hne].
        -- rewrite lookup_insert_eq in Hname. injection Hname as <-.
           exists i. split; [lia|]. split; [now left|exact Hserved].
        -- rewrite lookup_insert_ne in Hname by exact Hne.
           destruct (decide (part_name i = name)) as [<-|Hne'].
           ++ rewrite lookup_delete_eq in Hname. discriminate.
           ++ rewrite lookup_delete_ne in Hname by exact Hne'.
              now apply Hfiles.
    + injection Hstep as <-. cbn [tasks files net]. split; [|exact Hfiles].
      apply Hupd; [exact Hsame|]. discriminate.
    + injection Hstep as <-. cbn [tasks files net]. split; [|exact Hfiles].
      apply Hupd; [exact Hsame|]. discriminate.
    + discriminate.
Qed.

End AnyNetwork.

(** X24.  Integrity of the segment files of
    [download_segments_concurrent] on any network, with any [retries] and
    any number of workers, in the fresh directory that [main] creates: in
    every state the pool can reach, each [.ts] file of the directory is
    the file of a segment of the list, and what it holds is the complete
    body that the network gave in answer to a request the pool has sent
    for the URL of that segment, with the headers and the timeout of the
    call.  With at most 10^6 segments the segment is the one the file is
    named after: data of one segment never ends up under the name of
    another. *)
Theorem pool_files_were_served `{Externals} urls hdrs timeout retries
    concurrency p :
  rtc (step urls hdrs timeout retries concurrency) (initial urls) p ->
  (forall name data, files p !! name = Some data ->
     endswith ".ts" name = true ->
     exists i url k, (i < length urls)%nat /\ name = segment_name i
       /\ urls !! i = Some url
       /\ requests (net p) !! k = Some (Request url hdrs timeout)
       /\ urlopen k (Request url hdrs timeout) = Body data)
  /\ ((N.of_nat (length urls) <= 1000000)%N ->
      forall i data, (i < length urls)%nat ->
        files p !! segment_name i = Some data ->
        exists url k, urls !! i = Some url
          /\ requests (net p) !! k = Some (Request url hdrs timeout)
          /\ urlopen k (Request url hdrs timeout) = Body data).
Proof.
  intros Hreach.
  destruct (reachable_served urls hdrs timeout retries concurrency p Hreach)
    as [_ Hfiles].
  split.
  - intros name data Hname Hts.
    destruct (Hfiles name data Hname)
      as (i & Hi & [-> | ->] & (url & k & Hurl & Hk & Hans)).
    + exists i, url, k. now repeat split.
    + rewrite endswith_ts_part_name in Hts. discriminate.
  - intros Hsize i data Hi Hname.
    destruct (Hfiles _ data Hname) as (j & Hj & [Heq|Heq] & Hserved).
    + apply segment_name_inj in Heq; [subst j; exact Hserved|lia|lia].
    + now apply segment_name_not_part_name in Heq.
Qed.

(** X24 on [Demo.flaky], whose first two answers are HTTP 500: the file
    written after two retries holds the body of the answer to the third
    request. *)
Lemma pool_files_were_served_witness :
  exists p,
    @run_schedule Demo.flaky ["http://cdn/seg0.ts"] [] 30 3 1 [0; 0; 0]%nat
      (initial ["http://cdn/seg0.ts"]) = Some p
    /\ files p !! segment_name 0 = Some Demo.flaky_payload
    /\ requests (net p) = replicate 3 (Request "http://cdn/seg0.ts" [] 30)
    /\ exists url k, ["http://cdn/seg0.ts"] !! 0%nat = Some url
         /\ requests (net p) !! k = Some (Request url [] 30)
         /\ @urlopen Demo.flaky k (Request url [] 30) = Body Demo.flaky_payload.
Proof.
  destruct (@run_schedule Demo.flaky ["http://cdn/seg0.ts"] [] 30 3 1
              [0; 0; 0]%nat (initial ["http://cdn/seg0.ts"])) as [p|] eqn:Hrun;
    [|vm_compute in Hrun; discriminate].
  exists p. split; [reflexivity|].
  assert (Hfile : files p !! segment_name 0 = Some Demo.flaky_payload).
  { vm_compute in Hrun. injection Hrun as <-. vm_compute. reflexivity. }
  split; [exact Hfile|].
  split; [vm_compute in Hrun; injection Hrun as <-; reflexivity|].
  pose proof (@pool_files_were_served Demo.flaky ["http://cdn/seg0.ts"] [] 30 3 1
                p (run_schedule_steps _ _ _ _ _ _ _ _ Hrun))
    as (_ & Hnamed).
  apply (Hnamed ltac:(vm_compute; discriminate) 0%nat Demo.flaky_payload
           ltac:(simpl; lia) Hfile).
Defined.

End PoolIntegrity.

(** ** The playlist address in a page *)
Module ExtractFacts.
Import PyStr Extract StrFacts.

Lemma startswith_inv p : forall s, startswith p s = true -> exists r, s = p +:+ r.
Proof.
  unfold startswith. induction p as [|a p IH]; intros s Hs.
  - exists s. now rewrite append_nil_l.
  - destruct s as [|b s]; cbn [String.prefix] in Hs; [discriminate|].
    destruct (ascii_dec a b) as [<-|Hne]; [|discriminate].
    destruct (IH s Hs) as [r ->]. exists r. now rewrite append_cons.
Qed.

Lemma all_chars_app p a b :
  all_chars p (a +:+ b) = all_chars p a && all_chars p b.
Proof.
  induction a as [|c a IH]; [now rewrite append_nil_l|].
  rewrite append_cons. simpl. rewrite IH. apply andb_assoc.
Qed.

Lemma longest_ending_Some suffix s : forall p,
  longest_ending suffix s = Some p ->
  exists q r, p = q +:+ suffix /\ s = p +:+ r.
Proof.
  induction s as [|c t IH]; intros p; cbn [longest_ending]; [discriminate|].
  destruct (longest_ending suffix t) as [p0|].
  - intros [= <-]. destruct (IH p0 eq_refl) as (q & r & -> & Ht).
    exists (String c q), r. rewrite !append_cons. split; [reflexivity|].
    now f_equal.
  - destruct (startswith suffix (String c t)) eqn:Hs; [|discriminate].
    intros [= <-]. destruct (startswith_inv _ _ Hs) as [r Hr].
    exists EmptyString, r. now rewrite append_nil_l.
Qed.

Lemma longest_ending_None suffix s :
  is_empty suffix = false ->
  (longest_ending suffix s = None <-> contains suffix s = false).
Proof.
  intros Hne. induction s as [|c t IH]; cbn [longest_ending contains].
  - destruct suffix; [discriminate|]. unfold startswith. simpl. tauto.
  - destruct (longest_ending suffix t) as [p0|].
    + split; [discriminate|]. intros Hc. apply orb_false_iff in Hc as [_ Hc].
      apply IH in Hc. discriminate.
    + destruct IH as [IH _]. rewrite (IH eq_refl), orb_false_r.
      destruct (startswith suffix (String c t)); split; congruence.
Qed.

Lemma longest_ending_prepend suffix q : forall s p,
  longest_ending suffix s = Some p ->
  longest_ending suffix (q +:+ s) = Some (q +:+ p).
Proof.
  induction q as [|c q IH]; intros s p Hs; [now rewrite !append_nil_l|].
  rewrite !append_cons. cbn [longest_ending]. now rewrite (IH s p Hs).
Qed.

Lemma take_while_app p a : forall rest,
  all_chars p a = true ->
  take_while p rest = EmptyString ->
  take_while p (a +:+ rest) = a.
Proof.
  induction a as [|c a IH]; intros rest Ha Hrest.
  - now rewrite append_nil_l.
  - simpl in Ha. apply andb_true_iff in Ha as [Hc Ha].
    rewrite append_cons. cbn [take_while]. rewrite Hc. f_equal. now apply IH.
Qed.

Lemma contains_inside x y : forall r, contains y (x +:+ y +:+ r) = true.
Proof.
  induction x as [|c x IH]; intros r.
  - rewrite append_nil_l. apply contains_here, startswith_app.
  - rewrite append_cons. apply contains_later, IH.
Qed.

Lemma contains_app_r x y h : contains (x +:+ y) h = true -> contains y h = true.
Proof.
  induction h as [|c h IH]; intros Hc; cbn [contains] in Hc.
  - rewrite orb_false_r in Hc. destruct (startswith_inv _ _ Hc) as [r Hr].
    rewrite Hr, append_assoc. apply contains_inside.
  - apply orb_true_iff in Hc as [Hc|Hc].
    + destruct (startswith_inv _ _ Hc) as [r Hr].
      rewrite Hr, append_assoc. apply contains_inside.
    + apply (contains_later y c h), IH, Hc.
Qed.

Lemma contains_skip c t :
  c <> "."%char -> contains ".m3u8" (String c t) = contains ".m3u8" t.
Proof.
  intros Hne. cbn [contains]. unfold startswith at 1. cbn [String.prefix].
  destruct (ascii_dec "." c) as [Heq|_]; [congruence|reflexivity].
Qed.

(** A match of the run: a non-empty body of class characters, then
    [.m3u8], at the start of the text. *)
Lemma match_run_Some s m :
  match_run s = Some m ->
  exists body r, m = body +:+ ".m3u8" /\ is_empty body = false
    /\ all_chars is_url_char m = true /\ s = m +:+ r.
Proof.
  unfold match_run.
  pose proof (take_while_all is_url_char s) as Hall.
  destruct (take_while_prefix is_url_char s) as [rest Hrest].
  destruct (take_while is_url_char s) as [|c t]; [discriminate|].
  destruct (longest_ending ".m3u8" t) as [p|] eqn:Hp; [|discriminate].
  intros [= <-].
  destruct (longest_ending_Some _ _ _ Hp) as (q & r & -> & Ht).
  exists (String c q), (r +:+ rest). rewrite append_cons.
  split; [reflexivity|]. split; [reflexivity|].
  simpl in Hall. apply andb_true_iff in Hall as [Hc Hall].
  rewrite Ht, all_chars_app in Hall. apply andb_true_iff in Hall as [Hall _].
  split; [simpl; now rewrite Hc, Hall|].
  rewrite Hrest, Ht, !append_cons. f_equal. apply append_assoc.
Qed.

Lemma match_url_here_Some s u :
  match_url_here s = Some u ->
  exists scheme body r,
    (scheme = "http" \/ scheme = "https")
    /\ u = scheme +:+ "://" +:+ body +:+ ".m3u8"
    /\ is_empty body = false
    /\ all_chars is_url_char (body +:+ ".m3u8") = true
    /\ s = u +:+ r.
Proof.
  unfold match_url_here.
  destruct (strip_prefix "http" s) as [s1|] eqn:H1; [|discriminate].
  apply strip_prefix_app in H1.
  destruct (strip_prefix "s" s1) as [s2|] eqn:H2; cbn [fst snd].
  - apply strip_prefix_app in H2.
    destruct (strip_prefix "://" s2) as [s3|] eqn:H3; [|discriminate].
    apply strip_prefix_app in H3.
    destruct (match_run s3) as [m|] eqn:Hm; [|discriminate].
    intros [= <-].
    destruct (match_run_Some _ _ Hm) as (body & r & -> & Hb & Hall & Hs3).
    exists "https", body, r. split; [now right|]. split; [reflexivity|].
    split; [exact Hb|]. split; [exact Hall|].
    rewrite H1, H2, H3, Hs3.
    now rewrite !append_cons, !append_nil_l.
  - destruct (strip_prefix "://" s1) as [s3|] eqn:H3; [|discriminate].
    apply strip_prefix_app in H3.
    destruct (match_run s3) as [m|] eqn:Hm; [|discriminate].
    intros [= <-].
    destruct (match_run_Some _ _ Hm) as (body & r & -> & Hb & Hall & Hs3).
    exists "http", body, r. split; [now left|]. split; [reflexivity|].
    split; [exact Hb|]. split; [exact Hall|].
    rewrite H1, H3, Hs3.
    now rewrite !append_cons, !append_nil_l.
Qed.

Lemma extract_Some html : forall u,
  extract_first_m3u8_from_html html = Some u ->
  exists scheme body,
    (scheme = "http" \/ scheme = "https")
    /\ u = scheme +:+ "://" +:+ body +:+ ".m3u8"
    /\ is_empty body = false
    /\ all_chars is_url_char (body +:+ ".m3u8") = true
    /\ contains u html = true.
Proof.
  assert (Hhere : forall s u, match_url_here s = Some u ->
    exists scheme body,
      (scheme = "http" \/ scheme = "https")
      /\ u = scheme +:+ "://" +:+ body +:+ ".m3u8"
      /\ is_empty body = false
      /\ all_chars is_url_char (body +:+ ".m3u8") = true
      /\ contains u s = true).
  { intros s u Hm.
    destruct (match_url_here_Some _ _ Hm) as (scheme & body & r & Hs & Hu & Hb & Hall & Hr).
    exists scheme, body. repeat split; try assumption.
    rewrite Hr. apply contains_here, startswith_app. }
  induction html as [|c html IH]; intros u; cbn [extract_first_m3u8_from_html].
  - destruct (match_url_here EmptyString) eqn:Hm; [|discriminate].
    intros [= <-]. now apply Hhere.
  - destruct (match_url_here (String c html)) eqn:Hm.
    + intros [= <-]. now apply Hhere.
    + intros Hu. destruct (IH u Hu) as (scheme & body & Hs & Heq & Hb & Hall & Hc).
      exists scheme, body. repeat split; try assumption.
      now apply contains_later.
Qed.

End ExtractFacts.

Module ExtractProps.
Import PyStr Extract More StrFacts ExtractFacts.

(** X25.  [extract_first_m3u8_from_html]: an address it returns occurs in
    the text and reads [http://] or [https://], then at least one
    character, then [.m3u8], with no quote, white space or [>] in it; in
    particular it is never empty, so the test [if m3u8] of the caller means
    "found".  A text without [.m3u8] gives nothing.  The match is greedy
    within the run of characters that are no quote, white space or [>]: it
    ends with the last [.m3u8] of that run, and what follows it there (a
    query string, say) is cut off. *)
Theorem extract_first_m3u8_shape :
  (forall html u,
     extract_first_m3u8_from_html html = Some u ->
     exists scheme body,
       (scheme = "http" \/ scheme = "https")
       /\ u = scheme +:+ "://" +:+ body +:+ ".m3u8"
       /\ is_empty body = false
       /\ all_chars is_url_char (body +:+ ".m3u8") = true
       /\ contains u html = true)
  /\ (forall html,
        found (extract_first_m3u8_from_html html) = true
        <-> extract_first_m3u8_from_html html <> None)
  /\ (forall html, contains ".m3u8" html = false ->
        extract_first_m3u8_from_html html = None)
  /\ (forall scheme body tail rest,
        scheme = "http" \/ scheme = "https" ->
        is_empty body = false ->
        all_chars is_url_char body = true ->
        all_chars is_url_char tail = true ->
        contains ".m3u8" tail = false ->
        take_while is_url_char rest = EmptyString ->
        extract_first_m3u8_from_html
          (scheme +:+ "://" +:+ body +:+ ".m3u8" +:+ tail +:+ rest)
        = Some (scheme +:+ "://" +:+ body +:+ ".m3u8")).
Proof.
  split; [exact extract_Some|]. split; [|split].
  - intros html. destruct (extract_first_m3u8_from_html html) as [u|] eqn:Hu.
    + destruct (extract_Some _ _ Hu) as (scheme & body & Hs & -> & _).
      split; [discriminate|]. intros _.
      destruct Hs as [-> | ->]; reflexivity.
    + split; [discriminate|congruence].
  - intros html Hno.
    destruct (extract_first_m3u8_from_html html) as [u|] eqn:Hu; [|reflexivity].
    destruct (extract_Some _ _ Hu) as (scheme & body & _ & -> & _ & _ & Hc).
    rewrite <- !append_assoc in Hc. apply contains_app_r in Hc. congruence.
  - intros scheme body tail rest Hs Hb Hbody Htail Hno Hrest.
    assert (Hrun : match_run (body +:+ ".m3u8" +:+ tail +:+ rest)
                   = Some (body +:+ ".m3u8")).
    { unfold match_run.
      replace (body +:+ ".m3u8" +:+ tail +:+ rest)
        with ((body +:+ ".m3u8" +:+ tail) +:+ rest)
        by now rewrite !append_assoc.
      rewrite take_while_app; [|rewrite !all_chars_app, Hbody, Htail; reflexivity
                               |exact Hrest].
      destruct body as [|c body]; [discriminate|].
      rewrite (append_cons c body (".m3u8" +:+ tail)).
      assert (Hend : longest_ending ".m3u8" (".m3u8" +:+ tail) = Some ".m3u8").
      { rewrite !append_cons, append_nil_l.
        assert (Hcons : forall c t,
          longest_ending ".m3u8" (String c t)
          = match longest_ending ".m3u8" t with
            | Some p => Some (String c p)
            | None => if startswith ".m3u8" (String c t) then Some ".m3u8" else None
            end) by reflexivity.
        rewrite Hcons.
        assert (Hnone : longest_ending ".m3u8"
                          (String "m" (String "3" (String "u" (String "8" tail))))
                        = None).
        { apply longest_ending_None; [reflexivity|].
          rewrite !contains_skip by discriminate. exact Hno. }
        rewrite Hnone.
        change (String "." (String "m" (String "3" (String "u" (String "8" tail)))))
          with (String "." (String "m" (String "3" (String "u" (String "8" EmptyString))))
                +:+ tail) at 1.
        now rewrite startswith_app. }
      rewrite (longest_ending_prepend ".m3u8" body _ _ Hend).
      now rewrite append_cons. }
    assert (Hhere : forall html u, match_url_here html = Some u ->
                    extract_first_m3u8_from_html html = Some u).
    { intros html u Hm. destruct html; cbn [extract_first_m3u8_from_html];
        now rewrite Hm. }
    assert (Hhttp : forall X,
      match_url_here ("http" +:+ "://" +:+ X)
      = match match_run X with
        | Some m => Some ("http" +:+ "://" +:+ m)
        | None => None
        end) by reflexivity.
    assert (Hhttps : forall X,
      match_url_here ("https" +:+ "://" +:+ X)
      = match match_run X with
        | Some m => Some ("https" +:+ "://" +:+ m)
        | None => None
        end) by reflexivity.
    apply Hhere. destruct Hs as [-> | ->].
    + now rewrite Hhttp, Hrun.
    + now rewrite Hhttps, Hrun.
Qed.

End ExtractProps.

(** ** The page resolver *)
Module PageProps.
Import PyStr Py Playlist SpecWords More Headers Extract StrFacts ChainFacts
       ExtractFacts.

(** The test [if m3u8] of the caller means "found". *)
Lemma found_extract html :
  (if found (extract_first_m3u8_from_html html)
   then extract_first_m3u8_from_html html else None)
  = extract_first_m3u8_from_html html.
Proof.
  destruct (extract_first_m3u8_from_html html) as [u|] eqn:Hu; [|reflexivity].
  destruct (extract_Some _ _ Hu) as (scheme & body & Hs & -> & _).
  now destruct Hs as [-> | ->].
Qed.

(** X21.  [resolve_m3u8_from_page], whatever embeds its embed extraction
    finds: it sends the request for the page with the caller's headers, and
    when the page names an embed, one request for the first embed with
    headers of its own: the caller's user agent (the default one when the
    caller has none or an empty one), the fixed headers of [build_headers],
    and the player's address as [Origin] and [Referer]; nothing else of the
    caller's headers is passed on.  A failed request raises.  The result is
    the playlist address found in the embed, else the one found in the
    page, else nothing; an address returned reads [http://] or [https://],
    then at least one character, then [.m3u8]. *)
Theorem resolve_m3u8_from_page_requests `{Externals}
    (extract_bunny_embed_urls_from_animixplay_page : string -> list string)
    page_url hdrs timeout w :
  let run :=
    resolve_m3u8_from_page extract_bunny_embed_urls_from_animixplay_page
      page_url hdrs timeout w in
  let user_agent :=
    match dict_get "User-Agent" hdrs with
    | Some v => if is_empty v then DEFAULT_UA else v
    | None => DEFAULT_UA
    end in
  let embed_headers :=
    [ ("User-Agent", user_agent); ("Accept", "*/*");
      ("Accept-Encoding", "identity"); ("Connection", "keep-alive");
      ("DNT", "1"); ("Origin", "https://play.bunnycdn.to/");
      ("Referer", "https://play.bunnycdn.to/") ] in
  (forall e,
     urlopen (length (requests w)) (Request page_url hdrs timeout) = Fails e ->
     run = (Raise e, after_top page_url hdrs timeout w))
  /\ (forall page,
        urlopen (length (requests w)) (Request page_url hdrs timeout) = Body page ->
        extract_bunny_embed_urls_from_animixplay_page (decode page) = [] ->
        run = (Ok None, after_top page_url hdrs timeout w))
  /\ (forall page embed_url more,
        urlopen (length (requests w)) (Request page_url hdrs timeout) = Body page ->
        extract_bunny_embed_urls_from_animixplay_page (decode page)
        = embed_url :: more ->
        snd run
        = World (requests w ++ [Request page_url hdrs timeout;
                                Request embed_url embed_headers timeout])
                (slept w)
        /\ fst run
           = match urlopen (S (length (requests w)))
                           (Request embed_url embed_headers timeout) with
             | Fails e => Raise e
             | Body embed =>
                 Ok (match extract_first_m3u8_from_html (decode embed) with
                     | Some m3u8 => Some m3u8
                     | None => extract_first_m3u8_from_html (decode page)
                     end)
             end)
  /\ (forall m3u8, fst run = Ok (Some m3u8) ->
        exists scheme body,
          (scheme = "http" \/ scheme = "https")
          /\ m3u8 = scheme +:+ "://" +:+ body +:+ ".m3u8"
          /\ is_empty body = false).
Proof.
  intros run user_agent embed_headers.
  assert (Hheaders :
    build_headers (dict_get_or "User-Agent" DEFAULT_UA hdrs)
                  (Some "https://play.bunnycdn.to/") []
    = embed_headers).
  { subst embed_headers user_agent. unfold dict_get_or, build_headers, or_else.
    destruct (dict_get "User-Agent" hdrs) as [v|]; reflexivity. }
  assert (Hfail : forall e,
     urlopen (length (requests w)) (Request page_url hdrs timeout) = Fails e ->
     run = (Raise e, after_top page_url hdrs timeout w)).
  { intros e Hpage. subst run. unfold resolve_m3u8_from_page, bind.
    now rewrite http_get_answer, Hpage. }
  assert (Hnone : forall page,
        urlopen (length (requests w)) (Request page_url hdrs timeout) = Body page ->
        extract_bunny_embed_urls_from_animixplay_page (decode page) = [] ->
        run = (Ok None, after_top page_url hdrs timeout w)).
  { intros page Hpage Hembeds. subst run. unfold resolve_m3u8_from_page, bind.
    now rewrite http_get_answer, Hpage, Hembeds. }
  assert (Hembed : forall page embed_url more,
        urlopen (length (requests w)) (Request page_url hdrs timeout) = Body page ->
        extract_bunny_embed_urls_from_animixplay_page (decode page)
        = embed_url :: more ->
        run
        = (match urlopen (S (length (requests w)))
                           (Request embed_url embed_headers timeout) with
             | Fails e => Raise e
             | Body embed =>
                 Ok (match extract_first_m3u8_from_html (decode embed) with
                     | Some m3u8 => Some m3u8
                     | None => extract_first_m3u8_from_html (decode page)
                     end)
             end,
           World (requests w ++ [Request page_url hdrs timeout;
                                Request embed_url embed_headers timeout])
                (slept w))).
  { intros page embed_url more Hpage Hembeds. subst run.
    unfold resolve_m3u8_from_page, bind.
    rewrite http_get_answer, Hpage, Hembeds, Hheaders.
    rewrite http_get_answer, after_top_length.
    unfold after_top. cbn [requests slept]. rewrite <- app_assoc. cbn [app].
    destruct (urlopen (S (length (requests w)))
                (Request embed_url embed_headers timeout)) as [embed|e];
      [|reflexivity].
    pose proof (found_extract (decode page)) as Hpagefound.
    destruct (extract_first_m3u8_from_html (decode embed)) as [u|] eqn:Hu.
    - pose proof (found_extract (decode embed)) as Hf. rewrite Hu in Hf.
      destruct (found (Some u)); [reflexivity|discriminate].
    - cbn [found].
      destruct (found (extract_first_m3u8_from_html (decode page)));
        [reflexivity|unfold ret; now rewrite <- Hpagefound]. }
  split; [exact Hfail|]. split; [exact Hnone|]. split.
  - intros page embed_url more Hpage Hembeds.
    rewrite (Hembed page embed_url more Hpage Hembeds). now split.
  - intros m Hm.
    destruct (urlopen (length (requests w)) (Request page_url hdrs timeout))
      as [page|e] eqn:Hpage; [|rewrite (Hfail e eq_refl) in Hm; discriminate].
    destruct (extract_bunny_embed_urls_from_animixplay_page (decode page))
      as [|embed_url more] eqn:Hembeds;
      [rewrite (Hnone page eq_refl Hembeds) in Hm; discriminate|].
    rewrite (Hembed page embed_url more eq_refl Hembeds) in Hm. cbn [fst] in Hm.
    destruct (urlopen (S (length (requests w)))
                (Request embed_url embed_headers timeout)) as [embed|e];
      [|discriminate].
    injection Hm as Hm.
    assert (Hex : exists html, extract_first_m3u8_from_html html = Some m).
    { destruct (extract_first_m3u8_from_html (decode embed)) as [u|] eqn:Hu.
      - injection Hm as <-. eauto.
      - eauto. }
    destruct Hex as [html Hex].
    destruct (extract_Some _ _ Hex) as (scheme & body & Hs & Heq & Hb & _).
    exists scheme, body. now repeat split.
Qed.

End PageProps.

(** ** More retries *)
Module RetryMore.
Import PyStr Py Fetch SpecWords More ChainFacts.

(** A call that ended with an answer that is never retried ends the same
    way with any greater number of retries. *)
Lemma decisive_for_more_retries `{Externals} url hdrs timeout retries retries'
    backoff w result w' :
  retries <= retries' ->
  try_download url hdrs timeout retries backoff w = (Ok result, w') ->
  (forall r, final_result r = result -> retriable r = false) ->
  result <> (false, None, None) ->
  try_download url hdrs timeout retries' backoff w = (Ok result, w').
Proof.
  intros Hle Hrun Hdecisive Hne.
  destruct (Z.lt_ge_cases retries 0) as [Hneg|Hpos].
  - rewrite (FetchTotal.try_download_no_attempt _ _ _ _ _ _ Hneg) in Hrun.
    injection Hrun as <- _. contradiction.
  - destruct (FetchTotal.try_download_outcome url hdrs timeout retries backoff w
                Hpos)
      as (k & Hk & Hbefore & Hsleep & [[_ Hk_run]|(_ & _ & _ & Hk_run)]);
      rewrite Hk_run in Hrun; [|discriminate].
    injection Hrun as <- <-.
    unfold try_download, range.
    replace (retries' + 1) with (retries' + 1 - 0) by lia.
    apply (FetchProps.for_attempts_run url hdrs timeout retries' backoff k 0 w);
      try lia; [exact Hbefore|exact Hsleep|].
    left. now apply Hdecisive.
Qed.

(** X26.  More retries never lose a result that was final: if
    [try_download] succeeds with [retries], it succeeds with every greater
    number of retries, with the same data, after the same requests and the
    same delays; and if it fails with HTTP 403 or 404, it fails the same
    way.  (A failure with another code, or without code, may turn into
    something else when more retries are allowed.) *)
Theorem more_retries_keep_final_results `{Externals} url hdrs timeout retries
    retries' backoff w :
  retries <= retries' ->
  (forall data code w',
     try_download url hdrs timeout retries backoff w
     = (Ok (true, Some data, code), w') ->
     try_download url hdrs timeout retries' backoff w
     = (Ok (true, Some data, code), w'))
  /\ (forall code w', code = 403 \/ code = 404 ->
        try_download url hdrs timeout retries backoff w
        = (Ok (false, None, Some code), w') ->
        try_download url hdrs timeout retries' backoff w
        = (Ok (false, None, Some code), w')).
Proof.
  intros Hle. split.
  - intros data code w' Hrun.
    apply (decisive_for_more_retries url hdrs timeout retries retries' backoff w
             _ w' Hle Hrun); [|discriminate].
    intros r Hr. destruct r as [d|e]; [reflexivity|discriminate].
  - intros code w' Hcode Hrun.
    apply (decisive_for_more_retries url hdrs timeout retries retries' backoff w
             _ w' Hle Hrun); [|discriminate].
    intros r Hr. destruct r as [d|e]; [reflexivity|].
    unfold final_result, status_of in Hr.
    destruct e as [msg|msg|c| |]; try discriminate.
    injection Hr as ->. simpl.
    destruct Hcode as [-> | ->]; reflexivity.
Qed.

(** X26 on [Demo.flaky], which answers 500, 500, 200: what two retries
    reach, ten retries reach as well. *)
Lemma more_retries_keep_final_results_witness :
  @try_download Demo.flaky "http://cdn/seg0.ts" [] 30 10 (1 # 2) world0
  = (Ok (true, Some Demo.flaky_payload, None),
     World (replicate 3 (Request "http://cdn/seg0.ts" [] 30))
           [backoff_delay (1 # 2) 0; backoff_delay (1 # 2) 1]).
Proof.
  exact (proj1 (@more_retries_keep_final_results Demo.flaky
                  "http://cdn/seg0.ts" [] 30 2 10 (1 # 2) world0 ltac:(lia))
           Demo.flaky_payload None _ eq_refl).
Defined.

End RetryMore.
